(** * ImageCompressor: the compression pipeline and the batch loop of script.js

    A shallow embedding of [compressImage], [createResultCard] and
    [processFiles] of [src/ImageCompressor/script.js], with the browser
    (FileReader, Image, canvas) as an explicit environment, JavaScript
    numbers as IEEE-754 binary64 values and promises as values that are
    resolved, rejected or never settled.  The HTML parser behind
    [innerHTML] belongs to the browser too: the model reads markup by
    itself only where nothing interpolated into it can change how it
    parses. *)

From Stdlib Require Import ZArith List Bool Ascii String Lia.
From Stdlib Require Import QArith Qabs Qpower Qround Lqa.
From Stdlib Require Import Sorted.
From Stdlib Require Import DecimalString.
From Stdlib Require Import SpecFloat.
Import ListNotations.

Local Open Scope Z_scope.

(* ===================================================================== *)
(** ** JavaScript strings *)
(* ===================================================================== *)

(** Strings are sequences of code units; the embedding uses [string], whose
    characters are 8-bit.  Every string the modelled code inspects (media
    types, data URLs, the separators of a file name) is ASCII. *)
Module JsString.

Local Open Scope string_scope.

(** [s.split(sep)] for a non-empty separator [sep]: [skip] counts the
    characters of a separator occurrence still to be dropped, [cur] is the
    piece being accumulated. *)
Fixpoint split_aux (sep : string) (skip : nat) (cur s : string) : list string :=
  match s with
  | EmptyString => [cur]
  | String c s' =>
      match skip with
      | S k => split_aux sep k cur s'
      | O =>
          if String.prefix sep s
          then cur :: split_aux sep (String.length sep - 1) EmptyString s'
          else split_aux sep 0 (cur ++ String c EmptyString) s'
      end
  end.

Definition split (sep s : string) : list string := split_aux sep 0 EmptyString s.

(** [a[i]]: [None] stands for [undefined]. *)
Definition at_index (a : list string) (i : nat) : option string := nth_error a i.

(** [a.pop()] read as an expression: the last element. *)
Definition pop (a : list string) : option string :=
  match a with
  | [] => None
  | x :: r => Some (last r x)
  end.

(** [s.includes(sub)]. *)
Fixpoint includes (sub s : string) : bool :=
  String.prefix sub s ||
  match s with
  | EmptyString => false
  | String _ s' => includes sub s'
  end.

(** The tail demanded by [/\.[^/.]+$/] after its leading dot: one or more
    characters, none of them a slash or a dot, up to the end. *)
Fixpoint no_slash_dot (s : string) : bool :=
  match s with
  | EmptyString => true
  | String c s' => negb (Ascii.eqb c "/") && negb (Ascii.eqb c ".") && no_slash_dot s'
  end.

Definition ext_tail (s : string) : bool :=
  match s with
  | EmptyString => false
  | String _ _ => no_slash_dot s
  end.

(** [s.replace(/\.[^/.]+$/, "")]: the leftmost position at which the
    pattern matches is cut off together with everything after it. *)
Fixpoint replace_ext (s : string) : string :=
  match s with
  | EmptyString => EmptyString
  | String c s' =>
      if Ascii.eqb c "." && ext_tail s' then EmptyString
      else String c (replace_ext s')
  end.

(** [ToString] of a value that may be [undefined]. *)
Definition to_string (v : option string) : string :=
  match v with
  | Some s => s
  | None => "undefined"
  end.

(** Decimal rendering of a non-negative integer, as in a template literal. *)
Definition of_nat (n : nat) : string := NilEmpty.string_of_uint (Nat.to_uint n).

Definition of_Z (n : Z) : string :=
  if (n <? 0)%Z then "-" ++ of_nat (Z.to_nat (- n)) else of_nat (Z.to_nat n).

End JsString.

(* ===================================================================== *)
(** ** [window.atob] *)
(* ===================================================================== *)

(** The forgiving-base64 decoder behind [window.atob]; [None] is the
    [InvalidCharacterError] it throws. *)
Module Base64.

Definition is_space (c : ascii) : bool :=
  let n := N_of_ascii c in
  (n =? 9)%N || (n =? 10)%N || (n =? 12)%N || (n =? 13)%N || (n =? 32)%N.

Fixpoint strip_space (s : string) : string :=
  match s with
  | EmptyString => EmptyString
  | String c s' => if is_space c then strip_space s' else String c (strip_space s')
  end.

(** The value of a character of the base64 alphabet. *)
Definition sextet (c : ascii) : option N :=
  let n := N_of_ascii c in
  if ((65 <=? n) && (n <=? 90))%N then Some (n - 65)%N
  else if ((97 <=? n) && (n <=? 122))%N then Some (n - 71)%N
  else if ((48 <=? n) && (n <=? 57))%N then Some (n + 4)%N
  else if (n =? 43)%N then Some 62%N
  else if (n =? 47)%N then Some 63%N
  else None.

Fixpoint sextets (s : string) : option (list N) :=
  match s with
  | EmptyString => Some []
  | String c s' =>
      match sextet c, sextets s' with
      | Some v, Some r => Some (v :: r)
      | _, _ => None
      end
  end.

(** With a length that is a multiple of four, one or two trailing [=] are
    removed. *)
Definition strip_padding (s : string) : string :=
  let n := String.length s in
  if (n mod 4 =? 0)%nat then
    if String.eqb (substring (n - 2) 2 s) "==" then substring 0 (n - 2) s
    else if String.eqb (substring (n - 1) 1 s) "=" then substring 0 (n - 1) s
    else s
  else s.

Definition chr (n : N) : ascii := ascii_of_N (n mod 256).

(** Groups of four sextets give three bytes; a final group of three gives
    two bytes and a final group of two gives one. *)
Fixpoint bytes_of_sextets (l : list N) : string :=
  match l with
  | a :: b :: c :: d :: r =>
      let w := (a * 262144 + b * 4096 + c * 64 + d)%N in
      String (chr (w / 65536)) (String (chr (w / 256)) (String (chr w) (bytes_of_sextets r)))
  | [a; b; c] =>
      let w := (a * 4096 + b * 64 + c)%N in
      String (chr (w / 1024)) (String (chr (w / 4)) EmptyString)
  | [a; b] =>
      let w := (a * 64 + b)%N in
      String (chr (w / 16)) EmptyString
  | _ => EmptyString
  end.

Definition decode (data : string) : option string :=
  let d := strip_padding (strip_space data) in
  if (String.length d mod 4 =? 1)%nat then None
  else match sextets d with
       | Some l => Some (bytes_of_sextets l)
       | None => None
       end.

(** [window.atob(v)]: the argument is first converted to a string. *)
Definition atob (v : option string) : option string := decode (JsString.to_string v).

End Base64.

(* ===================================================================== *)
(** ** JavaScript numbers *)
(* ===================================================================== *)

(** A Number is an IEEE-754 binary64 value: [spec_float] with a 53-bit
    significand and exponents below 1024, every operation rounding to
    nearest, ties to even.  Integers that the code only copies or compares
    (byte sizes, image dimensions, counters) are kept in [Z]; they enter
    this module through [of_Z] where the code divides or multiplies them. *)
Module JsNumber.

Definition prec : Z := 53.
Definition emax : Z := 1024.

Definition number := spec_float.

Definition of_Z (n : Z) : number := binary_normalize prec emax n 0 false.
Definition div (x y : number) : number := SFdiv prec emax x y.
Definition mul (x y : number) : number := SFmul prec emax x y.
Definition sub (x y : number) : number := SFsub prec emax x y.
Definition ltb (x y : number) : bool := SFltb x y.

Definition is_nan (x : number) : bool :=
  match x with S754_nan => true | _ => false end.

Definition is_neg_zero (x : number) : bool :=
  match x with S754_zero true => true | _ => false end.

(** [Math.min(x, y)]. *)
Definition min (x y : number) : number :=
  if is_nan x || is_nan y then S754_nan
  else if ltb y x then y
  else if ltb x y then x
  else if is_neg_zero y then y else x.

(** The number as a rational; 0 for the values that are not finite. *)
Definition value (x : number) : Q :=
  match x with
  | S754_finite s m e =>
      (if s then inject_Z (Zneg m) else inject_Z (Zpos m)) * (2 ^ e)%Q
  | _ => 0%Q
  end.

(** Conversion to a Web IDL [unsigned long], which assigning to
    [canvas.width] or [canvas.height] performs: NaN, zeros and infinities
    give 0, everything else is truncated towards zero and reduced modulo
    2^32.  (The canvas then replaces a value above 2^31 - 1 by its default
    size; the sizes computed from an image never come near it.) *)
Definition to_unsigned_long (x : number) : Z :=
  match x with
  | S754_finite s m e =>
      let mag := Z.shiftl (Zpos m) e in
      (if s then - mag else mag) mod 2 ^ 32
  | _ => 0
  end.

(** [x.toFixed(1)] for a finite [x] below 10^21: the integer [n] with
    [n / 10] nearest to the magnitude of [x], the larger one on a tie. *)
Definition tenths (x : number) : Z :=
  match x with
  | S754_finite _ m e =>
      if 0 <=? e then 10 * Z.shiftl (Zpos m) e
      else (20 * Zpos m + 2 ^ (- e)) / 2 ^ (- e + 1)
  | _ => 0
  end.

Definition is_negative (x : number) : bool :=
  match x with
  | S754_finite s _ _ => s
  | S754_infinity s => s
  | _ => false
  end.

Definition toFixed1 (x : number) : string :=
  match x with
  | S754_nan => "NaN"%string
  | S754_infinity s => ((if s then "-" else "") ++ "Infinity")%string
  | _ =>
      let n := tenths x in
      ((if is_negative x then "-" else "")
       ++ JsString.of_Z (n / 10) ++ "." ++ JsString.of_Z (n mod 10))%string
  end.

(** The literals of the modelled code. *)
Definition lit_0_25 : number := S754_finite false 4503599627370496 (-54).
Definition lit_100 : number := of_Z 100.

End JsNumber.

(* ===================================================================== *)
(** ** Files, blobs and the browser *)
(* ===================================================================== *)

Record Blob := mkBlob {
  blob_type : string;
  blob_bytes : list Byte.byte
}.

Definition blob_size (b : Blob) : Z := Z.of_nat (List.length (blob_bytes b)).

(** A [File] is a [Blob] with a name; [file.size] is its byte length. *)
Record File := mkFile {
  file_name : string;
  file_type : string;
  file_bytes : list Byte.byte
}.

Definition file_size (f : File) : Z := Z.of_nat (List.length (file_bytes f)).

(** The file used where a [Blob] is expected ([compressedBlob: file]). *)
Definition file_blob (f : File) : Blob := mkBlob (file_type f) (file_bytes f).

(** A canvas: its bitmap size and the image drawn over its full bounds. *)
Record Canvas := mkCanvas {
  canvas_width : Z;
  canvas_height : Z;
  canvas_image : string
}.

(** The values the markup of a result card is written from (lines
    239-268): the [src] of the preview, the text of the name, the two sizes
    shown through [formatBytes], the width of the bar, the text and the
    class of the reduction badge, the blob [downloadUrl] was created for and
    the text put into [data-filename]. *)
Record Card := mkCard {
  card_preview : string;
  card_name : string;
  card_originalSize : Z;
  card_finalSize : Z;
  card_barWidth : JsNumber.number;
  card_reductionText : string;
  card_reductionClass : string;
  card_downloadBlob : Blob;
  card_fileName : string
}.

(** What the click listener of a download button reads back from the
    parsed markup (lines 271-272) and gives to its anchor (lines 275-276):
    the blob the URL found in [data-url] was created for, if it is such a
    URL, and the name found in [data-filename]. *)
Record Download := mkDownload {
  download_blob : option Blob;
  download_name : string
}.

(** What the page cannot compute by itself: reading a file into a data URL
    ([None]: the reader's [onerror]), decoding a data URL into an image with
    its native width and height ([None]: the image's [onerror]), and the
    encoder behind [canvas.toDataURL]; the HTML parser behind [innerHTML]
    followed by [querySelector('.download-btn')], for the markup written
    from the given values ([None]: no element of that class), and the
    message of the [TypeError] that a method call on [null] raises, which
    differs between engines. *)
Record Browser := mkBrowser {
  readAsDataURL : File -> option string;
  loadImage : string -> option (Z * Z);
  encodeCanvas : Canvas -> string -> JsNumber.number -> string;
  parseCard : Card -> option Download;
  nullMessage : string
}.

(** [canvas.toDataURL(type, quality)]: a bitmap without pixels gives the
    string [data:,] whatever the encoder. *)
Definition toDataURL (env : Browser) (canvas : Canvas) (mimeType : string)
    (quality : JsNumber.number) : string :=
  if (canvas_width canvas =? 0) || (canvas_height canvas =? 0) then "data:,"%string
  else encodeCanvas env canvas mimeType quality.

Definition lower (c : ascii) : ascii :=
  let n := N_of_ascii c in
  if ((65 <=? n) && (n <=? 90))%N then ascii_of_N (n + 32) else c.

Fixpoint lowercase (s : string) : string :=
  match s with
  | EmptyString => EmptyString
  | String c s' => String (lower c) (lowercase s')
  end.

Fixpoint printable (s : string) : bool :=
  match s with
  | EmptyString => true
  | String c s' =>
      let n := N_of_ascii c in
      ((32 <=? n) && (n <=? 126))%N && printable s'
  end.

(** [new Blob([bytes], { type })]: a missing type is the empty string, a
    type with a character outside U+0020..U+007E is dropped, any other is
    lowercased. *)
Definition new_Blob (bytes : list Byte.byte) (type : option string) : Blob :=
  match type with
  | Some t => mkBlob (if printable t then lowercase t else EmptyString) bytes
  | None => mkBlob EmptyString bytes
  end.

(** A promise at the end of the run: resolved, rejected with the message of
    its [Error], or left pending for ever (an exception thrown inside an
    event handler reaches neither [resolve] nor [reject]). *)
Inductive Promise (A : Type) : Type :=
  | Resolved (a : A)
  | Rejected (message : string)
  | Pending.

Arguments Resolved {A} a.
Arguments Rejected {A} message.
Arguments Pending {A}.

(** How a call ends: with a value, or with an exception and its message. *)
Inductive Completion (A : Type) : Type :=
  | Returns (a : A)
  | Throws (message : string).

Arguments Returns {A} a.
Arguments Throws {A} message.

(* ===================================================================== *)
(** ** [compressImage] *)
(* ===================================================================== *)

Definition MAX_DIMENSION : Z := 1920.

(** Lines 136-145: the size given to the canvas for an image of native
    size [width] x [height] ([img.width] and [img.height], which are
    unsigned integers). *)
Definition canvasSize (width height : Z) : Z * Z :=
  if (width >? MAX_DIMENSION) || (height >? MAX_DIMENSION) then
    let ratio :=
      JsNumber.min (JsNumber.div (JsNumber.of_Z MAX_DIMENSION) (JsNumber.of_Z width))
                   (JsNumber.div (JsNumber.of_Z MAX_DIMENSION) (JsNumber.of_Z height)) in
    (JsNumber.to_unsigned_long (JsNumber.mul (JsNumber.of_Z width) ratio),
     JsNumber.to_unsigned_long (JsNumber.mul (JsNumber.of_Z height) ratio))
  else (width, height).

(** Lines 150-164: the type and quality handed to the encoder; [None] is the
    final [else], which rejects. *)
Definition encodeSettings (type : string) : option (string * JsNumber.number) :=
  if String.eqb type "image/jpeg" then Some ("image/jpeg"%string, JsNumber.lit_0_25)
  else if String.eqb type "image/png" then Some ("image/webp"%string, JsNumber.lit_0_25)
  else if String.eqb type "image/webp" then Some ("image/webp"%string, JsNumber.lit_0_25)
  else None.

(** Lines 169-179: the data URL turned into a [Blob]; [None] when [atob]
    throws.  [parts[0]] always exists, [parts[1]] and the content type may
    be [undefined]. *)
Definition dataUrlToBlob (compressedDataUrl : string) : option Blob :=
  let parts := JsString.split ";base64," compressedDataUrl in
  let contentType :=
    JsString.at_index (JsString.split ":" (JsString.to_string (JsString.at_index parts 0))) 1 in
  match Base64.atob (JsString.at_index parts 1) with
  | None => None
  | Some raw =>
      let uInt8Array := map byte_of_ascii (list_ascii_of_string raw) in
      Some (new_Blob uInt8Array contentType)
  end.

Record Compressed := mkCompressed {
  compressedDataUrl : string;
  compressedBlob : Blob;
  compressedSize : Z
}.

(** The work an invocation asks of the browser, in program order. *)
Inductive Step :=
  | ReadFile
  | DecodeImage
  | DrawImage (width height : Z)
  | EncodeCanvas (mimeType : string) (quality : JsNumber.number).

Definition compressImage (env : Browser) (file : File) : list Step * Promise Compressed :=
  match readAsDataURL env file with
  | None => ([ReadFile], Rejected "Failed to read file."%string)
  | Some originalDataUrl =>
      let originalSize := file_size file in
      match loadImage env originalDataUrl with
      | None => ([ReadFile; DecodeImage], Rejected "Failed to load image."%string)
      | Some (width, height) =>
          let '(cw, ch) := canvasSize width height in
          let canvas := mkCanvas cw ch originalDataUrl in
          match encodeSettings (file_type file) with
          | None =>
              ([ReadFile; DecodeImage; DrawImage cw ch],
               Rejected "Unsupported file format."%string)
          | Some (mimeType, quality) =>
              let work := [ReadFile; DecodeImage; DrawImage cw ch;
                           EncodeCanvas mimeType quality] in
              let compressedDataUrl := toDataURL env canvas mimeType quality in
              match dataUrlToBlob compressedDataUrl with
              | None => (work, Pending)
              | Some compressedBlob =>
                  let compressedSize := blob_size compressedBlob in
                  if compressedSize >=? originalSize then
                    (work, Resolved (mkCompressed originalDataUrl (file_blob file) originalSize))
                  else
                    (work, Resolved (mkCompressed compressedDataUrl compressedBlob compressedSize))
              end
          end
      end
  end.

(* ===================================================================== *)
(** ** [element.classList] *)
(* ===================================================================== *)

(** [element.classList]: an ordered set of tokens. *)
Module ClassList.

Definition contains (token : string) (classes : list string) : bool :=
  existsb (String.eqb token) classes.

Definition add1 (classes : list string) (token : string) : list string :=
  if contains token classes then classes else classes ++ [token].

Definition remove1 (classes : list string) (token : string) : list string :=
  filter (fun c => negb (String.eqb token c)) classes.

(** [classList.add(...tokens)] and [classList.remove(...tokens)]. *)
Definition add (tokens classes : list string) : list string :=
  fold_left add1 tokens classes.

Definition remove (tokens classes : list string) : list string :=
  fold_left remove1 tokens classes.

(** [classList.toggle(token)]. *)
Definition toggle (token : string) (classes : list string) : list string :=
  if contains token classes then remove1 classes token else classes ++ [token].

End ClassList.

(* ===================================================================== *)
(** ** [createResultCard] *)
(* ===================================================================== *)

(** Line 222: [(finalSize / originalSize) * 100]. *)
Definition reductionPercentage (finalSize originalSize : Z) : JsNumber.number :=
  JsNumber.mul (JsNumber.div (JsNumber.of_Z finalSize) (JsNumber.of_Z originalSize))
               JsNumber.lit_100.

(** Line 225: [100 - reductionPercentage]. *)
Definition reduction (finalSize originalSize : Z) : JsNumber.number :=
  JsNumber.sub JsNumber.lit_100 (reductionPercentage finalSize originalSize).

(** Lines 212-268: the values the template literal assigned to
    [card.innerHTML] is filled with. *)
Definition cardMarkup (originalFile : File) (finalDataUrl : string)
    (finalSize : Z) (finalBlob : Blob) : Card :=
  let originalSize := file_size originalFile in
  let originalFormat :=
    JsString.to_string (JsString.pop (JsString.split "." (file_name originalFile))) in
  let fileName := JsString.replace_ext (file_name originalFile) in
  let isWebP := JsString.includes "webp" (blob_type finalBlob) in
  let finalExtension := if isWebP then "webp"%string else originalFormat in
  let percentage := reductionPercentage finalSize originalSize in
  let '(reductionText, reductionClass, fileName) :=
    if finalSize <? originalSize then
      (("-" ++ JsNumber.toFixed1 (reduction finalSize originalSize) ++ "% Reduction")%string,
       "bg-green-100 text-green-700"%string,
       (fileName ++ "_compressed." ++ finalExtension)%string)
    else
      ("0% Reduction (Used Original)"%string,
       "bg-yellow-100 text-yellow-700"%string,
       file_name originalFile) in
  mkCard finalDataUrl (file_name originalFile) originalSize finalSize
         (JsNumber.min percentage JsNumber.lit_100)
         reductionText reductionClass finalBlob fileName.

(** The characters that matter to the HTML tokenizer inside the template:
    a double quote ends an attribute value, an ampersand may open a
    character reference, [<] may open a tag, U+0000 is read back as U+FFFD
    and a carriage return as a line feed. *)
Definition quotation_mark : string := String (ascii_of_nat 34) EmptyString.
Definition null_character : string := String (ascii_of_nat 0) EmptyString.
Definition carriage_return : string := String (ascii_of_nat 13) EmptyString.

(** A string that a double-quoted attribute value gives back unchanged. *)
Definition attribute_safe (s : string) : bool :=
  negb (JsString.includes quotation_mark s)
  && negb (JsString.includes "&" s)
  && negb (JsString.includes null_character s)
  && negb (JsString.includes carriage_return s).

(** Markup that parses into the elements the template shows, with
    [data-filename] as written: the preview URL cannot end its attribute,
    the name cannot open a tag where it stands as text, and the download
    name is given back unchanged.  The other interpolated strings are inert
    whatever their values: numbers and units ([formatBytes], the width, the
    reduction), two constant class lists, and a blob URL, which is made of
    [blob:], an origin and a UUID. *)
Definition markup_inert (card : Card) : bool :=
  negb (JsString.includes quotation_mark (card_preview card))
  && negb (JsString.includes "<" (card_name card))
  && attribute_safe (card_fileName card).

(** Lines 239-269: [card.innerHTML = ...] followed by
    [card.querySelector('.download-btn')], with what that button's two
    attributes hold.  Inert markup is read here; any other is the
    browser's to parse. *)
Definition downloadButton (env : Browser) (card : Card) : option Download :=
  if markup_inert card
  then Some (mkDownload (Some (card_downloadBlob card)) (card_fileName card))
  else parseCard env card.

(** The element [createResultCard] returns, and its deep copies: its
    classes, the values its markup was written from, and what the click
    listener of its download button reads ([None]: the button has no
    listener). *)
Record CardElement := mkCardElement {
  element_classList : list string;
  element_markup : Card;
  element_listener : option Download
}.

(** Lines 211-286.  When the parsed markup holds no download button,
    line 270 calls [addEventListener] on [null] and throws. *)
Definition createResultCard (env : Browser) (originalFile : File) (finalDataUrl : string)
    (finalSize : Z) (finalBlob : Blob) : Completion CardElement :=
  let card := cardMarkup originalFile finalDataUrl finalSize finalBlob in
  match downloadButton env card with
  | None => Throws (nullMessage env)
  | Some download =>
      Returns (mkCardElement
                 ["result-card"; "glass-card"; "p-6"; "transition"; "duration-300";
                  "hover:scale-[1.03]"]%string
                 card (Some download))
  end.

(** [element.cloneNode(true)]: attributes and descendants are copied, event
    listeners are not. *)
Definition cloneNode (element : CardElement) : CardElement :=
  mkCardElement (element_classList element) (element_markup element) None.

(** Lines 343-344: the card put into the mobile carousel. *)
Definition mobileCard (desktopCard : CardElement) : CardElement :=
  let clone := cloneNode desktopCard in
  mkCardElement
    (ClassList.add ["mobile-carousel-card"; "w-full"]%string (element_classList clone))
    (element_markup clone) (element_listener clone).

(* ===================================================================== *)
(** ** [processFiles] *)
(* ===================================================================== *)

Inductive ToastType := success | error.

(** What [processFiles] does to the page, in program order.  [Compress]
    is the awaited call of [compressImage], with the work it asked of the
    browser; [AppendCards] appends the card to the results container and
    its clone to the mobile carousel. *)
Inductive Effect :=
  | ClearResults
  | SetResultsHidden (hidden : bool)
  | SetProgressHidden (hidden : bool)
  | SetFileCount (n : nat)
  | Compress (file : File) (work : list Step)
  | AppendCards (card : CardElement)
  | SetProgressWidth (percent : JsNumber.number)
  | ConsoleError (name message : string)
  | ShowToast (message : string) (type : ToastType)
  | ScrollToResults.

(** Line 319: the filter predicate. *)
Definition supported (file : File) : bool :=
  String.eqb (file_type file) "image/jpeg"
  || String.eqb (file_type file) "image/png"
  || String.eqb (file_type file) "image/webp".

(** Lines 351 and 356: [(completedCount / supportedFiles.length) * 100]. *)
Definition progressWidth (completedCount total : nat) : JsNumber.number :=
  JsNumber.mul (JsNumber.div (JsNumber.of_Z (Z.of_nat completedCount))
                             (JsNumber.of_Z (Z.of_nat total)))
               JsNumber.lit_100.

(** Lines 335-364, from the file at the head of [files] on.  The boolean
    tells whether the function ran to its end; it is [false] when an
    awaited promise stays pending, which leaves the function suspended at
    that [await].  The [catch] of line 352 receives the rejection of the
    awaited promise as well as what [createResultCard] throws. *)
Fixpoint processLoop (env : Browser) (total : nat) (files : list File)
    (completedCount : nat) : list Effect * bool :=
  match files with
  | [] =>
      ([SetProgressHidden true;
        ShowToast ("Batch compression complete! " ++ JsString.of_nat completedCount
                   ++ " images ready for download.")%string success;
        ScrollToResults], true)
  | file :: rest =>
      let '(work, promise) := compressImage env file in
      let caught (message : string) :=
        let completedCount := S completedCount in
        let '(effects, finished) := processLoop env total rest completedCount in
        (Compress file work :: ConsoleError (file_name file) message
           :: ShowToast ("Compression failed for " ++ file_name file
                         ++ ". Error: " ++ message)%string error
           :: SetProgressWidth (progressWidth completedCount total) :: effects, finished) in
      match promise with
      | Resolved r =>
          match createResultCard env file (compressedDataUrl r) (compressedSize r)
                                 (compressedBlob r) with
          | Returns desktopCard =>
              let completedCount := S completedCount in
              let '(effects, finished) := processLoop env total rest completedCount in
              (Compress file work :: AppendCards desktopCard
                 :: SetProgressWidth (progressWidth completedCount total) :: effects, finished)
          | Throws message => caught message
          end
      | Rejected message => caught message
      | Pending => ([Compress file work], false)
      end
  end.

Definition processFiles (env : Browser) (files : list File) : list Effect * bool :=
  let supportedFiles := filter supported files in
  let reset := [ClearResults; SetResultsHidden true] in
  if (List.length supportedFiles =? 0)%nat then
    if (0 <? List.length files)%nat then
      (reset ++ [ShowToast "None of the selected files are supported (JPG, PNG, WebP)."%string
                           error], true)
    else (reset, true)
  else
    let '(effects, finished) :=
      processLoop env (List.length supportedFiles) supportedFiles 0 in
    (reset ++ [SetResultsHidden false; SetProgressHidden false;
               SetFileCount (List.length supportedFiles)] ++ effects, finished).

(** The part of the page the effects act on.  A toast stands in its
    container as the message and the type [showToast] was called with. *)
Record Page := mkPage {
  resultsContainer : list CardElement;
  mobileResultsCarousel : list CardElement;
  resultsSection_hidden : bool;
  progressIndicator_hidden : bool;
  fileCountSpan : nat;
  progressBar_width : option JsNumber.number;
  toastContainer : list (string * ToastType);
  console : list (string * string)
}.

(** What an effect does to the page at once.  [ShowToast] is the
    [appendChild] of line 100; the toast leaves the page later, by its own
    timers ([ToastTimeout] below). *)
Definition apply_effect (p : Page) (e : Effect) : Page :=
  match e with
  | ClearResults =>
      mkPage [] [] (resultsSection_hidden p) (progressIndicator_hidden p)
             (fileCountSpan p) (progressBar_width p) (toastContainer p) (console p)
  | SetResultsHidden h =>
      mkPage (resultsContainer p) (mobileResultsCarousel p) h (progressIndicator_hidden p)
             (fileCountSpan p) (progressBar_width p) (toastContainer p) (console p)
  | SetProgressHidden h =>
      mkPage (resultsContainer p) (mobileResultsCarousel p) (resultsSection_hidden p) h
             (fileCountSpan p) (progressBar_width p) (toastContainer p) (console p)
  | SetFileCount n =>
      mkPage (resultsContainer p) (mobileResultsCarousel p) (resultsSection_hidden p)
             (progressIndicator_hidden p) n (progressBar_width p) (toastContainer p) (console p)
  | Compress _ _ => p
  | AppendCards card =>
      mkPage (resultsContainer p ++ [card]) (mobileResultsCarousel p ++ [mobileCard card])
             (resultsSection_hidden p) (progressIndicator_hidden p)
             (fileCountSpan p) (progressBar_width p) (toastContainer p) (console p)
  | SetProgressWidth w =>
      mkPage (resultsContainer p) (mobileResultsCarousel p) (resultsSection_hidden p)
             (progressIndicator_hidden p) (fileCountSpan p) (Some w) (toastContainer p)
             (console p)
  | ConsoleError name message =>
      mkPage (resultsContainer p) (mobileResultsCarousel p) (resultsSection_hidden p)
             (progressIndicator_hidden p) (fileCountSpan p) (progressBar_width p)
             (toastContainer p) (console p ++ [(name, message)])
  | ShowToast message type =>
      mkPage (resultsContainer p) (mobileResultsCarousel p) (resultsSection_hidden p)
             (progressIndicator_hidden p) (fileCountSpan p) (progressBar_width p)
             (toastContainer p ++ [(message, type)]) (console p)
  | ScrollToResults => p
  end.

(** The page right after the effects, before any toast has left it. *)
Definition run_effects (p : Page) (effects : list Effect) : Page :=
  fold_left apply_effect effects p.

(** What happens to the page while and after a call runs: the effects of
    the call, and among them, whenever the call is suspended or over, the
    timers of the toasts (lines 109-113).  Every toast stays equally long,
    about 5.3 seconds, so the toast a timer removes is the oldest one still
    there. *)
Inductive PageEvent :=
  | Call (e : Effect)
  | ToastTimeout.

Definition page_step (p : Page) (event : PageEvent) : Page :=
  match event with
  | Call e => apply_effect p e
  | ToastTimeout =>
      mkPage (resultsContainer p) (mobileResultsCarousel p) (resultsSection_hidden p)
             (progressIndicator_hidden p) (fileCountSpan p) (progressBar_width p)
             (tl (toastContainer p)) (console p)
  end.

Definition run_events (p : Page) (events : list PageEvent) : Page :=
  fold_left page_step events p.

(** The effects among the events, in order. *)
Fixpoint calls (events : list PageEvent) : list Effect :=
  match events with
  | [] => []
  | Call e :: rest => e :: calls rest
  | ToastTimeout :: rest => calls rest
  end.

(* ===================================================================== *)
(** ** Rounding, read as arithmetic on integers *)
(* ===================================================================== *)

(** Vocabulary for the proofs about [JsNumber]: where the fraction [N / D]
    lies between two integers, as the rounding functions are told. *)
Module Rounding.

Definition loc_of (N D : Z) : location :=
  if N mod D =? 0 then loc_Exact else loc_Inexact (2 * (N mod D) ?= D).

(** A shift record stands for the fraction [N / D]: it holds the integer
    part and the position of the rest. *)
Definition represents (mrs : shr_record) (N D : Z) : Prop :=
  shr_m mrs = N / D /\ loc_of_shr_record mrs = loc_of N D.

(** A significand of exactly 53 bits. *)
Definition canonical (m : positive) : Prop := Zpos (digits2_pos m) = 53.

(** The unit roundoff of binary64. *)
Definition u : Q := 1 # 9007199254740992.

End Rounding.

(* ===================================================================== *)
(** ** Reading the effects of a batch *)
(* ===================================================================== *)

(** One entry per completed file: a success is the card appended for it, a
    failure is what [console.error] receives (file name and message). *)
Inductive Entry :=
  | Succeeded (name : string) (card : CardElement)
  | Failed (name message : string).

Fixpoint outcomes (effects : list Effect) : list Entry :=
  match effects with
  | [] => []
  | AppendCards card :: rest =>
      Succeeded (card_name (element_markup card)) card :: outcomes rest
  | ConsoleError name message :: rest => Failed name message :: outcomes rest
  | _ :: rest => outcomes rest
  end.

(** The entry the loop produces for a file whose promise settles: a
    failure when the promise is rejected or the card cannot be built. *)
Definition entry_of (env : Browser) (file : File) : option Entry :=
  match snd (compressImage env file) with
  | Resolved r =>
      match createResultCard env file (compressedDataUrl r) (compressedSize r)
                             (compressedBlob r) with
      | Returns card => Some (Succeeded (file_name file) card)
      | Throws message => Some (Failed (file_name file) message)
      end
  | Rejected message => Some (Failed (file_name file) message)
  | Pending => None
  end.

Definition settles (env : Browser) (file : File) : bool :=
  match snd (compressImage env file) with
  | Pending => false
  | _ => true
  end.

(** The files handed to [compressImage], in order. *)
Fixpoint compressed_files (effects : list Effect) : list File :=
  match effects with
  | [] => []
  | Compress file _ :: rest => file :: compressed_files rest
  | _ :: rest => compressed_files rest
  end.

(** Every width given to the progress bar, paired with the number of files
    completed (card appended or failure logged) before it was set. *)
Fixpoint progress_trace (completed : nat) (effects : list Effect)
    : list (nat * JsNumber.number) :=
  match effects with
  | [] => []
  | AppendCards _ :: rest => progress_trace (S completed) rest
  | ConsoleError _ _ :: rest => progress_trace (S completed) rest
  | SetProgressWidth w :: rest => (completed, w) :: progress_trace completed rest
  | _ :: rest => progress_trace completed rest
  end.

(** The longest prefix of files whose promises all settle. *)
Fixpoint settled_prefix (env : Browser) (files : list File) : list File :=
  match files with
  | [] => []
  | file :: rest => if settles env file then file :: settled_prefix env rest else []
  end.

(** The files the loop reaches: the settled prefix and the file after it. *)
Fixpoint reached (env : Browser) (files : list File) : list File :=
  match files with
  | [] => []
  | file :: rest => if settles env file then file :: reached env rest else [file]
  end.

(** Rejection for an unsupported type before the image is decoded or drawn. *)
Definition rejected_before_decode (env : Browser) (file : File) : Prop :=
  snd (compressImage env file) = Rejected "Unsupported file format."%string
  /\ ~ In DecodeImage (fst (compressImage env file))
  /\ (forall w h, ~ In (DrawImage w h) (fst (compressImage env file))).

(** A percentage rounded to one decimal, in tenths: ties go up, or ties go
    to the even neighbour. *)
Definition tenths_half_up (x : Q) : Z := Qfloor (x * 10 + (1 # 2)).


(** [(1 - final / original) * 100] as a rational. *)
Definition exact_reduction (finalSize originalSize : Z) : Q :=
  ((1 - inject_Z finalSize / inject_Z originalSize) * 100)%Q.

(* ===================================================================== *)
(** ** A sample browser and sample files *)
(* ===================================================================== *)

Module Sample.

Local Open Scope string_scope.

(** The reader fails on the file named [locked.jpg]; a data URL is stood
    for by the file name.  Decoding fails on [corrupt.jpg]; [strip.jpg] is
    1921 x 1 pixels, [wide.jpg] 2148 x 1000, anything else 640 x 480.  The
    encoder always answers with the same four bytes.  Markup that an
    interpolated string may have broken holds no download button. *)
Definition browser : Browser :=
  mkBrowser
    (fun f => if String.eqb (file_name f) "locked.jpg" then None else Some (file_name f))
    (fun url =>
       if String.eqb url "corrupt.jpg" then None
       else if String.eqb url "strip.jpg" then Some (1921, 1)
       else if String.eqb url "wide.jpg" then Some (2148, 1000)
       else Some (640, 480))
    (fun _ mimeType _ => "data:" ++ mimeType ++ ";base64,/9j/4A==")
    (fun _ => None)
    "downloadButton is null".

Definition zeros (n : nat) : list Byte.byte := repeat Byte.x00 n.

Definition photo : File := mkFile "photo.jpg" "image/jpeg" (zeros 10).
Definition tiny : File := mkFile "tiny.jpg" "image/jpeg" (zeros 3).
Definition chart : File := mkFile "chart.png" "image/png" (zeros 80).
Definition corrupt : File := mkFile "corrupt.jpg" "image/jpeg" (zeros 10).
Definition strip : File := mkFile "strip.jpg" "image/jpeg" (zeros 10).
Definition anim : File := mkFile "anim.gif" "image/gif" (zeros 10).
Definition notes : File := mkFile "notes.pdf" "application/pdf" (zeros 10).

(** A page on which an earlier batch left one card. *)
Definition old_card : CardElement :=
  mkCardElement
    ["result-card"; "glass-card"; "p-6"; "transition"; "duration-300"; "hover:scale-[1.03]"]
    (cardMarkup photo "data:image/jpeg;base64,/9j/4A==" 4
       (mkBlob "image/jpeg" [Byte.xff; Byte.xd8; Byte.xff; Byte.xe0]))
    (Some (mkDownload (Some (mkBlob "image/jpeg" [Byte.xff; Byte.xd8; Byte.xff; Byte.xe0]))
                      "photo_compressed.jpg")).

Definition page_with_results : Page :=
  mkPage [old_card] [mobileCard old_card] false true 1 None [] [].

End Sample.

(* ===================================================================== *)
(** ** Data URLs as browsers write them *)
(* ===================================================================== *)

(** [window.btoa], the encoding whose inverse is [window.atob]: three bytes
    give four characters of the alphabet, a final group of two bytes gives
    three characters and one [=], a final single byte two characters and
    [==].  The page never calls it; it is what stands behind the data URLs
    that lines 169-177 take apart. *)
Module DataUrl.

Definition alphabet (v : N) : ascii :=
  (if v <? 26 then ascii_of_N (v + 65)
   else if v <? 52 then ascii_of_N (v + 71)
   else if v <? 62 then ascii_of_N (v - 4)
   else if v =? 62 then "+"%char
   else "/"%char)%N.

Fixpoint btoa (raw : string) : string :=
  match raw with
  | String a (String b (String c rest)) =>
      let w := (N_of_ascii a * 65536 + N_of_ascii b * 256 + N_of_ascii c)%N in
      String (alphabet (w / 262144))
        (String (alphabet ((w / 4096) mod 64))
           (String (alphabet ((w / 64) mod 64))
              (String (alphabet (w mod 64)) (btoa rest))))
  | String a (String b EmptyString) =>
      let w := (N_of_ascii a * 1024 + N_of_ascii b * 4)%N in
      String (alphabet (w / 4096))
        (String (alphabet ((w / 64) mod 64))
           (String (alphabet (w mod 64)) "="))
  | String a EmptyString =>
      let w := (N_of_ascii a * 16)%N in
      String (alphabet (w / 64)) (String (alphabet (w mod 64)) "==")
  | EmptyString => EmptyString
  end.

(** [btoa] in three parts, for the proofs: the sextets of the bytes, their
    characters, and the padding. *)
Fixpoint sextets_of (raw : string) : list N :=
  match raw with
  | String a (String b (String c rest)) =>
      let w := (N_of_ascii a * 65536 + N_of_ascii b * 256 + N_of_ascii c)%N in
      (w / 262144 :: (w / 4096) mod 64 :: (w / 64) mod 64 :: w mod 64 :: sextets_of rest)%N
  | String a (String b EmptyString) =>
      let w := (N_of_ascii a * 1024 + N_of_ascii b * 4)%N in
      [w / 4096; (w / 64) mod 64; w mod 64]%N
  | String a EmptyString =>
      let w := (N_of_ascii a * 16)%N in
      [w / 64; w mod 64]%N
  | EmptyString => []
  end.

Fixpoint chars (l : list N) : string :=
  match l with
  | [] => EmptyString
  | v :: r => String (alphabet v) (chars r)
  end.

Fixpoint padding (raw : string) : string :=
  match raw with
  | String _ (String _ (String _ rest)) => padding rest
  | String _ (String _ EmptyString) => "="
  | String _ EmptyString => "=="
  | EmptyString => EmptyString
  end.

(** The bytes of a blob as the binary string [atob] returns. *)
Definition raw_of_bytes (bytes : list Byte.byte) : string :=
  string_of_list_ascii (map ascii_of_byte bytes).

(** [data:<type>;base64,<payload>]. *)
Definition make (type : string) (bytes : list Byte.byte) : string :=
  ("data:" ++ type ++ ";base64," ++ btoa (raw_of_bytes bytes))%string.

(** No occurrence of the character [c]. *)
Fixpoint free_of (c : ascii) (s : string) : bool :=
  match s with
  | EmptyString => true
  | String x s' => negb (Ascii.eqb x c) && free_of c s'
  end.

End DataUrl.

(* ===================================================================== *)
(** ** More readings of the effects of a batch *)
(* ===================================================================== *)

(** The cards appended, in order. *)
Fixpoint cards_of (effects : list Effect) : list CardElement :=
  match effects with
  | [] => []
  | AppendCards card :: rest => card :: cards_of rest
  | _ :: rest => cards_of rest
  end.

(** The notices shown, in order. *)
Fixpoint notices (effects : list Effect) : list (string * ToastType) :=
  match effects with
  | [] => []
  | ShowToast message type :: rest => (message, type) :: notices rest
  | _ :: rest => notices rest
  end.

(** What [console.error] received, in order. *)
Fixpoint logged (effects : list Effect) : list (string * string) :=
  match effects with
  | [] => []
  | ConsoleError name message :: rest => (name, message) :: logged rest
  | _ :: rest => logged rest
  end.

(** The card of a file that was compressed, the notice of one that failed
    (line 354), the notice that ends a batch (line 361). *)
Definition card_of_entry (e : option Entry) : list CardElement :=
  match e with
  | Some (Succeeded _ card) => [card]
  | _ => []
  end.

Definition notice_of_entry (e : option Entry) : list (string * ToastType) :=
  match e with
  | Some (Failed name message) =>
      [(("Compression failed for " ++ name ++ ". Error: " ++ message)%string, error)]
  | _ => []
  end.

Definition log_of_entry (e : option Entry) : list (string * string) :=
  match e with
  | Some (Failed name message) => [(name, message)]
  | _ => []
  end.

Definition completion_notice (count : nat) : string * ToastType :=
  (("Batch compression complete! " ++ JsString.of_nat count
    ++ " images ready for download.")%string, success).

(* ===================================================================== *)
(** ** The drop area, the FAQ cards and the message box *)
(* ===================================================================== *)

(** Lines 382-405: the listeners that change the classes of the drop area. *)
Inductive DragEvent := dragenter | dragover | dragleave | drop.

Definition dropArea_listener (classes : list string) (e : DragEvent) : list string :=
  match e with
  | dragenter | dragover =>
      ClassList.remove ["border-indigo-300/50"; "scale-[1.00]"]%string
        (ClassList.add ["border-indigo-600/90"; "scale-[1.02]"]%string classes)
  | dragleave | drop =>
      ClassList.add ["border-indigo-300/50"; "scale-[1.00]"]%string
        (ClassList.remove ["border-indigo-600/90"; "scale-[1.02]"]%string classes)
  end.

Definition entering (e : DragEvent) : bool :=
  match e with dragenter | dragover => true | _ => false end.

(** Lines 415-428: a FAQ card, as far as its click listener reads and
    writes it. *)
Record FaqCard := mkFaqCard {
  answer_classList : list string;
  icon_transform : string
}.

Definition faq_click (card : FaqCard) : FaqCard :=
  let answer := ClassList.toggle "hidden" (answer_classList card) in
  mkFaqCard answer
    (if ClassList.contains "hidden" answer then "rotate(0deg)" else "rotate(180deg)")%string.

(** Lines 30-56: the message box.  The two callbacks handed to
    [setTimeout] run later, each after the call that scheduled it. *)
Record MessageBox := mkMessageBox {
  messageTitle : string;
  messageBody : string;
  messageBoxModal : list string;
  messageContent : list string
}.

Inductive BoxEvent :=
  | ShowMessageBox (title content : string)
  | ShownTimer
  | HideMessageBox
  | HiddenTimer.

Definition box_step (box : MessageBox) (e : BoxEvent) : MessageBox :=
  match e with
  | ShowMessageBox title content =>
      mkMessageBox title content
        (ClassList.add ["opacity-100"]%string
           (ClassList.remove ["pointer-events-none"; "opacity-0"]%string
              (messageBoxModal box)))
        (messageContent box)
  | ShownTimer =>
      mkMessageBox (messageTitle box) (messageBody box) (messageBoxModal box)
        (ClassList.remove ["translate-y-4"]%string (messageContent box))
  | HideMessageBox =>
      mkMessageBox (messageTitle box) (messageBody box) (messageBoxModal box)
        (ClassList.add ["translate-y-4"]%string (messageContent box))
  | HiddenTimer =>
      mkMessageBox (messageTitle box) (messageBody box)
        (ClassList.add ["opacity-0"; "pointer-events-none"]%string
           (ClassList.remove ["opacity-100"]%string (messageBoxModal box)))
        (messageContent box)
  end.

(** The effect that empties both result containers. *)
Definition clears (e : Effect) : bool :=
  match e with ClearResults => true | _ => false end.

(** The message box as the user meets it: opaque and open to pointer
    events, or transparent and closed to them. *)
Definition box_visible (box : MessageBox) : bool :=
  ClassList.contains "opacity-100" (messageBoxModal box)
  && negb (ClassList.contains "opacity-0" (messageBoxModal box))
  && negb (ClassList.contains "pointer-events-none" (messageBoxModal box)).

Definition box_hidden (box : MessageBox) : bool :=
  negb (ClassList.contains "opacity-100" (messageBoxModal box))
  && ClassList.contains "opacity-0" (messageBoxModal box)
  && ClassList.contains "pointer-events-none" (messageBoxModal box).

(** Two pages that differ at most in the toasts they show. *)
Definition same_but_toasts (p q : Page) : Prop :=
  resultsContainer p = resultsContainer q
  /\ mobileResultsCarousel p = mobileResultsCarousel q
  /\ resultsSection_hidden p = resultsSection_hidden q
  /\ progressIndicator_hidden p = progressIndicator_hidden q
  /\ fileCountSpan p = fileCountSpan q
  /\ progressBar_width p = progressBar_width q
  /\ console p = console q.

(* ===================================================================== *)
(** * Properties of the pipeline *)
(* ===================================================================== *)

Lemma file_blob_size (file : File) : blob_size (file_blob file) = file_size file.
Proof. reflexivity. Qed.

Lemma supported_encodeSettings (file : File) :
  supported file = true <-> encodeSettings (file_type file) <> None.
Proof.
  unfold supported, encodeSettings.
  destruct (String.eqb (file_type file) "image/jpeg");
    destruct (String.eqb (file_type file) "image/png");
    destruct (String.eqb (file_type file) "image/webp"); simpl;
    split; intros H; try reflexivity; try discriminate; try congruence.
Qed.

Lemma unsupported_encodeSettings (file : File) :
  supported file = false <-> encodeSettings (file_type file) = None.
Proof.
  unfold supported, encodeSettings.
  destruct (String.eqb (file_type file) "image/jpeg");
    destruct (String.eqb (file_type file) "image/png");
    destruct (String.eqb (file_type file) "image/webp"); simpl;
    split; intros H; try reflexivity; try discriminate.
Qed.

(** C1: whenever [compressImage] resolves, the size it reports is at most
    the byte size of the source file, and it is the size of the blob it
    returns. *)
Theorem compressed_size_le_original (env : Browser) (file : File)
    (work : list Step) (r : Compressed) :
  compressImage env file = (work, Resolved r) ->
  compressedSize r <= file_size file
  /\ blob_size (compressedBlob r) = compressedSize r.
Proof.
  unfold compressImage.
  destruct (readAsDataURL env file) as [url|]; [|discriminate].
  destruct (loadImage env url) as [[w h]|]; [|discriminate].
  destruct (canvasSize w h) as [cw ch].
  destruct (encodeSettings (file_type file)) as [[m q]|]; [|discriminate].
  destruct (dataUrlToBlob _) as [b|]; [|discriminate].
  destruct (blob_size b >=? file_size file) eqn:E; intros H; inversion H; subst; simpl.
  - split; [lia | reflexivity].
  - split; [lia | reflexivity].
Qed.

Lemma compressed_size_le_original_witness :
  exists work r,
    compressImage Sample.browser Sample.photo = (work, Resolved r)
    /\ compressedSize r <= file_size Sample.photo
    /\ blob_size (compressedBlob r) = compressedSize r.
Proof.
  eexists. eexists. split; [reflexivity|].
  apply (compressed_size_le_original Sample.browser Sample.photo _ _ eq_refl).
Defined.

(** C2: when the file is read, decoded and re-encoded into a blob, a blob
    at least as large as the original makes [compressImage] resolve with
    the original bytes, media type, byte length and data URL, and a
    strictly smaller blob makes it resolve with the re-encoded data URL,
    blob and byte length. *)
Theorem fallback_or_reencoded (env : Browser) (file : File) (originalDataUrl : string)
    (width height : Z) (mimeType : string) (quality : JsNumber.number) (b : Blob) :
  readAsDataURL env file = Some originalDataUrl ->
  loadImage env originalDataUrl = Some (width, height) ->
  encodeSettings (file_type file) = Some (mimeType, quality) ->
  dataUrlToBlob
    (toDataURL env (mkCanvas (fst (canvasSize width height)) (snd (canvasSize width height))
                             originalDataUrl) mimeType quality) = Some b ->
  exists r,
    snd (compressImage env file) = Resolved r
    /\ (blob_size b >= file_size file ->
        blob_bytes (compressedBlob r) = file_bytes file
        /\ blob_type (compressedBlob r) = file_type file
        /\ compressedSize r = file_size file
        /\ compressedDataUrl r = originalDataUrl)
    /\ (blob_size b < file_size file ->
        compressedBlob r = b
        /\ compressedSize r = blob_size b
        /\ compressedDataUrl r =
             toDataURL env (mkCanvas (fst (canvasSize width height))
                                     (snd (canvasSize width height)) originalDataUrl)
                       mimeType quality).
Proof.
  intros Hread Hload Hset Hblob.
  unfold compressImage. rewrite Hread, Hload.
  destruct (canvasSize width height) as [cw ch] eqn:Hsize. simpl in Hblob.
  rewrite Hset, Hblob.
  destruct (blob_size b >=? file_size file) eqn:E; simpl.
  - eexists. split; [reflexivity|]. split; intros H; simpl.
    + repeat split.
    + apply Z.geb_le in E. lia.
  - eexists. split; [reflexivity|]. split; intros H; simpl.
    + rewrite Z.geb_leb in E. apply Z.leb_gt in E. lia.
    + repeat split.
Qed.

Lemma fallback_or_reencoded_witness :
  exists r,
    snd (compressImage Sample.browser Sample.tiny) = Resolved r
    /\ blob_bytes (compressedBlob r) = file_bytes Sample.tiny
    /\ compressedSize r = file_size Sample.tiny.
Proof.
  destruct (fallback_or_reencoded Sample.browser Sample.tiny "tiny.jpg" 640 480
              "image/jpeg" JsNumber.lit_0_25
              (mkBlob "image/jpeg" [Byte.xff; Byte.xd8; Byte.xff; Byte.xe0])
              eq_refl eq_refl eq_refl eq_refl) as [r [Hr [Hge _]]].
  exists r. split; [exact Hr|].
  destruct (Hge ltac:(vm_compute; discriminate)) as [Hb [_ [Hs _]]].
  split; assumption.
Defined.

(** C4, as stated, fails: a file of an unsupported type is read, decoded
    and drawn before it is rejected, and one that does not decode is
    rejected with the decoding error. *)
Lemma unsupported_checked_after_draw :
  supported Sample.anim = false
  /\ compressImage Sample.browser Sample.anim
     = ([ReadFile; DecodeImage; DrawImage 640 480],
        Rejected "Unsupported file format."%string)
  /\ ~ rejected_before_decode Sample.browser Sample.anim
  /\ supported (mkFile "corrupt.jpg" "image/gif" []) = false
  /\ snd (compressImage Sample.browser (mkFile "corrupt.jpg" "image/gif" []))
     = Rejected "Failed to load image."%string.
Proof.
  split; [reflexivity|]. split; [reflexivity|]. split; [|split; reflexivity].
  intros [_ [Hno _]]. apply Hno. vm_compute. right. left. reflexivity.
Qed.

(** C4, amended: a file of an unsupported type never makes [compressImage]
    resolve or reach the encoder.  It is rejected with the reader's error
    when it cannot be read, with the decoding error when it cannot be
    decoded, and otherwise with the unsupported-format error, after the
    image has been decoded and drawn on the canvas. *)
Theorem unsupported_rejected (env : Browser) (file : File) :
  supported file = false ->
  (exists message, snd (compressImage env file) = Rejected message)
  /\ (forall mimeType quality,
        ~ In (EncodeCanvas mimeType quality) (fst (compressImage env file)))
  /\ (readAsDataURL env file = None ->
      compressImage env file = ([ReadFile], Rejected "Failed to read file."%string))
  /\ (forall url, readAsDataURL env file = Some url -> loadImage env url = None ->
      compressImage env file
      = ([ReadFile; DecodeImage], Rejected "Failed to load image."%string))
  /\ (forall url width height,
        readAsDataURL env file = Some url -> loadImage env url = Some (width, height) ->
        compressImage env file
        = ([ReadFile; DecodeImage;
            DrawImage (fst (canvasSize width height)) (snd (canvasSize width height))],
           Rejected "Unsupported file format."%string)).
Proof.
  intros Hun. apply unsupported_encodeSettings in Hun.
  unfold compressImage. rewrite Hun.
  destruct (readAsDataURL env file) as [url|] eqn:Hread.
  - destruct (loadImage env url) as [[w h]|] eqn:Hload.
    + destruct (canvasSize w h) as [cw ch] eqn:Hsize. simpl.
      split; [eexists; reflexivity|].
      split; [intros m q [H|[H|[H|[]]]]; discriminate|].
      split; [discriminate|].
      split; [intros u Hu; inversion Hu; subst; rewrite Hload; discriminate|].
      intros u w' h' Hu. inversion Hu; subst. rewrite Hload.
      intros Hwh. inversion Hwh; subst. rewrite Hsize. reflexivity.
    + simpl. split; [eexists; reflexivity|].
      split; [intros m q [H|[H|[]]]; discriminate|].
      split; [discriminate|].
      split; [reflexivity|].
      intros u w' h' Hu. inversion Hu; subst. rewrite Hload. discriminate.
  - simpl. split; [eexists; reflexivity|].
    split; [intros m q [H|[]]; discriminate|].
    split; [reflexivity|].
    split; intros; discriminate.
Qed.

Lemma unsupported_rejected_witness :
  exists message, snd (compressImage Sample.browser Sample.anim) = Rejected message.
Proof.
  exact (proj1 (unsupported_rejected Sample.browser Sample.anim eq_refl)).
Defined.

(** C6: a file of one of the three supported types that is read and
    decoded is encoded exactly once, by [canvas.toDataURL] with quality
    0.25 and with type image/jpeg for an image/jpeg file, image/webp for an
    image/png or image/webp file; what [compressImage] returns is decided
    by the data URL of that call alone. *)
Theorem encode_settings_by_type (env : Browser) (file : File) (url : string)
    (width height : Z) :
  readAsDataURL env file = Some url ->
  loadImage env url = Some (width, height) ->
  (file_type file = "image/jpeg" \/ file_type file = "image/png"
   \/ file_type file = "image/webp")%string ->
  exists mimeType,
    ((file_type file = "image/jpeg" /\ mimeType = "image/jpeg")
     \/ (file_type file = "image/png" /\ mimeType = "image/webp")
     \/ (file_type file = "image/webp" /\ mimeType = "image/webp"))%string
    /\ (JsNumber.value JsNumber.lit_0_25 == 1 # 4)%Q
    /\ let canvas :=
         mkCanvas (fst (canvasSize width height)) (snd (canvasSize width height)) url in
       let encoded := toDataURL env canvas mimeType JsNumber.lit_0_25 in
       fst (compressImage env file)
       = [ReadFile; DecodeImage; DrawImage (canvas_width canvas) (canvas_height canvas);
          EncodeCanvas mimeType JsNumber.lit_0_25]
       /\ (dataUrlToBlob encoded = None -> snd (compressImage env file) = Pending)
       /\ (forall b, dataUrlToBlob encoded = Some b ->
             snd (compressImage env file)
             = Resolved (if blob_size b >=? file_size file
                         then mkCompressed url (file_blob file) (file_size file)
                         else mkCompressed encoded b (blob_size b))).
Proof.
  intros Hread Hload Htype.
  assert (Hset : exists mimeType,
             encodeSettings (file_type file) = Some (mimeType, JsNumber.lit_0_25)
             /\ ((file_type file = "image/jpeg" /\ mimeType = "image/jpeg")
                 \/ (file_type file = "image/png" /\ mimeType = "image/webp")
                 \/ (file_type file = "image/webp" /\ mimeType = "image/webp"))%string).
  { unfold encodeSettings. destruct Htype as [E|[E|E]]; rewrite E; cbn; eauto 10. }
  destruct Hset as [mimeType [Hset Hmime]].
  exists mimeType. split; [exact Hmime|]. split; [reflexivity|]. cbv zeta.
  unfold compressImage. rewrite Hread, Hload.
  destruct (canvasSize width height) as [cw ch]. cbn [fst snd canvas_width canvas_height].
  rewrite Hset.
  destruct (dataUrlToBlob (toDataURL env (mkCanvas cw ch url) mimeType JsNumber.lit_0_25))
    as [b|] eqn:Hb.
  - destruct (blob_size b >=? file_size file) eqn:Hcmp; cbn [fst snd];
      (split; [reflexivity|]); (split; [discriminate|]);
      intros b' Hb'; inversion Hb'; subst b'; rewrite Hcmp; reflexivity.
  - cbn [fst snd]. split; [reflexivity|]. split; [reflexivity|]. discriminate.
Qed.

Lemma encode_settings_by_type_witness :
  fst (compressImage Sample.browser Sample.photo)
  = [ReadFile; DecodeImage; DrawImage 640 480;
     EncodeCanvas "image/jpeg"%string JsNumber.lit_0_25]
  /\ fst (compressImage Sample.browser Sample.chart)
     = [ReadFile; DecodeImage; DrawImage 640 480;
        EncodeCanvas "image/webp"%string JsNumber.lit_0_25]
  /\ fst (compressImage Sample.browser
            (mkFile "logo.webp" "image/webp" (Sample.zeros 10)))
     = [ReadFile; DecodeImage; DrawImage 640 480;
        EncodeCanvas "image/webp"%string JsNumber.lit_0_25]
  /\ snd (compressImage Sample.browser Sample.chart)
     = Resolved (mkCompressed "data:image/webp;base64,/9j/4A=="
                   (mkBlob "image/webp" [Byte.xff; Byte.xd8; Byte.xff; Byte.xe0]) 4).
Proof.
  destruct (encode_settings_by_type Sample.browser Sample.photo "photo.jpg" 640 480
              eq_refl eq_refl (or_introl eq_refl))
    as [m1 [[[_ ->]|[[H _]|[H _]]] [_ [L1 _]]]]; try discriminate H.
  destruct (encode_settings_by_type Sample.browser Sample.chart "chart.png" 640 480
              eq_refl eq_refl (or_intror (or_introl eq_refl)))
    as [m2 [[[H _]|[[_ ->]|[H _]]] [_ [L2 [_ R2]]]]]; try discriminate H.
  destruct (encode_settings_by_type Sample.browser
              (mkFile "logo.webp" "image/webp" (Sample.zeros 10)) "logo.webp" 640 480
              eq_refl eq_refl (or_intror (or_intror eq_refl)))
    as [m3 [[[H _]|[[H _]|[_ ->]]] [_ [L3 _]]]]; try discriminate H.
  split; [exact L1|]. split; [exact L2|]. split; [exact L3|].
  rewrite (R2 (mkBlob "image/webp" [Byte.xff; Byte.xd8; Byte.xff; Byte.xe0]) eq_refl).
  reflexivity.
Defined.

(* ===================================================================== *)
(** * Properties of the batch loop *)
(* ===================================================================== *)

Lemma supported_iff (file : File) :
  supported file = true
  <-> (file_type file = "image/jpeg" \/ file_type file = "image/png"
       \/ file_type file = "image/webp")%string.
Proof.
  unfold supported. rewrite !Bool.orb_true_iff, !String.eqb_eq. tauto.
Qed.

Lemma supported_not_rejected_as_unsupported (env : Browser) (file : File) :
  supported file = true ->
  snd (compressImage env file) <> Rejected "Unsupported file format."%string.
Proof.
  intros Hs. apply supported_encodeSettings in Hs. unfold compressImage.
  destruct (readAsDataURL env file) as [url|]; [|simpl; discriminate].
  destruct (loadImage env url) as [[w h]|]; [|simpl; discriminate].
  destruct (canvasSize w h) as [cw ch].
  destruct (encodeSettings (file_type file)) as [[m q]|]; [|contradiction].
  destruct (dataUrlToBlob _) as [b|]; [|simpl; discriminate].
  destruct (blob_size b >=? file_size file); simpl; discriminate.
Qed.

Lemma cardMarkup_name (file : File) (url : string) (size : Z) (blob : Blob) :
  card_name (cardMarkup file url size blob) = file_name file.
Proof.
  unfold cardMarkup. destruct (size <? file_size file); reflexivity.
Qed.

Lemma createResultCard_markup (env : Browser) (file : File) (url : string) (size : Z)
    (blob : Blob) (card : CardElement) :
  createResultCard env file url size blob = Returns card ->
  element_markup card = cardMarkup file url size blob.
Proof.
  unfold createResultCard. destruct (downloadButton env _); intros H; inversion H.
  reflexivity.
Qed.

(** The three ways a turn of the loop can go, read off [entry_of]. *)
Lemma settles_entry (env : Browser) (file : File) :
  settles env file = match entry_of env file with Some _ => true | None => false end.
Proof.
  unfold settles, entry_of. destruct (snd (compressImage env file)); try reflexivity.
  destruct (createResultCard env file _ _ _); reflexivity.
Qed.

Lemma entry_of_succeeded (env : Browser) (file : File) (name : string) (card : CardElement) :
  entry_of env file = Some (Succeeded name card) ->
  name = file_name file /\ card_name (element_markup card) = file_name file.
Proof.
  unfold entry_of. destruct (snd (compressImage env file)) as [r|m|]; try discriminate.
  destruct (createResultCard env file _ _ _) as [c|m] eqn:E; intros H; inversion H; subst.
  split; [reflexivity|].
  rewrite (createResultCard_markup _ _ _ _ _ _ E). apply cardMarkup_name.
Qed.

Lemma entry_of_failed (env : Browser) (file : File) (name message : string) :
  entry_of env file = Some (Failed name message) -> name = file_name file.
Proof.
  unfold entry_of. destruct (snd (compressImage env file)) as [r|m|]; try discriminate.
  - destruct (createResultCard env file _ _ _); intros H; inversion H; reflexivity.
  - intros H; inversion H; reflexivity.
Qed.

Section Loop.

Variable env : Browser.
Variable total : nat.

(** One turn of the loop, case by case. *)
Lemma processLoop_card file rest c name card :
  entry_of env file = Some (Succeeded name card) ->
  processLoop env total (file :: rest) c
  = (Compress file (fst (compressImage env file))
       :: AppendCards card
       :: SetProgressWidth (progressWidth (S c) total)
       :: fst (processLoop env total rest (S c)),
     snd (processLoop env total rest (S c))).
Proof.
  unfold entry_of. cbn [processLoop].
  destruct (compressImage env file) as [work p]. cbn [fst snd].
  destruct p as [r|m|]; try discriminate.
  destruct (createResultCard env file _ _ _) as [d|m]; intros H; inversion H; subst.
  destruct (processLoop env total rest (S c)). reflexivity.
Qed.

Lemma processLoop_failed file rest c name message :
  entry_of env file = Some (Failed name message) ->
  processLoop env total (file :: rest) c
  = (Compress file (fst (compressImage env file))
       :: ConsoleError (file_name file) message
       :: ShowToast ("Compression failed for " ++ file_name file
                     ++ ". Error: " ++ message)%string error
       :: SetProgressWidth (progressWidth (S c) total)
       :: fst (processLoop env total rest (S c)),
     snd (processLoop env total rest (S c))).
Proof.
  unfold entry_of. cbn [processLoop].
  destruct (compressImage env file) as [work p]. cbn [fst snd].
  destruct p as [r|m|]; try discriminate.
  - destruct (createResultCard env file _ _ _) as [d|m]; intros H; inversion H; subst.
    destruct (processLoop env total rest (S c)). reflexivity.
  - intros H; inversion H; subst.
    destruct (processLoop env total rest (S c)). reflexivity.
Qed.

Lemma processLoop_pending file rest c :
  entry_of env file = None ->
  processLoop env total (file :: rest) c
  = ([Compress file (fst (compressImage env file))], false).
Proof.
  unfold entry_of. cbn [processLoop].
  destruct (compressImage env file) as [work p]. cbn [fst snd].
  destruct p as [r|m|]; try discriminate; [|reflexivity].
  destruct (createResultCard env file _ _ _); discriminate.
Qed.

(** Case analysis on the first file. *)
Ltac first_file file rest c :=
  let n := fresh "n" in
  let card := fresh "card" in
  let message := fresh "message" in
  let E := fresh "E" in
  rewrite ?(settles_entry env file);
  destruct (entry_of env file) as [[n card|n message]|] eqn:E;
  [ rewrite (processLoop_card file rest c n card E)
  | rewrite (processLoop_failed file rest c n message E)
  | rewrite (processLoop_pending file rest c E) ].

Lemma processLoop_compress files : forall c file work,
  In (Compress file work) (fst (processLoop env total files c)) ->
  In file files /\ work = fst (compressImage env file).
Proof.
  induction files as [|f rest IH]; intros c file work.
  - simpl. intros [H|[H|[H|[]]]]; discriminate.
  - first_file f rest c; cbn [fst In].
    + intros [H|[H|[H|H]]]; try discriminate.
      * inversion H; subst. auto.
      * destruct (IH _ _ _ H). auto.
    + intros [H|[H|[H|[H|H]]]]; try discriminate.
      * inversion H; subst. auto.
      * destruct (IH _ _ _ H). auto.
    + intros [H|[]]. inversion H; subst. auto.
Qed.

Lemma processLoop_compressed_files files : forall c,
  compressed_files (fst (processLoop env total files c)) = reached env files.
Proof.
  induction files as [|f rest IH]; intros c; [reflexivity|].
  cbn [reached].
  first_file f rest c; cbn [fst compressed_files]; try rewrite IH; reflexivity.
Qed.

Lemma processLoop_finished files : forall c,
  snd (processLoop env total files c) = forallb (settles env) files.
Proof.
  induction files as [|f rest IH]; intros c; [reflexivity|].
  cbn [forallb].
  first_file f rest c; cbn [snd andb]; try rewrite IH; reflexivity.
Qed.

Lemma processLoop_outcomes files : forall c,
  map Some (outcomes (fst (processLoop env total files c)))
  = map (entry_of env) (settled_prefix env files).
Proof.
  induction files as [|f rest IH]; intros c; [reflexivity|].
  cbn [settled_prefix].
  first_file f rest c; cbn [snd fst outcomes map]; [| |reflexivity]; rewrite IH, E.
  - destruct (entry_of_succeeded _ _ _ _ E) as [-> ->]. reflexivity.
  - rewrite (entry_of_failed _ _ _ _ E). reflexivity.
Qed.

Lemma processLoop_progress files : forall c,
  progress_trace c (fst (processLoop env total files c))
  = map (fun k => (k, progressWidth k total))
        (seq (S c) (List.length (settled_prefix env files))).
Proof.
  induction files as [|f rest IH]; intros c; [reflexivity|].
  cbn [settled_prefix].
  first_file f rest c; cbn [fst progress_trace List.length seq map]; try rewrite IH;
    reflexivity.
Qed.

End Loop.

Lemma settled_prefix_all (env : Browser) (files : list File) :
  forallb (settles env) files = true -> settled_prefix env files = files.
Proof.
  induction files as [|f rest IH]; simpl; [reflexivity|].
  destruct (settles env f); simpl; [|discriminate].
  intros H. rewrite IH; auto.
Qed.

Lemma reached_all (env : Browser) (files : list File) :
  forallb (settles env) files = true -> reached env files = files.
Proof.
  induction files as [|f rest IH]; simpl; [reflexivity|].
  destruct (settles env f); simpl; [|discriminate].
  intros H. rewrite IH; auto.
Qed.

Lemma settled_prefix_length (env : Browser) (files : list File) :
  (List.length (settled_prefix env files) <= List.length files)%nat.
Proof.
  induction files as [|f rest IH]; simpl; [lia|].
  destruct (settles env f); simpl; lia.
Qed.

(** The three shapes of a run of [processFiles]. *)
Lemma processFiles_empty (env : Browser) :
  processFiles env [] = ([ClearResults; SetResultsHidden true], true).
Proof. reflexivity. Qed.

Lemma processFiles_none_supported (env : Browser) (files : list File) :
  filter supported files = [] -> files <> [] ->
  processFiles env files
  = ([ClearResults; SetResultsHidden true;
      ShowToast "None of the selected files are supported (JPG, PNG, WebP)."%string error],
     true).
Proof.
  intros Hnone Hne. unfold processFiles. rewrite Hnone. simpl.
  destruct files; [contradiction|reflexivity].
Qed.

Lemma processFiles_some_supported (env : Browser) (files : list File) :
  filter supported files <> [] ->
  processFiles env files
  = ([ClearResults; SetResultsHidden true; SetResultsHidden false;
      SetProgressHidden false; SetFileCount (List.length (filter supported files))]
       ++ fst (processLoop env (List.length (filter supported files))
                           (filter supported files) 0),
     snd (processLoop env (List.length (filter supported files))
                      (filter supported files) 0)).
Proof.
  intros Hsome. unfold processFiles.
  destruct (filter supported files) as [|f l] eqn:E; [contradiction|].
  change (List.length (f :: l) =? 0)%nat with false. cbv iota.
  destruct (processLoop env (List.length (f :: l)) (f :: l) 0). reflexivity.
Qed.

(** When every accepted file's promise settles, the batch runs to its end
    and leaves exactly one entry per accepted file, in input order: the
    card of a file that was compressed, the name and message of one that
    failed. *)
Lemma failures_isolated_when_settled (env : Browser) (files : list File) :
  forallb (settles env) (filter supported files) = true ->
  snd (processFiles env files) = true
  /\ map Some (outcomes (fst (processFiles env files)))
     = map (entry_of env) (filter supported files)
  /\ compressed_files (fst (processFiles env files)) = filter supported files.
Proof.
  intros Hall.
  destruct (filter supported files) as [|f l] eqn:E.
  - destruct files as [|g rest].
    + repeat split.
    + rewrite processFiles_none_supported by (auto; discriminate). repeat split.
  - rewrite processFiles_some_supported by (rewrite E; discriminate).
    rewrite E. cbn [fst snd]. cbn [app outcomes compressed_files].
    rewrite processLoop_finished, processLoop_outcomes, processLoop_compressed_files.
    rewrite settled_prefix_all, reached_all by assumption. auto.
Qed.

(** C5 at a failing batch: the first file fails to decode and is recorded,
    the second is an image of 1921 x 1 pixels, whose canvas has height 0;
    [toDataURL] then answers [data:,], [atob] throws inside the [onload]
    handler, the promise stays pending, and the batch stops there: one
    entry for three accepted files, the third never handed to
    [compressImage], no completion. *)
Theorem batch_stalls_on_strip_image :
  filter supported [Sample.corrupt; Sample.strip; Sample.photo]
  = [Sample.corrupt; Sample.strip; Sample.photo]
  /\ compressImage Sample.browser Sample.strip
     = ([ReadFile; DecodeImage; DrawImage 1920 0;
         EncodeCanvas "image/jpeg"%string JsNumber.lit_0_25], Pending)
  /\ snd (processFiles Sample.browser [Sample.corrupt; Sample.strip; Sample.photo]) = false
  /\ outcomes (fst (processFiles Sample.browser [Sample.corrupt; Sample.strip; Sample.photo]))
     = [Failed "corrupt.jpg"%string "Failed to load image."%string]
  /\ compressed_files
       (fst (processFiles Sample.browser [Sample.corrupt; Sample.strip; Sample.photo]))
     = [Sample.corrupt; Sample.strip]
  /\ progressIndicator_hidden
       (run_effects Sample.page_with_results
          (fst (processFiles Sample.browser [Sample.corrupt; Sample.strip; Sample.photo])))
     = false
  /\ toastContainer
       (run_effects Sample.page_with_results
          (fst (processFiles Sample.browser [Sample.corrupt; Sample.strip; Sample.photo])))
     = [("Compression failed for corrupt.jpg. Error: Failed to load image."%string, error)].
Proof. repeat split; vm_compute; reflexivity. Qed.

(** C7, as stated, fails on the empty input: the call is not without
    effect, it removes the cards an earlier batch left on the page. *)
Lemma empty_input_clears_results :
  resultsContainer Sample.page_with_results = [Sample.old_card]
  /\ resultsContainer
       (run_effects Sample.page_with_results (fst (processFiles Sample.browser []))) = []
  /\ run_effects Sample.page_with_results (fst (processFiles Sample.browser []))
     <> Sample.page_with_results.
Proof.
  split; [reflexivity|]. split; [reflexivity|]. vm_compute. discriminate.
Qed.

(** C7, amended: only files of the three supported types are handed to
    [compressImage], in input order, all of them when every promise
    settles.  When no file is supported and the input is not empty, the
    call shows one error notice and hands nothing to [compressImage]; on
    the empty input it shows no notice and does nothing but the reset that
    opens every call (results cleared, results section hidden). *)
Theorem filtering_and_empty_batches (env : Browser) (files : list File) :
  (forall file, In file (filter supported files)
                <-> In file files
                    /\ (file_type file = "image/jpeg" \/ file_type file = "image/png"
                        \/ file_type file = "image/webp")%string)
  /\ (forall file work, In (Compress file work) (fst (processFiles env files)) ->
        In file (filter supported files))
  /\ compressed_files (fst (processFiles env files)) = reached env (filter supported files)
  /\ (filter supported files = [] -> files <> [] ->
      processFiles env files
      = ([ClearResults; SetResultsHidden true;
          ShowToast "None of the selected files are supported (JPG, PNG, WebP)."%string
                    error], true))
  /\ (files = [] -> processFiles env files = ([ClearResults; SetResultsHidden true], true)).
Proof.
  split; [intros file; rewrite filter_In, supported_iff; tauto|].
  split; [|split; [|split]].
  - intros file work.
    destruct (filter supported files) as [|f l] eqn:E.
    + destruct files as [|g rest].
      * simpl. intros [H|[H|[]]]; discriminate.
      * rewrite processFiles_none_supported by (auto; discriminate).
        simpl. intros [H|[H|[H|[]]]]; discriminate.
    + rewrite processFiles_some_supported by (rewrite E; discriminate).
      rewrite E. cbn [fst]. intros [H|[H|[H|[H|[H|H]]]]]; try discriminate.
      apply processLoop_compress in H. tauto.
  - destruct (filter supported files) as [|f l] eqn:E.
    + destruct files as [|g rest]; [reflexivity|].
      rewrite processFiles_none_supported by (auto; discriminate). reflexivity.
    + rewrite processFiles_some_supported by (rewrite E; discriminate).
      rewrite E. cbn [fst app compressed_files].
      apply processLoop_compressed_files.
  - apply processFiles_none_supported.
  - intros ->. reflexivity.
Qed.

(** C10: every file [processFiles] hands to [compressImage] has one of the
    three supported types, so that call is never rejected as an
    unsupported format. *)
Theorem orchestrator_never_hits_unsupported (env : Browser) (files : list File)
    (file : File) (work : list Step) :
  In (Compress file work) (fst (processFiles env files)) ->
  In file files
  /\ (file_type file = "image/jpeg" \/ file_type file = "image/png"
      \/ file_type file = "image/webp")%string
  /\ encodeSettings (file_type file) <> None
  /\ work = fst (compressImage env file)
  /\ snd (compressImage env file) <> Rejected "Unsupported file format."%string.
Proof.
  intros Hin.
  assert (Hf : In file (filter supported files) /\ work = fst (compressImage env file)).
  { destruct (filter supported files) as [|f l] eqn:E.
    - exfalso. revert Hin. destruct files as [|g rest].
      + simpl. intros [H|[H|[]]]; discriminate.
      + rewrite processFiles_none_supported by (auto; discriminate).
        simpl. intros [H|[H|[H|[]]]]; discriminate.
    - revert Hin. rewrite processFiles_some_supported by (rewrite E; discriminate).
      rewrite E. cbn [fst]. intros [H|[H|[H|[H|[H|H]]]]]; try discriminate.
      now apply processLoop_compress in H. }
  destruct Hf as [Hf Hw]. apply filter_In in Hf. destruct Hf as [Hin' Hs].
  split; [assumption|]. split; [now apply supported_iff|].
  split; [now apply supported_encodeSettings|].
  split; [assumption|]. now apply supported_not_rejected_as_unsupported.
Qed.

Lemma orchestrator_never_hits_unsupported_witness :
  In Sample.chart [Sample.notes; Sample.chart]
  /\ snd (compressImage Sample.browser Sample.chart)
     <> Rejected "Unsupported file format."%string.
Proof.
  destruct (orchestrator_never_hits_unsupported Sample.browser
              [Sample.notes; Sample.chart] Sample.chart
              (fst (compressImage Sample.browser Sample.chart)))
    as [H1 [_ [_ [_ H2]]]].
  - vm_compute. right. right. right. right. right. left. reflexivity.
  - split; assumption.
Defined.

(* ===================================================================== *)
(** * Rounding: what the operations of [JsNumber] compute *)
(* ===================================================================== *)

Import Rounding.

Lemma digits2_pos_bounds (p : positive) :
  2 ^ (Zpos (digits2_pos p) - 1) <= Zpos p < 2 ^ Zpos (digits2_pos p).
Proof.
  induction p as [p IH|p IH|]; cbn [digits2_pos].
  - rewrite Pos2Z.inj_succ. replace (Z.succ (Zpos (digits2_pos p)) - 1) with (Zpos (digits2_pos p)) by lia.
    rewrite Z.pow_succ_r by lia.
    assert (2 ^ Zpos (digits2_pos p) = 2 * 2 ^ (Zpos (digits2_pos p) - 1)).
    { rewrite <- Z.pow_succ_r by lia. f_equal. lia. }
    lia.
  - rewrite Pos2Z.inj_succ. replace (Z.succ (Zpos (digits2_pos p)) - 1) with (Zpos (digits2_pos p)) by lia.
    rewrite Z.pow_succ_r by lia.
    assert (2 ^ Zpos (digits2_pos p) = 2 * 2 ^ (Zpos (digits2_pos p) - 1)).
    { rewrite <- Z.pow_succ_r by lia. f_equal. lia. }
    lia.
  - simpl. lia.
Qed.

Lemma digits2_pos_unique (p : positive) (k : Z) :
  2 ^ (k - 1) <= Zpos p < 2 ^ k -> Zpos (digits2_pos p) = k.
Proof.
  intros [Hlo Hhi]. pose proof (digits2_pos_bounds p) as [Blo Bhi].
  assert (0 < k).
  { destruct (Z_lt_le_dec 0 k); [assumption|].
    assert (2 ^ k <= 2 ^ 0) by (destruct (Z_lt_le_dec k 0); [rewrite Z.pow_neg_r by lia; simpl; lia | apply Z.pow_le_mono_r; lia]).
    simpl in *. lia. }
  destruct (Z_lt_le_dec (Zpos (digits2_pos p)) k) as [Hlt|Hge].
  - assert (2 ^ Zpos (digits2_pos p) <= 2 ^ (k - 1)) by (apply Z.pow_le_mono_r; lia). lia.
  - destruct (Z_lt_le_dec k (Zpos (digits2_pos p))) as [Hlt|Hge']; [|lia].
    assert (2 ^ k <= 2 ^ (Zpos (digits2_pos p) - 1)) by (apply Z.pow_le_mono_r; lia). lia.
Qed.

Lemma iter_pos_nat {A} (f : A -> A) (p : positive) : forall x,
  iter_pos f p x = Nat.iter (Pos.to_nat p) f x.
Proof.
  induction p as [p IH|p IH|]; intros x; cbn [iter_pos].
  - rewrite !IH. rewrite Pos2Nat.inj_xI.
    replace (S (2 * Pos.to_nat p))%nat with (Pos.to_nat p + (Pos.to_nat p + 1))%nat by lia.
    rewrite !Nat.iter_add. reflexivity.
  - rewrite !IH. rewrite Pos2Nat.inj_xO.
    replace (2 * Pos.to_nat p)%nat with (Pos.to_nat p + Pos.to_nat p)%nat by lia.
    rewrite Nat.iter_add. reflexivity.
  - reflexivity.
Qed.

Lemma shr_1_nonneg (m : Z) (r s : bool) :
  0 <= m ->
  shr_1 (Build_shr_record m r s) = Build_shr_record (m / 2) (Z.odd m) (r || s).
Proof.
  intros Hm. rewrite <- Z.div2_div.
  destruct m as [|[p|p|]|p]; try reflexivity. lia.
Qed.

Lemma loc_of_record_exact (m : Z) (r s : bool) (N D : Z) :
  loc_of_shr_record (Build_shr_record m r s) = loc_of N D ->
  (r || s) = negb (N mod D =? 0).
Proof.
  unfold loc_of. destruct r, s; simpl; destruct (N mod D =? 0); simpl;
    intros H; try reflexivity; discriminate.
Qed.

Lemma represents_shr_1 (mrs : shr_record) (N D : Z) :
  0 <= N -> 0 < D -> represents mrs N D -> represents (shr_1 mrs) N (2 * D).
Proof.
  intros HN HD. destruct mrs as [m r s]. unfold represents. cbn [shr_m].
  intros [Hm Hloc].
  assert (Hq : 0 <= N / D) by (apply Z.div_pos; lia).
  rewrite shr_1_nonneg by lia. cbn [shr_m].
  pose proof (loc_of_record_exact _ _ _ _ _ Hloc) as Hrs.
  pose proof (Z.mod_pos_bound N D HD) as Hrem.
  assert (Hdiv : N / (2 * D) = m / 2).
  { rewrite Hm, (Z.mul_comm 2 D), <- Z.div_div by lia. reflexivity. }
  assert (Hmod : N mod (2 * D) = N mod D + D * (m mod 2)).
  { rewrite Hm, (Z.mul_comm 2 D). apply Z.rem_mul_r; lia. }
  split; [symmetry; exact Hdiv|].
  unfold loc_of. rewrite Hmod, Hrs, (Zmod_odd m).
  destruct (Z.odd m); destruct (Z.eqb_spec (N mod D) 0) as [E0|E0];
    cbn [negb loc_of_shr_record].
  - assert ((N mod D + D * 1 =? 0) = false) as -> by (apply Z.eqb_neq; lia).
    assert ((2 * (N mod D + D * 1) ?= 2 * D) = Eq) as -> by (apply Z.compare_eq_iff; lia).
    reflexivity.
  - assert ((N mod D + D * 1 =? 0) = false) as -> by (apply Z.eqb_neq; lia).
    assert ((2 * (N mod D + D * 1) ?= 2 * D) = Gt) as -> by (apply Z.compare_gt_iff; lia).
    reflexivity.
  - assert ((N mod D + D * 0 =? 0) = true) as -> by (apply Z.eqb_eq; lia).
    reflexivity.
  - assert ((N mod D + D * 0 =? 0) = false) as -> by (apply Z.eqb_neq; lia).
    assert ((2 * (N mod D + D * 0) ?= 2 * D) = Lt) as -> by (apply Z.compare_lt_iff; lia).
    reflexivity.
Qed.

Lemma represents_iter (n : nat) (mrs : shr_record) (N D : Z) :
  0 <= N -> 0 < D -> represents mrs N D ->
  represents (Nat.iter n shr_1 mrs) N (D * 2 ^ Z.of_nat n).
Proof.
  intros HN HD H. induction n as [|n IH].
  - simpl. rewrite Z.mul_1_r. exact H.
  - cbn [Nat.iter]. rewrite Nat2Z.inj_succ, Z.pow_succ_r by lia.
    replace (D * (2 * 2 ^ Z.of_nat n)) with (2 * (D * 2 ^ Z.of_nat n)) by lia.
    apply represents_shr_1; [assumption| |assumption].
    apply Z.mul_pos_pos; [assumption|]. apply Z.pow_pos_nonneg; lia.
Qed.

Lemma represents_of_loc (N D : Z) :
  represents (shr_record_of_loc (N / D) (loc_of N D)) N D.
Proof.
  unfold represents. destruct (loc_of N D) as [|[| |]]; split; reflexivity.
Qed.

Lemma round_nearest_even_represents (mrs : shr_record) (N D : Z) :
  0 <= N -> 0 < D -> represents mrs N D ->
  let m1 := round_nearest_even (shr_m mrs) (loc_of_shr_record mrs) in
  (m1 = N / D \/ m1 = N / D + 1)
  /\ 2 * Z.abs (m1 * D - N) <= D
  /\ (N mod D = 0 -> m1 = N / D).
Proof.
  intros HN HD [Hm Hloc]. cbv zeta. rewrite Hloc, Hm. unfold loc_of.
  pose proof (Z.mod_pos_bound N D HD) as Hrem.
  pose proof (Z.div_mod N D ltac:(lia)) as Hdm.
  destruct (Z.eqb_spec (N mod D) 0) as [E0|E0]; cbn [round_nearest_even].
  - split; [left; reflexivity|]. split; [nia|auto].
  - destruct (Z.compare_spec (2 * (N mod D)) D) as [E|E|E].
    + destruct (Z.even (N / D)); (split; [auto|]; split; [nia|contradiction]).
    + split; [auto|]. split; [nia|contradiction].
    + split; [auto|]. split; [nia|contradiction].
Qed.

Lemma shr_fexp_spec (p : positive) (e : Z) (l : location) :
  53 <= Zpos (digits2_pos p) ->
  -1074 <= Zpos (digits2_pos p) + e - 53 ->
  shr_fexp 53 1024 (Zpos p) e l
  = (Nat.iter (Z.to_nat (Zpos (digits2_pos p) - 53)) shr_1 (shr_record_of_loc (Zpos p) l),
     e + (Zpos (digits2_pos p) - 53)).
Proof.
  intros Hd He. unfold shr_fexp, fexp, emin. cbn [Zdigits2].
  rewrite Z.max_l by lia.
  replace (Zpos (digits2_pos p) + e - 53 - e) with (Zpos (digits2_pos p) - 53) by lia.
  destruct (Zpos (digits2_pos p) - 53) as [|k|k] eqn:E; [| |lia].
  - cbn [shr Z.to_nat Nat.iter]. rewrite Z.add_0_r. reflexivity.
  - cbn [shr Z.to_nat]. rewrite iter_pos_nat. reflexivity.
Qed.

Lemma pow2_split (a b : Z) : 0 <= a -> 0 <= b -> 2 ^ (a + b) = 2 ^ a * 2 ^ b.
Proof. intros. apply Z.pow_add_r; assumption. Qed.

Lemma binary_round_aux_spec (N D ex : Z) (p : positive) :
  0 < D -> N / D = Zpos p ->
  53 <= Zpos (digits2_pos p) ->
  -1074 <= Zpos (digits2_pos p) + ex - 53 ->
  Zpos (digits2_pos p) + ex - 52 <= 971 ->
  exists m e,
    binary_round_aux 53 1024 false (Zpos p) ex (loc_of N D) = S754_finite false m e
    /\ canonical m
    /\ (e = ex + Zpos (digits2_pos p) - 53 \/ e = ex + Zpos (digits2_pos p) - 52)
    /\ 2 * Z.abs (Zpos m * (D * 2 ^ (e - ex)) - N) <= D * 2 ^ (e - ex)
    /\ (N mod (D * 2 ^ (Zpos (digits2_pos p) - 53)) = 0 ->
        e = ex + Zpos (digits2_pos p) - 53
        /\ Zpos m * (D * 2 ^ (Zpos (digits2_pos p) - 53)) = N).
Proof.
  intros HD Hq Hd Hlo Hhi.
  set (d := Zpos (digits2_pos p)) in *.
  assert (HN : 0 <= N).
  { destruct (Z_lt_le_dec N 0) as [Hneg|]; [|assumption].
    assert (N / D < 0) by (apply Z.div_lt_upper_bound; lia). lia. }
  unfold binary_round_aux. rewrite shr_fexp_spec by assumption. fold d.
  set (n0 := d - 53). set (D' := D * 2 ^ n0).
  assert (Hpow : 0 < 2 ^ n0) by (apply Z.pow_pos_nonneg; lia).
  assert (HD' : 0 < D') by (apply Z.mul_pos_pos; assumption).
  set (mrs' := Nat.iter (Z.to_nat n0) shr_1 (shr_record_of_loc (Zpos p) (loc_of N D))).
  assert (Hrep : represents mrs' N D').
  { unfold mrs', D'. rewrite <- (Z2Nat.id n0) at 2 by lia.
    apply represents_iter; [assumption|assumption|].
    rewrite <- Hq. apply represents_of_loc. }
  pose proof (round_nearest_even_represents mrs' N D' HN HD' Hrep) as Hround.
  cbv zeta in Hround.
  set (m1 := round_nearest_even (shr_m mrs') (loc_of_shr_record mrs')) in *.
  destruct Hround as [Hm1 [Herr Hexact]].
  pose proof (digits2_pos_bounds p) as [Blo Bhi]. fold d in Blo, Bhi.
  assert (Hq' : N / D' = Zpos p / 2 ^ n0).
  { unfold D'. rewrite <- Z.div_div by lia. rewrite Hq. reflexivity. }
  assert (Hqlo : 2 ^ 52 <= N / D').
  { rewrite Hq'. apply Z.div_le_lower_bound; [assumption|].
    rewrite Z.mul_comm, <- pow2_split by lia.
    replace (52 + n0) with (d - 1) by (unfold n0; lia). assumption. }
  assert (Hqhi : N / D' < 2 ^ 53).
  { rewrite Hq'. apply Z.div_lt_upper_bound; [assumption|].
    rewrite <- pow2_split by lia.
    replace (n0 + 53) with d by (unfold n0; lia). assumption. }
  assert (Hm1lo : 2 ^ 52 <= m1) by lia.
  assert (Hm1hi : m1 <= 2 ^ 53) by lia.
  destruct m1 as [|p1|p1] eqn:Em1; [simpl in Hm1lo; lia| |lia].
  destruct (Z_lt_le_dec (Zpos p1) (2 ^ 53)) as [Hlt|Hge].
  - assert (Hd1 : Zpos (digits2_pos p1) = 53) by (apply digits2_pos_unique; simpl; lia).
    rewrite shr_fexp_spec by lia. rewrite Hd1.
    change (53 - 53) with 0. change (Z.to_nat 0) with 0%nat.
    cbn [Nat.iter shr_record_of_loc shr_m]. rewrite Z.add_0_r.
    assert ((ex + n0 <=? 1024 - 53) = true) as -> by (apply Z.leb_le; unfold n0; lia).
    exists p1, (ex + n0).
    split; [reflexivity|]. split; [exact Hd1|].
    split; [left; unfold n0; lia|].
    replace (ex + n0 - ex) with n0 by lia. fold D'.
    split; [exact Herr|].
    intros Hz. split; [unfold n0; lia|]. fold n0. fold D'.
    pose proof (Z.div_mod N D' ltac:(lia)) as Hdm. rewrite (Hexact Hz). nia.
  - assert (Hp1 : Zpos p1 = 2 ^ 53) by lia.
    assert (Hd1 : Zpos (digits2_pos p1) = 54) by (apply digits2_pos_unique; simpl; lia).
    rewrite shr_fexp_spec by lia. rewrite Hd1.
    change (54 - 53) with 1. change (Z.to_nat 1) with 1%nat.
    cbn [Nat.iter shr_record_of_loc].
    rewrite shr_1_nonneg by lia. cbn [shr_m]. rewrite Hp1.
    change (2 ^ 53 / 2) with (Zpos 4503599627370496).
    assert ((ex + n0 + 1 <=? 1024 - 53) = true) as -> by (apply Z.leb_le; unfold n0; lia).
    exists 4503599627370496%positive, (ex + n0 + 1).
    split; [reflexivity|]. split; [reflexivity|].
    split; [right; unfold n0; lia|].
    replace (ex + n0 + 1 - ex) with (n0 + 1) by lia.
    rewrite pow2_split by lia. change (2 ^ 1) with 2.
    split.
    + rewrite Hp1 in Herr. unfold D' in Herr. change (2 ^ 53) with 9007199254740992 in Herr. nia.
    + intros Hz. fold n0 in Hz. fold D' in Hz. rewrite (Hexact Hz) in Hp1. lia.
Qed.

(** Powers of two in Q. *)
Lemma Qpow2_pos (e : Z) : (0 < 2 ^ e)%Q.
Proof. apply Qpower_0_lt. reflexivity. Qed.

Lemma Qpow2_add (a b : Z) : (2 ^ (a + b) == 2 ^ a * 2 ^ b)%Q.
Proof. apply Qpower_plus. discriminate. Qed.

Lemma Qpow2_Z (n : Z) : 0 <= n -> (2 ^ n == inject_Z (2 ^ n))%Q.
Proof. intros H. rewrite Zpower_Qpower by assumption. reflexivity. Qed.

Lemma value_finite (m : positive) (e : Z) :
  JsNumber.value (S754_finite false m e) = (inject_Z (Zpos m) * 2 ^ e)%Q.
Proof. reflexivity. Qed.

Lemma value_shift (m : positive) (e k : Z) :
  0 <= k ->
  (JsNumber.value (S754_finite false m (e + k)) == inject_Z (Zpos m * 2 ^ k) * 2 ^ e)%Q.
Proof.
  intros Hk. rewrite value_finite, Qpow2_add, inject_Z_mult, (Qpow2_Z k) by assumption.
  ring.
Qed.

Lemma canonical_bounds (m : positive) :
  canonical m -> 2 ^ 52 <= Zpos m < 2 ^ 53.
Proof.
  unfold canonical. intros H. pose proof (digits2_pos_bounds m) as B.
  rewrite H in B. exact B.
Qed.

(** Bounds relative to [a] survive a change of scale. *)
Lemma scale_bounds (a b P : Q) :
  (0 < P -> a * (1 - u) <= b -> b <= a * (1 + u) ->
   a * P * (1 - u) <= b * P /\ b * P <= a * P * (1 + u))%Q.
Proof.
  intros HP H1 H2. split.
  - setoid_replace (a * P * (1 - u))%Q with (a * (1 - u) * P)%Q by ring.
    apply Qmult_le_compat_r; [assumption|]. apply Qlt_le_weak. assumption.
  - setoid_replace (a * P * (1 + u))%Q with (a * (1 + u) * P)%Q by ring.
    apply Qmult_le_compat_r; [assumption|]. apply Qlt_le_weak. assumption.
Qed.

(** An error of at most half a unit in the last place is a relative error
    of at most [u]. *)
Lemma relative_of_half_ulp (m N DT : Z) :
  2 ^ 52 <= m -> 0 < DT -> 2 * Z.abs (m * DT - N) <= DT ->
  (inject_Z (m * DT) * (1 - u) <= inject_Z N
   /\ inject_Z N <= inject_Z (m * DT) * (1 + u))%Q.
Proof.
  intros Hm HDT Herr. change (2 ^ 52) with 4503599627370496 in Hm.
  assert (H1 : 9007199254740992 * (m * DT) <= m * DT + 9007199254740992 * N) by nia.
  assert (H2 : 9007199254740992 * N <= m * DT + 9007199254740992 * (m * DT)) by nia.
  rewrite Zle_Qle in H1, H2.
  repeat rewrite ?inject_Z_plus, ?inject_Z_mult in H1.
  repeat rewrite ?inject_Z_plus, ?inject_Z_mult in H2.
  rewrite inject_Z_mult. unfold u. set (a := (inject_Z m * inject_Z DT)%Q) in *.
  set (b := inject_Z N) in *.
  change (inject_Z 9007199254740992) with (9007199254740992 # 1)%Q in H1, H2.
  clearbody a b. split; lra.
Qed.

Lemma Pos_iter_xO (p k : positive) : Zpos (Pos.iter xO p k) = Zpos p * 2 ^ Zpos k.
Proof.
  induction k as [|k IH] using Pos.peano_ind.
  - cbn [Pos.iter]. rewrite Pos2Z.inj_xO. change (2 ^ 1) with 2. lia.
  - rewrite Pos.iter_succ, Pos2Z.inj_xO, IH, Pos2Z.inj_succ, Z.pow_succ_r by lia. lia.
Qed.

Lemma loc_of_exact (N : Z) : loc_of N 1 = loc_Exact.
Proof. unfold loc_of. rewrite Z.mod_1_r. reflexivity. Qed.

(** An integer below 2^53 is a Number, exactly. *)
Lemma of_Z_spec (n : Z) :
  1 <= n < 2 ^ 53 ->
  exists m e,
    JsNumber.of_Z n = S754_finite false m e /\ canonical m
    /\ -52 <= e <= 0 /\ Zpos m = n * 2 ^ (- e).
Proof.
  intros [Hlo Hhi]. destruct n as [|p|p]; try lia.
  unfold JsNumber.of_Z, JsNumber.prec, JsNumber.emax.
  cbn [binary_normalize]. unfold binary_round.
  pose proof (digits2_pos_bounds p) as [Blo Bhi].
  set (d := Zpos (digits2_pos p)) in *.
  assert (Hd : 1 <= d <= 53).
  { split; [unfold d; lia|].
    destruct (Z_lt_le_dec 53 d) as [H|H]; [|assumption].
    assert (2 ^ 53 <= 2 ^ (d - 1)) by (apply Z.pow_le_mono_r; lia). lia. }
  unfold fexp, emin. rewrite Z.max_l by lia.
  replace (d + 0 - 53) with (d - 53) by lia.
  assert (Halign : exists mz, shl_align p 0 (d - 53) = (mz, d - 53)
                              /\ Zpos mz = Zpos p * 2 ^ (53 - d)).
  { unfold shl_align. rewrite Z.sub_0_r.
    destruct (d - 53) as [|k|k] eqn:E; [|lia|].
    - exists p. split; [reflexivity|]. replace (53 - d) with 0 by lia. simpl. lia.
    - exists (Pos.iter xO p k). split; [reflexivity|].
      rewrite Pos_iter_xO. f_equal. f_equal. lia. }
  destruct Halign as [mz [-> Hmz]].
  assert (Hpow : 2 ^ 52 = 2 ^ (d - 1) * 2 ^ (53 - d)).
  { rewrite <- Z.pow_add_r by lia. f_equal. lia. }
  assert (Hpow' : 2 ^ 53 = 2 ^ d * 2 ^ (53 - d)).
  { rewrite <- Z.pow_add_r by lia. f_equal. lia. }
  assert (Hpos : 0 < 2 ^ (53 - d)) by (apply Z.pow_pos_nonneg; lia).
  assert (Hdz : Zpos (digits2_pos mz) = 53).
  { apply digits2_pos_unique. replace (53 - 1) with 52 by lia. rewrite Hmz. nia. }
  pose proof (binary_round_aux_spec (Zpos mz) 1 (d - 53) mz) as Hspec.
  rewrite Hdz, loc_of_exact in Hspec. change (53 - 53) with 0 in Hspec.
  change (1 * 2 ^ 0) with 1 in Hspec.
  destruct Hspec as [m [e [Heq [Hc [_ [_ Hex]]]]]]; try lia.
  { apply Z.div_1_r. }
  rewrite Heq. destruct (Hex (Z.mod_1_r _)) as [He Hm].
  exists m, e. split; [reflexivity|]. split; [assumption|].
  split; [lia|].
  replace (- e) with (53 - d) by lia. lia.
Qed.

Lemma pow2_lt_inv (a b : Z) : 0 <= b -> 2 ^ a < 2 ^ b -> a < b.
Proof. intros Hb H. apply (Z.pow_lt_mono_r_iff 2); lia. Qed.

Lemma digits_between (p : positive) (a b : Z) :
  0 <= a -> 0 <= b -> 2 ^ a <= Zpos p < 2 ^ b -> a < Zpos (digits2_pos p) <= b.
Proof.
  intros Ha Hb [Hlo Hhi]. pose proof (digits2_pos_bounds p) as [Blo Bhi].
  split.
  - apply pow2_lt_inv; lia.
  - assert (Zpos (digits2_pos p) - 1 < b) by (apply pow2_lt_inv; lia). lia.
Qed.

(** Multiplication of two positive numbers with full significands. *)
Lemma mul_spec (mx my : positive) (ex ey : Z) :
  canonical mx -> canonical my -> -1126 <= ex + ey <= 917 ->
  exists m e,
    JsNumber.mul (S754_finite false mx ex) (S754_finite false my ey) = S754_finite false m e
    /\ canonical m
    /\ ex + ey + 52 <= e <= ex + ey + 54
    /\ (JsNumber.value (S754_finite false m e) * (1 - u)
        <= JsNumber.value (S754_finite false mx ex) * JsNumber.value (S754_finite false my ey))%Q
    /\ (JsNumber.value (S754_finite false mx ex) * JsNumber.value (S754_finite false my ey)
        <= JsNumber.value (S754_finite false m e) * (1 + u))%Q.
Proof.
  intros Hx Hy He.
  apply canonical_bounds in Hx, Hy.
  unfold JsNumber.mul, JsNumber.prec, JsNumber.emax, SFmul. cbn [xorb].
  set (p := (mx * my)%positive).
  assert (Hp : 2 ^ 104 <= Zpos p < 2 ^ 106).
  { unfold p. rewrite Pos2Z.inj_mul.
    change (2 ^ 104) with (2 ^ 52 * 2 ^ 52). change (2 ^ 106) with (2 ^ 53 * 2 ^ 53). nia. }
  pose proof (digits_between p 104 106 ltac:(lia) ltac:(lia) Hp) as Hd.
  destruct (binary_round_aux_spec (Zpos p) 1 (ex + ey) p) as [m [e [Heq [Hc [Hre [Herr _]]]]]];
    try lia.
  { apply Z.div_1_r. }
  rewrite loc_of_exact in Heq. rewrite Heq.
  exists m, e. split; [reflexivity|]. split; [assumption|]. split; [lia|].
  assert (Hk : 0 <= e - (ex + ey)) by lia.
  assert (Hpow : 0 < 2 ^ (e - (ex + ey))) by (apply Z.pow_pos_nonneg; lia).
  rewrite Z.mul_1_l in Herr.
  pose proof (canonical_bounds m Hc) as Hm.
  destruct (relative_of_half_ulp (Zpos m) (Zpos p) (2 ^ (e - (ex + ey)))
              ltac:(lia) Hpow Herr) as [R1 R2].
  assert (Hv : (JsNumber.value (S754_finite false m e)
                == inject_Z (Zpos m * 2 ^ (e - (ex + ey))) * 2 ^ (ex + ey))%Q).
  { rewrite <- value_shift by assumption. replace (ex + ey + (e - (ex + ey))) with e by lia.
    reflexivity. }
  assert (Hxy : (JsNumber.value (S754_finite false mx ex)
                 * JsNumber.value (S754_finite false my ey)
                 == inject_Z (Zpos p) * 2 ^ (ex + ey))%Q).
  { rewrite !value_finite, Qpow2_add. unfold p. rewrite Pos2Z.inj_mul, inject_Z_mult. ring. }
  rewrite Hv, Hxy.
  apply scale_bounds; [apply Qpow2_pos|assumption|assumption].
Qed.

Lemma new_location_loc_of (N D : Z) :
  0 < D -> new_location D (N mod D) = loc_of N D.
Proof.
  intros HD. unfold new_location, new_location_even, new_location_odd, loc_of.
  pose proof (Z.mod_pos_bound N D HD) as Hr.
  destruct (Z.even D) eqn:Ev; [reflexivity|].
  destruct (N mod D =? 0); [reflexivity|].
  assert (Hodd : Z.odd D = true) by (rewrite <- Z.negb_even, Ev; reflexivity).
  apply Z.odd_spec in Hodd. destruct Hodd as [k Hk].
  f_equal.
  destruct (Z.compare_spec (2 * (N mod D) + 1) D) as [E|E|E];
    symmetry; [apply Z.compare_lt_iff|apply Z.compare_lt_iff|apply Z.compare_gt_iff]; lia.
Qed.

Lemma SFdiv_core_canonical (mx my : positive) (ex ey : Z) :
  canonical mx -> canonical my -> -1021 <= ex - ey ->
  SFdiv_core_binary 53 1024 (Zpos mx) ex (Zpos my) ey
  = (Zpos mx * 2 ^ 53 / Zpos my, ex - ey - 53, loc_of (Zpos mx * 2 ^ 53) (Zpos my)).
Proof.
  intros Hx Hy He. unfold canonical in Hx, Hy.
  unfold SFdiv_core_binary. cbn [Zdigits2]. rewrite Hx, Hy.
  replace (53 + ex - (53 + ey)) with (ex - ey) by lia.
  unfold fexp, emin. rewrite Z.max_l by lia. rewrite Z.min_l by lia.
  replace (ex - ey - (ex - ey - 53)) with 53 by lia.
  rewrite Z.shiftl_mul_pow2 by lia.
  unfold Z.div, Z.modulo.
  pose proof (new_location_loc_of (Zpos mx * 2 ^ 53) (Zpos my) ltac:(lia)) as Hloc.
  unfold Z.modulo in Hloc.
  destruct (Z.div_eucl (Zpos mx * 2 ^ 53) (Zpos my)) as [q r].
  rewrite Hloc. reflexivity.
Qed.

(** Division of two positive numbers with full significands. *)
Lemma div_spec (mx my : positive) (ex ey : Z) :
  canonical mx -> canonical my -> -1021 <= ex - ey <= 1022 ->
  exists m e,
    JsNumber.div (S754_finite false mx ex) (S754_finite false my ey) = S754_finite false m e
    /\ canonical m
    /\ ex - ey - 53 <= e <= ex - ey - 51
    /\ (JsNumber.value (S754_finite false m e) * JsNumber.value (S754_finite false my ey)
        * (1 - u) <= JsNumber.value (S754_finite false mx ex))%Q
    /\ (JsNumber.value (S754_finite false mx ex)
        <= JsNumber.value (S754_finite false m e) * JsNumber.value (S754_finite false my ey)
           * (1 + u))%Q.
Proof.
  intros Hx Hy He.
  unfold JsNumber.div, JsNumber.prec, JsNumber.emax, SFdiv. cbn [xorb].
  rewrite SFdiv_core_canonical by (assumption || lia).
  apply canonical_bounds in Hx, Hy.
  set (N := Zpos mx * 2 ^ 53). set (D := Zpos my).
  assert (Hq : 2 ^ 52 <= N / D < 2 ^ 54).
  { split.
    - apply Z.div_le_lower_bound; [lia|]. unfold N, D.
      change (2 ^ 53) with (2 * 2 ^ 52) in *. nia.
    - apply Z.div_lt_upper_bound; [lia|]. unfold N, D.
      change (2 ^ 54) with (2 * 2 ^ 53). change (2 ^ 53) with (2 * 2 ^ 52) in *. nia. }
  destruct (N / D) as [|p|p] eqn:Ep; try lia.
  pose proof (digits_between p 52 54 ltac:(lia) ltac:(lia) Hq) as Hd.
  destruct (binary_round_aux_spec N D (ex - ey - 53) p) as [m [e [Heq [Hc [Hre [Herr _]]]]]];
    try lia.
  fold N D. rewrite Heq.
  exists m, e. split; [reflexivity|]. split; [assumption|]. split; [lia|].
  set (E := ex - ey - 53) in *.
  assert (Hk : 0 <= e - E) by lia.
  assert (Hpow : 0 < 2 ^ (e - E)) by (apply Z.pow_pos_nonneg; lia).
  pose proof (canonical_bounds m Hc) as Hm.
  destruct (relative_of_half_ulp (Zpos m) N (D * 2 ^ (e - E))
              ltac:(lia) ltac:(unfold D; nia) Herr) as [R1 R2].
  assert (Hv : (JsNumber.value (S754_finite false m e)
                * JsNumber.value (S754_finite false my ey)
                == inject_Z (Zpos m * (D * 2 ^ (e - E))) * 2 ^ (E + ey))%Q).
  { replace e with (E + (e - E)) at 1 by lia.
    rewrite value_shift by assumption. rewrite value_finite, Qpow2_add.
    rewrite !inject_Z_mult. unfold D. ring. }
  assert (Hxv : (JsNumber.value (S754_finite false mx ex)
                 == inject_Z N * 2 ^ (E + ey))%Q).
  { replace ex with (E + ey + 53) at 1 by (unfold E; lia).
    rewrite value_shift by lia. reflexivity. }
  rewrite Hv, Hxv.
  apply scale_bounds; [apply Qpow2_pos|assumption|assumption].
Qed.

Lemma value_pos (m : positive) (e : Z) : (0 < JsNumber.value (S754_finite false m e))%Q.
Proof.
  rewrite value_finite. apply Qmult_lt_0_compat; [|apply Qpow2_pos].
  rewrite <- (Zlt_Qlt 0). lia.
Qed.

Lemma value_of_Z (n : Z) (m : positive) (e : Z) :
  -52 <= e <= 0 -> Zpos m = n * 2 ^ (- e) ->
  (JsNumber.value (S754_finite false m e) == inject_Z n)%Q.
Proof.
  intros He Hm. rewrite value_finite, Hm, inject_Z_mult, <- Qpow2_Z by lia.
  rewrite <- Qmult_assoc, <- Qpow2_add. replace (- e + e) with 0 by lia.
  change (2 ^ 0)%Q with 1%Q. ring.
Qed.

Lemma value_lt_exponent (m1 m2 : positive) (e1 e2 : Z) :
  canonical m1 -> canonical m2 -> e1 < e2 ->
  (JsNumber.value (S754_finite false m1 e1) < JsNumber.value (S754_finite false m2 e2))%Q.
Proof.
  intros H1 H2 He. apply canonical_bounds in H1, H2.
  replace e2 with (e1 + (e2 - e1)) by lia. rewrite value_shift by lia.
  rewrite value_finite. apply Qmult_lt_compat_r; [apply Qpow2_pos|].
  rewrite <- Zlt_Qlt.
  assert (2 ^ 1 <= 2 ^ (e2 - e1)) by (apply Z.pow_le_mono_r; lia).
  change (2 ^ 1) with 2 in *. change (2 ^ 53) with (2 * 2 ^ 52) in *. nia.
Qed.

Lemma value_le_mantissa (m1 m2 : positive) (e : Z) :
  (m1 <= m2)%positive ->
  (JsNumber.value (S754_finite false m1 e) <= JsNumber.value (S754_finite false m2 e))%Q.
Proof.
  intros H. rewrite !value_finite. apply Qmult_le_compat_r.
  - rewrite <- Zle_Qle. lia.
  - apply Qlt_le_weak, Qpow2_pos.
Qed.

(** [Math.min] of two positive numbers with full significands is the one
    of smaller value. *)
Lemma min_spec (m1 m2 : positive) (e1 e2 : Z) :
  canonical m1 -> canonical m2 ->
  let x := S754_finite false m1 e1 in
  let y := S754_finite false m2 e2 in
  (JsNumber.min x y = x /\ (JsNumber.value x <= JsNumber.value y)%Q)
  \/ (JsNumber.min x y = y /\ (JsNumber.value y <= JsNumber.value x)%Q).
Proof.
  intros H1 H2 x y. unfold JsNumber.min, JsNumber.ltb, SFltb, x, y.
  cbn [JsNumber.is_nan orb SFcompare JsNumber.is_neg_zero].
  rewrite (Z.compare_antisym e1 e2).
  destruct (Z.compare_spec e1 e2) as [E|E|E]; cbn [CompOpp].
  - subst e2. change (Pos.compare_cont Eq m2 m1) with (Pos.compare_cont (CompOpp Eq) m2 m1).
    rewrite <- (Pos.compare_cont_antisym m1 m2 Eq).
    change (Pos.compare_cont Eq m1 m2) with (Pos.compare m1 m2).
    destruct (Pos.compare_spec m1 m2) as [F|F|F]; cbn [CompOpp].
    + left. split; [reflexivity|]. subst. apply Qle_refl.
    + left. split; [reflexivity|]. apply value_le_mantissa. lia.
    + right. split; [reflexivity|]. apply value_le_mantissa. lia.
  - left. split; [reflexivity|]. apply Qlt_le_weak, value_lt_exponent; assumption.
  - right. split; [reflexivity|]. apply Qlt_le_weak, value_lt_exponent; assumption.
Qed.

(** Truncation of a positive number: the integer part of its value. *)
Lemma shiftl_floor (m : positive) (e : Z) :
  0 <= Z.shiftl (Zpos m) e
  /\ (inject_Z (Z.shiftl (Zpos m) e) <= JsNumber.value (S754_finite false m e))%Q
  /\ (JsNumber.value (S754_finite false m e) < inject_Z (Z.shiftl (Zpos m) e + 1))%Q.
Proof.
  destruct (Z_le_gt_dec 0 e) as [He|He].
  - rewrite Z.shiftl_mul_pow2 by assumption.
    assert (0 < 2 ^ e) by (apply Z.pow_pos_nonneg; lia).
    assert (Hv : (JsNumber.value (S754_finite false m e) == inject_Z (Zpos m * 2 ^ e))%Q).
    { rewrite value_finite, inject_Z_mult, <- Qpow2_Z by assumption. reflexivity. }
    rewrite Hv.
    split; [nia|]. split; [apply Qle_refl|]. rewrite <- Zlt_Qlt. lia.
  - rewrite Z.shiftl_div_pow2 by lia.
    set (P := 2 ^ (- e)).
    assert (HP : 0 < P) by (apply Z.pow_pos_nonneg; lia).
    pose proof (Z.div_mod (Zpos m) P ltac:(lia)) as Hdm.
    pose proof (Z.mod_pos_bound (Zpos m) P HP) as Hr.
    set (t := Zpos m / P) in *.
    assert (Ht : 0 <= t) by (apply Z.div_pos; lia).
    assert (Hone : (inject_Z P * 2 ^ e == 1)%Q).
    { unfold P. rewrite <- Qpow2_Z, <- Qpow2_add by lia.
      replace (- e + e) with 0 by lia. reflexivity. }
    pose proof (Qpow2_pos e) as Hpe.
    rewrite value_finite.
    split; [assumption|]. split.
    + setoid_replace (inject_Z t) with (inject_Z (t * P) * 2 ^ e)%Q
        by (rewrite inject_Z_mult, <- Qmult_assoc, Hone; ring).
      apply Qmult_le_compat_r; [|apply Qlt_le_weak; assumption].
      rewrite <- Zle_Qle. nia.
    + setoid_replace (inject_Z (t + 1)) with (inject_Z ((t + 1) * P) * 2 ^ e)%Q
        by (rewrite inject_Z_mult, <- Qmult_assoc, Hone; ring).
      apply Qmult_lt_compat_r; [assumption|].
      rewrite <- Zlt_Qlt. nia.
Qed.

Lemma div_of_Z_spec (a b : Z) :
  1 <= a < 2 ^ 53 -> 1 <= b < 2 ^ 53 ->
  exists m e,
    JsNumber.div (JsNumber.of_Z a) (JsNumber.of_Z b) = S754_finite false m e
    /\ canonical m /\ -105 <= e <= 1
    /\ (JsNumber.value (S754_finite false m e) * inject_Z b * (1 - u) <= inject_Z a)%Q
    /\ (inject_Z a <= JsNumber.value (S754_finite false m e) * inject_Z b * (1 + u))%Q.
Proof.
  intros Ha Hb.
  destruct (of_Z_spec a Ha) as [ma [ea [Ea [Ca [Ra Va]]]]].
  destruct (of_Z_spec b Hb) as [mb [eb [Eb [Cb [Rb Vb]]]]].
  rewrite Ea, Eb.
  destruct (div_spec ma mb ea eb Ca Cb ltac:(lia)) as [m [e [Heq [Hc [He [H1 H2]]]]]].
  exists m, e. split; [assumption|]. split; [assumption|]. split; [lia|].
  rewrite (value_of_Z a ma ea Ra Va) in H1, H2.
  rewrite (value_of_Z b mb eb Rb Vb) in H1, H2.
  split; assumption.
Qed.

Lemma mul_of_Z_spec (s : Z) (mr : positive) (er : Z) :
  1 <= s < 2 ^ 53 -> canonical mr -> -1000 <= er <= 900 ->
  exists m e,
    JsNumber.mul (JsNumber.of_Z s) (S754_finite false mr er) = S754_finite false m e
    /\ canonical m /\ er <= e <= er + 54
    /\ (JsNumber.value (S754_finite false m e) * (1 - u)
        <= inject_Z s * JsNumber.value (S754_finite false mr er))%Q
    /\ (inject_Z s * JsNumber.value (S754_finite false mr er)
        <= JsNumber.value (S754_finite false m e) * (1 + u))%Q.
Proof.
  intros Hs Hc Her.
  destruct (of_Z_spec s Hs) as [ms [es [Es [Cs [Rs Vs]]]]].
  rewrite Es.
  destruct (mul_spec ms mr es er Cs Hc ltac:(lia)) as [m [e [Heq [Hcm [He [H1 H2]]]]]].
  exists m, e. split; [assumption|]. split; [assumption|]. split; [lia|].
  rewrite (value_of_Z s ms es Rs Vs) in H1, H2.
  split; assumption.
Qed.

(** The ratio of lines 139: within one rounding of [1920 / max width height]. *)
Lemma ratio_spec (width height : Z) :
  1 <= width < 2 ^ 32 -> 1 <= height < 2 ^ 32 ->
  exists m e,
    JsNumber.min (JsNumber.div (JsNumber.of_Z MAX_DIMENSION) (JsNumber.of_Z width))
                 (JsNumber.div (JsNumber.of_Z MAX_DIMENSION) (JsNumber.of_Z height))
    = S754_finite false m e
    /\ canonical m /\ -105 <= e <= 1
    /\ (JsNumber.value (S754_finite false m e) * inject_Z (Z.max width height) * (1 - u)
        <= 1920)%Q
    /\ (1920 <= JsNumber.value (S754_finite false m e) * inject_Z (Z.max width height)
                * (1 + u))%Q.
Proof.
  intros Hw Hh. unfold MAX_DIMENSION.
  assert (H32 : 2 ^ 32 < 2 ^ 53) by reflexivity.
  destruct (div_of_Z_spec 1920 width ltac:(simpl; lia) ltac:(lia))
    as [m1 [e1 [E1 [C1 [R1 [L1 U1]]]]]].
  destruct (div_of_Z_spec 1920 height ltac:(simpl; lia) ltac:(lia))
    as [m2 [e2 [E2 [C2 [R2 [L2 U2]]]]]].
  rewrite E1, E2.
  pose proof (value_pos m1 e1) as P1. pose proof (value_pos m2 e2) as P2.
  assert (Wq : (1 <= inject_Z width)%Q) by (rewrite <- (Zle_Qle 1); lia).
  assert (Hq : (1 <= inject_Z height)%Q) by (rewrite <- (Zle_Qle 1); lia).
  change (inject_Z 1920) with 1920%Q in *.
  assert (Hu : (0 < 1 - u)%Q) by (unfold u; lra).
  destruct (min_spec m1 m2 e1 e2 C1 C2) as [[-> Hle]|[-> Hle]]; cbv zeta in Hle.
  - exists m1, e1. split; [reflexivity|]. split; [assumption|]. split; [assumption|].
    destruct (Z.max_spec width height) as [[Hlt ->]|[Hge ->]].
    + assert (Hwh : (inject_Z width <= inject_Z height)%Q) by (rewrite <- Zle_Qle; lia).
      set (a := JsNumber.value (S754_finite false m1 e1)) in *.
      set (b := JsNumber.value (S754_finite false m2 e2)) in *.
      clearbody a b. unfold u in *. split; nra.
    + split; assumption.
  - exists m2, e2. split; [reflexivity|]. split; [assumption|]. split; [assumption|].
    destruct (Z.max_spec width height) as [[Hlt ->]|[Hge ->]].
    + split; assumption.
    + assert (Hwh : (inject_Z height <= inject_Z width)%Q) by (rewrite <- Zle_Qle; lia).
      set (a := JsNumber.value (S754_finite false m1 e1)) in *.
      set (b := JsNumber.value (S754_finite false m2 e2)) in *.
      clearbody a b. unfold u in *. split; nra.
Qed.

(** One side of the canvas: [s * ratio] truncated, for a ratio within one
    rounding of [1920 / M]. *)
Lemma scaled_side (s M : Z) (mr : positive) (er : Z) :
  1 <= s <= M -> M < 2 ^ 32 ->
  canonical mr -> -105 <= er <= 1 ->
  (JsNumber.value (S754_finite false mr er) * inject_Z M * (1 - u) <= 1920)%Q ->
  (1920 <= JsNumber.value (S754_finite false mr er) * inject_Z M * (1 + u))%Q ->
  let t := JsNumber.to_unsigned_long
             (JsNumber.mul (JsNumber.of_Z s) (S754_finite false mr er)) in
  s * 1920 / M - 1 <= t <= s * 1920 / M
  /\ ((s * 1920) mod M <> 0 -> t = s * 1920 / M).
Proof.
  intros Hs HM Hc Her H3 H4.
  assert (H32 : 2 ^ 32 < 2 ^ 53) by reflexivity.
  destruct (mul_of_Z_spec s mr er ltac:(lia) Hc ltac:(lia))
    as [m [e [Heq [Hcm [He [H1 H2]]]]]].
  rewrite Heq. cbv zeta. unfold JsNumber.to_unsigned_long.
  destruct (shiftl_floor m e) as [Ht0 [Ht1 Ht2]].
  set (t := Z.shiftl (Zpos m) e) in *.
  set (K := s * 1920 / M).
  pose proof (Z.div_mod (s * 1920) M ltac:(lia)) as Hdm.
  pose proof (Z.mod_pos_bound (s * 1920) M ltac:(lia)) as Hrem.
  fold K in Hdm. set (rem := (s * 1920) mod M) in *.
  assert (HK : 0 <= K <= 1920).
  { split; [apply Z.div_pos; lia|]. apply Z.div_le_upper_bound; lia. }
  pose proof (value_pos m e) as Ppi. pose proof (value_pos mr er) as Prho.
  set (pi := JsNumber.value (S754_finite false m e)) in *.
  set (rho := JsNumber.value (S754_finite false mr er)) in *.
  assert (Sq : (1 <= inject_Z s)%Q) by (rewrite <- (Zle_Qle 1); lia).
  assert (Mq : (1 <= inject_Z M)%Q) by (rewrite <- (Zle_Qle 1); lia).
  assert (Mq' : (inject_Z M <= 4294967296)%Q).
  { change 4294967296%Q with (inject_Z (2 ^ 32)). rewrite <- Zle_Qle. lia. }
  (* the two roundings, multiplied out *)
  assert (A : (pi * inject_Z M * ((1 - u) * (1 - u)) <= 1920 * inject_Z s)%Q).
  { clearbody pi rho. unfold u in *. nra. }
  assert (B : (1920 * inject_Z s <= pi * inject_Z M * ((1 + u) * (1 + u)))%Q).
  { clearbody pi rho. unfold u in *. nra. }
  assert (Hsum : (1920 * inject_Z s == inject_Z (K * M) + inject_Z rem)%Q).
  { change 1920%Q with (inject_Z 1920). rewrite <- inject_Z_mult, <- inject_Z_plus.
    apply inject_Z_injective. lia. }
  assert (HKM : (inject_Z (K * M) <= 1920 * 4294967296)%Q).
  { change (1920 * 4294967296)%Q with (inject_Z (1920 * 2 ^ 32)). rewrite <- Zle_Qle. nia. }
  assert (HKM0 : (0 <= inject_Z (K * M))%Q) by (rewrite <- (Zle_Qle 0); nia).
  assert (Hrem0 : (0 <= inject_Z rem)%Q) by (rewrite <- (Zle_Qle 0); lia).
  assert (Hrem1 : (inject_Z rem + 1 <= inject_Z M)%Q).
  { change 1%Q with (inject_Z 1). rewrite <- inject_Z_plus, <- Zle_Qle. lia. }
  (* bounds on the integer part *)
  assert (Hup : t <= K).
  { destruct (Z_le_gt_dec t K) as [|Hgt]; [assumption|exfalso].
    assert (Ht : (inject_Z (K * M) + inject_Z M <= pi * inject_Z M)%Q).
    { assert (Hk1 : (inject_Z (K + 1) <= pi)%Q).
      { apply Qle_trans with (inject_Z t); [rewrite <- Zle_Qle; lia|assumption]. }
      rewrite inject_Z_mult. rewrite inject_Z_plus in Hk1. change (inject_Z 1) with 1%Q in Hk1.
      clearbody pi. nra. }
    clearbody pi rho. unfold u in *. nra. }
  assert (Hlow : rem <> 0 -> K <= t).
  { intros Hnz. destruct (Z_le_gt_dec K t) as [|Hgt]; [assumption|exfalso].
    assert (Hrem2 : (1 <= inject_Z rem)%Q) by (rewrite <- (Zle_Qle 1); lia).
    assert (Ht : (pi * inject_Z M <= inject_Z (K * M))%Q).
    { assert (Hk1 : (pi <= inject_Z K)%Q).
      { apply Qle_trans with (inject_Z (t + 1));
          [apply Qlt_le_weak; assumption|rewrite <- Zle_Qle; lia]. }
      rewrite inject_Z_mult. clearbody pi. nra. }
    clearbody pi rho. unfold u in *. nra. }
  assert (Hlow' : K - 1 <= t).
  { destruct (Z_le_gt_dec (K - 1) t) as [|Hgt]; [assumption|exfalso].
    assert (Ht : (pi * inject_Z M + inject_Z M <= inject_Z (K * M))%Q).
    { assert (Hk1 : (pi + 1 <= inject_Z K)%Q).
      { apply Qle_trans with (inject_Z (t + 1) + 1)%Q.
        - apply Qplus_le_l. apply Qlt_le_weak; assumption.
        - change 1%Q with (inject_Z 1). rewrite <- inject_Z_plus, <- Zle_Qle. lia. }
      rewrite inject_Z_mult. clearbody pi. nra. }
    clearbody pi rho. unfold u in *. nra. }
  assert (Hmod : t mod 2 ^ 32 = t) by (apply Z.mod_small; lia).
  rewrite Hmod. split; [lia|]. intros Hnz. specialize (Hlow Hnz). lia.
Qed.

(** C3, as stated, fails: an image 2148 pixels wide gets a canvas 1919
    pixels wide, because [2148 * (1920 / 2148)] is rounded to the number
    just below 1920 and the canvas truncates it. *)
Lemma larger_side_1919 :
  canvasSize 2148 1000 = (1919, 893)
  /\ JsNumber.to_unsigned_long
       (JsNumber.mul (JsNumber.of_Z 2148)
          (JsNumber.div (JsNumber.of_Z 1920) (JsNumber.of_Z 2148))) = 1919
  /\ Z.max (fst (canvasSize 2148 1000)) (snd (canvasSize 2148 1000)) <> 1920.
Proof. split; [|split]; vm_compute; [reflexivity|reflexivity|discriminate]. Qed.

(** C3, amended: an image with both sides at most 1920 keeps its size.
    Otherwise both sides are multiplied by the same Number,
    [min(1920 / width, 1920 / height)], and truncated; a side [s] becomes
    [s * 1920 / max width height] rounded down, or one less when that
    quotient is an integer, so the larger side becomes 1919 or 1920 and
    no side exceeds 1920. *)
Theorem canvas_size_bounds (width height : Z) :
  1 <= width < 2 ^ 32 -> 1 <= height < 2 ^ 32 ->
  (width <= 1920 -> height <= 1920 -> canvasSize width height = (width, height))
  /\ (1920 < width \/ 1920 < height ->
      let M := Z.max width height in
      let ratio :=
        JsNumber.min (JsNumber.div (JsNumber.of_Z 1920) (JsNumber.of_Z width))
                     (JsNumber.div (JsNumber.of_Z 1920) (JsNumber.of_Z height)) in
      let cw := fst (canvasSize width height) in
      let ch := snd (canvasSize width height) in
      cw = JsNumber.to_unsigned_long (JsNumber.mul (JsNumber.of_Z width) ratio)
      /\ ch = JsNumber.to_unsigned_long (JsNumber.mul (JsNumber.of_Z height) ratio)
      /\ width * 1920 / M - 1 <= cw <= width * 1920 / M
      /\ height * 1920 / M - 1 <= ch <= height * 1920 / M
      /\ ((width * 1920) mod M <> 0 -> cw = width * 1920 / M)
      /\ ((height * 1920) mod M <> 0 -> ch = height * 1920 / M)
      /\ 1919 <= Z.max cw ch <= 1920).
Proof.
  intros Hw Hh. split.
  - intros Hw' Hh'. unfold canvasSize, MAX_DIMENSION.
    assert ((width >? 1920) = false) as -> by (rewrite Z.gtb_ltb; apply Z.ltb_ge; lia).
    assert ((height >? 1920) = false) as -> by (rewrite Z.gtb_ltb; apply Z.ltb_ge; lia).
    reflexivity.
  - intros Hbig. cbv zeta.
    assert (Hsize : canvasSize width height
                    = (JsNumber.to_unsigned_long
                         (JsNumber.mul (JsNumber.of_Z width)
                            (JsNumber.min
                               (JsNumber.div (JsNumber.of_Z 1920) (JsNumber.of_Z width))
                               (JsNumber.div (JsNumber.of_Z 1920) (JsNumber.of_Z height)))),
                       JsNumber.to_unsigned_long
                         (JsNumber.mul (JsNumber.of_Z height)
                            (JsNumber.min
                               (JsNumber.div (JsNumber.of_Z 1920) (JsNumber.of_Z width))
                               (JsNumber.div (JsNumber.of_Z 1920) (JsNumber.of_Z height)))))).
    { unfold canvasSize, MAX_DIMENSION.
      assert (((width >? 1920) || (height >? 1920)) = true) as ->; [|reflexivity].
      apply Bool.orb_true_iff. rewrite !Z.gtb_ltb, !Z.ltb_lt. lia. }
    rewrite Hsize. cbn [fst snd].
    destruct (ratio_spec width height Hw Hh) as [m [e [Er [Cr [Rr [L U]]]]]].
    unfold MAX_DIMENSION in Er. rewrite Er.
    set (M := Z.max width height) in *.
    assert (HM : 1920 < M < 2 ^ 32) by (unfold M; lia).
    destruct (scaled_side width M m e ltac:(unfold M; lia) ltac:(lia) Cr Rr L U) as [Bw Ew].
    destruct (scaled_side height M m e ltac:(unfold M; lia) ltac:(lia) Cr Rr L U) as [Bh Eh].
    cbv zeta in Bw, Ew, Bh, Eh.
    split; [reflexivity|]. split; [reflexivity|].
    split; [assumption|]. split; [assumption|].
    split; [assumption|]. split; [assumption|].
    assert (Hfull : M * 1920 / M = 1920) by (rewrite Z.mul_comm; apply Z.div_mul; lia).
    assert (Hle : forall s, 1 <= s <= M -> s * 1920 / M <= 1920).
    { intros s Hs. apply Z.div_le_upper_bound; [lia|]. nia. }
    pose proof (Hle width ltac:(unfold M; lia)). pose proof (Hle height ltac:(unfold M; lia)).
    destruct (Z.max_spec width height) as [[Hlt HMe]|[Hge HMe]]; fold M in HMe;
      rewrite HMe in *; lia.
Qed.

Lemma canvas_size_bounds_witness :
  fst (canvasSize 3000 2000) = 1920 /\ snd (canvasSize 3000 2000) = 1280
  /\ 1919 <= Z.max (fst (canvasSize 3000 2000)) (snd (canvasSize 3000 2000)) <= 1920.
Proof.
  destruct (canvas_size_bounds 3000 2000 ltac:(simpl; lia) ltac:(simpl; lia)) as [_ H].
  destruct (H ltac:(lia)) as [_ [_ [_ [_ [_ [_ Hmax]]]]]].
  split; [vm_compute; reflexivity|]. split; [vm_compute; reflexivity|]. exact Hmax.
Defined.

Lemma shl_align_fst (m : positive) (e ez : Z) :
  ez <= e -> Zpos (fst (shl_align m e ez)) = Zpos m * 2 ^ (e - ez).
Proof.
  intros H. unfold shl_align.
  destruct (ez - e) as [|k|k] eqn:E; cbn [fst]; try lia.
  - replace (e - ez) with 0 by lia. simpl. lia.
  - rewrite Pos_iter_xO. f_equal. f_equal. lia.
Qed.

(** Rounding an integer significand [p] at exponent [ez]. *)
Lemma binary_round_spec (p : positive) (ez : Z) :
  -1021 <= Zpos (digits2_pos p) + ez <= 1023 ->
  exists m e,
    binary_round 53 1024 false p ez = S754_finite false m e
    /\ canonical m
    /\ ez + Zpos (digits2_pos p) - 53 <= e <= ez + Zpos (digits2_pos p) - 52
    /\ (JsNumber.value (S754_finite false m e) * (1 - u) <= inject_Z (Zpos p) * 2 ^ ez)%Q
    /\ (inject_Z (Zpos p) * 2 ^ ez <= JsNumber.value (S754_finite false m e) * (1 + u))%Q.
Proof.
  intros Hr. set (d := Zpos (digits2_pos p)) in *.
  pose proof (digits2_pos_bounds p) as [Blo Bhi]. fold d in Blo, Bhi.
  assert (Hd1 : 1 <= d) by (unfold d; lia).
  unfold binary_round. fold d. unfold fexp, emin. rewrite Z.max_l by lia.
  assert (Halign : exists mz e2,
             shl_align p ez (d + ez - 53) = (mz, e2)
             /\ e2 <= ez /\ Zpos mz = Zpos p * 2 ^ (ez - e2)
             /\ 53 <= Zpos (digits2_pos mz)
             /\ Zpos (digits2_pos mz) + e2 = Z.max 53 d + (d + ez - Z.max 53 d)).
  { unfold shl_align. replace (d + ez - 53 - ez) with (d - 53) by lia.
    destruct (d - 53) as [|k|k] eqn:E.
    - exists p, ez. split; [reflexivity|]. split; [lia|].
      split; [rewrite Z.sub_diag; simpl; lia|]. fold d. lia.
    - exists p, ez. split; [reflexivity|]. split; [lia|].
      split; [rewrite Z.sub_diag; simpl; lia|]. fold d. lia.
    - exists (Pos.iter xO p k), (d + ez - 53). split; [reflexivity|]. split; [lia|].
      assert (Hk : Zpos k = 53 - d) by lia.
      assert (Hmz : Zpos (Pos.iter xO p k) = Zpos p * 2 ^ (53 - d))
        by (rewrite Pos_iter_xO, Hk; reflexivity).
      split; [rewrite Hmz; f_equal; f_equal; lia|].
      assert (Hdz : Zpos (digits2_pos (Pos.iter xO p k)) = 53).
      { apply digits2_pos_unique. rewrite Hmz. replace (53 - 1) with 52 by lia.
        assert (2 ^ 52 = 2 ^ (d - 1) * 2 ^ (53 - d))
          by (rewrite <- Z.pow_add_r by lia; f_equal; lia).
        assert (2 ^ 53 = 2 ^ d * 2 ^ (53 - d))
          by (rewrite <- Z.pow_add_r by lia; f_equal; lia).
        assert (0 < 2 ^ (53 - d)) by (apply Z.pow_pos_nonneg; lia).
        nia. }
      rewrite Hdz. lia. }
  destruct Halign as [mz [e2 [-> [He2 [Hmz [Hdz Hsum]]]]]].
  destruct (binary_round_aux_spec (Zpos mz) 1 e2 mz) as [m [e [Heq [Hc [Hre [Herr _]]]]]];
    try lia.
  { apply Z.div_1_r. }
  rewrite loc_of_exact in Heq. rewrite Heq.
  exists m, e. split; [reflexivity|]. split; [assumption|]. split; [lia|].
  assert (Hk : 0 <= e - e2) by lia.
  assert (Hpow : 0 < 2 ^ (e - e2)) by (apply Z.pow_pos_nonneg; lia).
  rewrite Z.mul_1_l in Herr.
  pose proof (canonical_bounds m Hc) as Hm.
  destruct (relative_of_half_ulp (Zpos m) (Zpos mz) (2 ^ (e - e2))
              ltac:(lia) Hpow Herr) as [R1 R2].
  assert (Hv : (JsNumber.value (S754_finite false m e)
                == inject_Z (Zpos m * 2 ^ (e - e2)) * 2 ^ e2)%Q).
  { rewrite <- value_shift by assumption. replace (e2 + (e - e2)) with e by lia.
    reflexivity. }
  assert (Hx : (inject_Z (Zpos p) * 2 ^ ez == inject_Z (Zpos mz) * 2 ^ e2)%Q).
  { rewrite Hmz, inject_Z_mult. replace ez with (e2 + (ez - e2)) at 1 by lia.
    rewrite Qpow2_add, (Qpow2_Z (ez - e2)) by lia. ring. }
  rewrite Hv, Hx.
  apply scale_bounds; [apply Qpow2_pos|assumption|assumption].
Qed.

(** Subtraction of a smaller positive number from a larger one. *)
Lemma sub_spec (mx my : positive) (ex ey : Z) :
  canonical mx -> canonical my -> -500 <= ex <= 500 -> -500 <= ey <= 500 ->
  (JsNumber.value (S754_finite false my ey) < JsNumber.value (S754_finite false mx ex))%Q ->
  exists m e,
    JsNumber.sub (S754_finite false mx ex) (S754_finite false my ey) = S754_finite false m e
    /\ canonical m
    /\ (JsNumber.value (S754_finite false m e) * (1 - u)
        <= JsNumber.value (S754_finite false mx ex) - JsNumber.value (S754_finite false my ey))%Q
    /\ (JsNumber.value (S754_finite false mx ex) - JsNumber.value (S754_finite false my ey)
        <= JsNumber.value (S754_finite false m e) * (1 + u))%Q.
Proof.
  intros Hx Hy Hex Hey Hlt.
  unfold JsNumber.sub, JsNumber.prec, JsNumber.emax, SFsub. cbn [cond_Zopp].
  set (ez := Z.min ex ey).
  rewrite !shl_align_fst by (unfold ez; lia).
  set (A := Zpos mx * 2 ^ (ex - ez)). set (B := Zpos my * 2 ^ (ey - ez)).
  assert (HA : (JsNumber.value (S754_finite false mx ex) == inject_Z A * 2 ^ ez)%Q).
  { replace ex with (ez + (ex - ez)) at 1 by lia. apply value_shift. unfold ez; lia. }
  assert (HB : (JsNumber.value (S754_finite false my ey) == inject_Z B * 2 ^ ez)%Q).
  { replace ey with (ez + (ey - ez)) at 1 by lia. apply value_shift. unfold ez; lia. }
  pose proof (Qpow2_pos ez) as HP.
  assert (Hpos : 0 < A - B).
  { rewrite HA, HB in Hlt. apply Qmult_lt_r in Hlt; [|assumption].
    rewrite <- Zlt_Qlt in Hlt. lia. }
  destruct (A - B) as [|p|p] eqn:Ep; try lia.
  cbn [binary_normalize].
  apply canonical_bounds in Hx, Hy.
  assert (HAhi : A < 2 ^ (53 + (ex - ez))).
  { unfold A. rewrite Z.pow_add_r by (unfold ez; lia).
    assert (0 < 2 ^ (ex - ez)) by (apply Z.pow_pos_nonneg; unfold ez; lia). nia. }
  assert (HBpos : 0 < B).
  { unfold B. assert (0 < 2 ^ (ey - ez)) by (apply Z.pow_pos_nonneg; unfold ez; lia). nia. }
  assert (Hd : 0 < Zpos (digits2_pos p) <= 53 + (ex - ez)).
  { apply digits_between; [lia|unfold ez; lia|]. change (2 ^ 0) with 1. lia. }
  destruct (binary_round_spec p ez ltac:(unfold ez in *; lia))
    as [m [e [Heq [Hc [He [R1 R2]]]]]].
  rewrite Heq. exists m, e. split; [reflexivity|]. split; [assumption|].
  assert (Hdiff : (JsNumber.value (S754_finite false mx ex)
                   - JsNumber.value (S754_finite false my ey)
                   == inject_Z (Zpos p) * 2 ^ ez)%Q).
  { rewrite HA, HB, <- Ep. unfold Z.sub. rewrite inject_Z_plus, inject_Z_opp. ring. }
  rewrite Hdiff. split; assumption.
Qed.

(** [toFixed(1)]: the number of tenths nearest to the value. *)
Lemma tenths_spec (m : positive) (e : Z) :
  let n := JsNumber.tenths (S754_finite false m e) in
  0 <= n
  /\ (2 * inject_Z n <= 20 * JsNumber.value (S754_finite false m e) + 1)%Q
  /\ (20 * JsNumber.value (S754_finite false m e) + 1 < 2 * inject_Z n + 2)%Q.
Proof.
  cbv zeta. unfold JsNumber.tenths.
  destruct (Z.leb_spec 0 e) as [He|He].
  - rewrite Z.shiftl_mul_pow2 by assumption.
    assert (0 < 2 ^ e) by (apply Z.pow_pos_nonneg; lia).
    assert (Hv : (JsNumber.value (S754_finite false m e) == inject_Z (Zpos m * 2 ^ e))%Q).
    { rewrite value_finite, inject_Z_mult, <- Qpow2_Z by assumption. reflexivity. }
    rewrite Hv. rewrite (inject_Z_mult 10). change (inject_Z 10) with 10%Q.
    set (a := inject_Z (Zpos m * 2 ^ e)). clearbody a.
    split; [nia|]. split; lra.
  - set (P := 2 ^ (- e)).
    assert (HP : 0 < P) by (apply Z.pow_pos_nonneg; lia).
    assert (HP2 : 2 ^ (- e + 1) = 2 * P) by (unfold P; rewrite Z.pow_add_r by lia; change (2 ^ 1) with 2; lia).
    rewrite HP2.
    pose proof (Z.div_mod (20 * Zpos m + P) (2 * P) ltac:(lia)) as Hdm.
    pose proof (Z.mod_pos_bound (20 * Zpos m + P) (2 * P) ltac:(lia)) as Hr.
    set (n := (20 * Zpos m + P) / (2 * P)) in *.
    assert (Hn : 0 <= n) by (apply Z.div_pos; lia).
    assert (Hone : (inject_Z P * 2 ^ e == 1)%Q).
    { unfold P. rewrite <- Qpow2_Z, <- Qpow2_add by lia.
      replace (- e + e) with 0 by lia. reflexivity. }
    pose proof (Qpow2_pos e) as Hpe.
    rewrite value_finite.
    split; [assumption|]. split.
    + setoid_replace (2 * inject_Z n)%Q with (inject_Z (2 * P * n) * 2 ^ e)%Q
        by (rewrite !inject_Z_mult; change (inject_Z 2) with 2%Q;
            setoid_replace (2 * inject_Z P * inject_Z n * 2 ^ e)%Q
              with (2 * inject_Z n * (inject_Z P * 2 ^ e))%Q by ring;
            rewrite Hone; ring).
      setoid_replace (20 * (inject_Z (Zpos m) * 2 ^ e) + 1)%Q
        with (inject_Z (20 * Zpos m + P) * 2 ^ e)%Q
        by (rewrite inject_Z_plus, inject_Z_mult; change (inject_Z 20) with 20%Q;
            rewrite <- Hone; ring).
      apply Qmult_le_compat_r; [|apply Qlt_le_weak; assumption].
      rewrite <- Zle_Qle. lia.
    + setoid_replace (2 * inject_Z n + 2)%Q with (inject_Z (2 * P * n + 2 * P) * 2 ^ e)%Q
        by (rewrite inject_Z_plus, !inject_Z_mult; change (inject_Z 2) with 2%Q;
            setoid_replace ((2 * inject_Z P * inject_Z n + 2 * inject_Z P) * 2 ^ e)%Q
              with ((2 * inject_Z n + 2) * (inject_Z P * 2 ^ e))%Q by ring;
            rewrite Hone; ring).
      setoid_replace (20 * (inject_Z (Zpos m) * 2 ^ e) + 1)%Q
        with (inject_Z (20 * Zpos m + P) * 2 ^ e)%Q
        by (rewrite inject_Z_plus, inject_Z_mult; change (inject_Z 20) with 20%Q;
            rewrite <- Hone; ring).
      apply Qmult_lt_compat_r; [assumption|].
      rewrite <- Zlt_Qlt. lia.
Qed.

Lemma lit_100_finite : JsNumber.lit_100 = S754_finite false 7036874417766400 (-46).
Proof. reflexivity. Qed.

Lemma lit_100_value : (JsNumber.value JsNumber.lit_100 == 100)%Q.
Proof. reflexivity. Qed.

Lemma lit_100_canonical : canonical 7036874417766400.
Proof. reflexivity. Qed.

(** Line 222 for [1 <= finalSize]: the percentage kept, within two
    roundings of [100 * finalSize / originalSize]. *)
Lemma reductionPercentage_spec (f o : Z) :
  1 <= f < 2 ^ 53 -> 1 <= o < 2 ^ 53 ->
  exists m e,
    reductionPercentage f o = S754_finite false m e
    /\ canonical m /\ -99 <= e <= 9
    /\ (JsNumber.value (S754_finite false m e) * inject_Z o * ((1 - u) * (1 - u))
        <= 100 * inject_Z f)%Q
    /\ (100 * inject_Z f
        <= JsNumber.value (S754_finite false m e) * inject_Z o * ((1 + u) * (1 + u)))%Q.
Proof.
  intros Hf Ho. unfold reductionPercentage.
  destruct (div_of_Z_spec f o Hf Ho) as [mq [eq [Eq [Cq [Rq [L U]]]]]].
  rewrite Eq, lit_100_finite.
  destruct (mul_spec mq 7036874417766400 eq (-46) Cq lit_100_canonical ltac:(lia))
    as [m [e [Heq [Hc [He [H1 H2]]]]]].
  exists m, e. split; [assumption|]. split; [assumption|]. split; [lia|].
  rewrite <- lit_100_finite, lit_100_value in H1, H2.
  pose proof (value_pos m e) as Ppi. pose proof (value_pos mq eq) as Pq.
  assert (Oq : (1 <= inject_Z o)%Q) by (rewrite <- (Zle_Qle 1); lia).
  assert (Fq : (1 <= inject_Z f)%Q) by (rewrite <- (Zle_Qle 1); lia).
  set (pi := JsNumber.value (S754_finite false m e)) in *.
  set (q := JsNumber.value (S754_finite false mq eq)) in *.
  clearbody pi q. unfold u in *. split; nra.
Qed.

(** Line 225 with [toFixed(1)]: the tenths shown are nearest to
    [1000 * (originalSize - finalSize) / originalSize]. *)
Lemma displayed_tenths (f o : Z) :
  0 <= f < o -> o < 2 ^ 32 ->
  let n := JsNumber.tenths (reduction f o) in
  JsNumber.toFixed1 (reduction f o)
  = (JsString.of_Z (n / 10) ++ "." ++ JsString.of_Z (n mod 10))%string
  /\ 0 <= n <= 1000
  /\ 2 * Z.abs (n * o - 1000 * (o - f)) <= o.
Proof.
  intros Hf Ho. cbv zeta.
  destruct (Z.eq_dec f 0) as [->|Hnz].
  - assert (Hred : reduction 0 o = JsNumber.lit_100).
    { unfold reduction, reductionPercentage.
      destruct (of_Z_spec o ltac:(simpl in *; lia)) as [mo [eo [Eo _]]].
      rewrite Eo, lit_100_finite. reflexivity. }
    rewrite Hred. split; [reflexivity|].
    change (JsNumber.tenths JsNumber.lit_100) with 1000. split; lia.
  - assert (H32 : 2 ^ 32 < 2 ^ 53) by reflexivity.
    destruct (reductionPercentage_spec f o ltac:(lia) ltac:(lia))
      as [mp [ep [Ep [Cp [Rp [A B]]]]]].
    unfold reduction. rewrite Ep, lit_100_finite.
    pose proof (value_pos mp ep) as Ppi.
    assert (Oq : (1 <= inject_Z o)%Q) by (rewrite <- (Zle_Qle 1); lia).
    assert (Oq' : (inject_Z o <= 4294967296)%Q).
    { change 4294967296%Q with (inject_Z (2 ^ 32)). rewrite <- Zle_Qle. lia. }
    assert (Fq : (1 <= inject_Z f)%Q) by (rewrite <- (Zle_Qle 1); lia).
    assert (FO : (inject_Z f + 1 <= inject_Z o)%Q).
    { change 1%Q with (inject_Z 1). rewrite <- inject_Z_plus, <- Zle_Qle. lia. }
    assert (Hlt : (JsNumber.value (S754_finite false mp ep)
                   < JsNumber.value (S754_finite false 7036874417766400 (-46)))%Q).
    { rewrite <- lit_100_finite, lit_100_value.
      set (pi := JsNumber.value (S754_finite false mp ep)) in *.
      clearbody pi. unfold u in *.
      destruct (Qlt_le_dec pi 100) as [|Hge]; [assumption|exfalso]. nra. }
    destruct (sub_spec 7036874417766400 mp (-46) ep lit_100_canonical Cp
                ltac:(lia) ltac:(lia) Hlt) as [m [e [Heq [Hc [S1 S2]]]]].
    rewrite Heq. rewrite <- lit_100_finite, lit_100_value in S1, S2.
    destruct (tenths_spec m e) as [Hn0 [T1 T2]]. cbv zeta in Hn0, T1, T2.
    set (n := JsNumber.tenths (S754_finite false m e)) in *.
    split; [reflexivity|].
    pose proof (value_pos m e) as Pv.
    set (v := JsNumber.value (S754_finite false m e)) in *.
    set (pi := JsNumber.value (S754_finite false mp ep)) in *.
    (* everything multiplied by the original size *)
    assert (V1 : (v * inject_Z o * (1 - u) <= 100 * inject_Z o - pi * inject_Z o)%Q).
    { clearbody v pi. unfold u in *. nra. }
    assert (V2 : (100 * inject_Z o - pi * inject_Z o <= v * inject_Z o * (1 + u))%Q).
    { clearbody v pi. unfold u in *. nra. }
    assert (N1 : (2 * (inject_Z n * inject_Z o) <= 20 * (v * inject_Z o) + inject_Z o)%Q).
    { clearbody v pi. nra. }
    assert (N2 : (20 * (v * inject_Z o) + inject_Z o
                  < 2 * (inject_Z n * inject_Z o) + 2 * inject_Z o)%Q).
    { clearbody v pi. nra. }
    set (V := (v * inject_Z o)%Q) in *. set (Pi := (pi * inject_Z o)%Q) in *.
    set (NO := (inject_Z n * inject_Z o)%Q) in *.
    assert (HV : (0 < V)%Q) by (unfold V; clearbody v; nra).
    assert (HPi : (0 < Pi)%Q) by (unfold Pi; clearbody pi; nra).
    assert (Up : (2 * NO - 2000 * (inject_Z o - inject_Z f) < inject_Z o + 1)%Q).
    { clearbody V Pi NO. unfold u in *. lra. }
    assert (Lo : (- inject_Z o - 1 < 2 * NO - 2000 * (inject_Z o - inject_Z f))%Q).
    { clearbody V Pi NO. unfold u in *. lra. }
    assert (UpZ : 2 * (n * o) - 2000 * (o - f) < o + 1).
    { rewrite Zlt_Qlt. unfold Z.sub. 
      repeat rewrite ?inject_Z_plus, ?inject_Z_mult, ?inject_Z_opp.
      change (inject_Z 2) with 2%Q. change (inject_Z 2000) with 2000%Q.
      change (inject_Z 1) with 1%Q. fold NO. clearbody NO. lra. }
    assert (LoZ : - o - 1 < 2 * (n * o) - 2000 * (o - f)).
    { rewrite Zlt_Qlt. unfold Z.sub.
      repeat rewrite ?inject_Z_plus, ?inject_Z_mult, ?inject_Z_opp.
      change (inject_Z 2) with 2%Q. change (inject_Z 2000) with 2000%Q.
      change (inject_Z 1) with 1%Q. fold NO. clearbody NO. lra. }
    split; [|lia].
    split; [assumption|]. nia.
Qed.

(** A number divided by itself is the number 1. *)
Lemma div_self (mx : positive) (ex : Z) :
  canonical mx ->
  JsNumber.div (S754_finite false mx ex) (S754_finite false mx ex)
  = S754_finite false 4503599627370496 (-52).
Proof.
  intros Hx.
  unfold JsNumber.div, JsNumber.prec, JsNumber.emax, SFdiv. cbn [xorb].
  rewrite SFdiv_core_canonical by (assumption || lia).
  assert (Hq : Zpos mx * 2 ^ 53 / Zpos mx = Zpos 9007199254740992).
  { rewrite Z.mul_comm. rewrite Z.div_mul by lia. reflexivity. }
  rewrite Hq.
  destruct (binary_round_aux_spec (Zpos mx * 2 ^ 53) (Zpos mx) (ex - ex - 53)
              9007199254740992 ltac:(lia) Hq)
    as [m [e [Heq [Hc [_ [_ Hex]]]]]];
    try (change (Zpos (digits2_pos 9007199254740992)) with 54; lia).
  rewrite Heq.
  change (Zpos (digits2_pos 9007199254740992)) with 54 in Hex.
  change (2 ^ (54 - 53)) with 2 in Hex.
  destruct Hex as [He Hm].
  { replace (Zpos mx * 2 ^ 53) with (2 ^ 52 * (Zpos mx * 2))
      by (change (2 ^ 53) with (2 ^ 52 * 2); lia).
    apply Z.mod_mul. lia. }
  f_equal; [|lia].
  change (2 ^ 53) with (4503599627370496 * 2) in Hm.
  assert (Zpos m = 4503599627370496) by nia. congruence.
Qed.

(** Lines 351 and 356 once every file is done: exactly 100. *)
Lemma progressWidth_full (n : nat) :
  1 <= Z.of_nat n < 2 ^ 53 -> progressWidth n n = JsNumber.lit_100.
Proof.
  intros Hn. unfold progressWidth.
  destruct (of_Z_spec (Z.of_nat n) Hn) as [m [e [E [C _]]]].
  rewrite E, div_self by assumption. reflexivity.
Qed.

Lemma progressWidth_spec (c n : nat) :
  (1 <= c <= n)%nat -> Z.of_nat n < 2 ^ 32 ->
  exists m e,
    progressWidth c n = S754_finite false m e
    /\ (JsNumber.value (S754_finite false m e) * inject_Z (Z.of_nat n) * ((1 - u) * (1 - u))
        <= 100 * inject_Z (Z.of_nat c))%Q
    /\ (100 * inject_Z (Z.of_nat c)
        <= JsNumber.value (S754_finite false m e) * inject_Z (Z.of_nat n)
           * ((1 + u) * (1 + u)))%Q.
Proof.
  intros Hc Hn.
  assert (H32 : 2 ^ 32 < 2 ^ 53) by reflexivity.
  destruct (reductionPercentage_spec (Z.of_nat c) (Z.of_nat n) ltac:(lia) ltac:(lia))
    as [m [e [E [_ [_ [A B]]]]]].
  exists m, e. split; [exact E|]. split; assumption.
Qed.

(** The width grows with the number of completed files. *)
Lemma progressWidth_monotone (j k n : nat) :
  (1 <= j <= k)%nat -> (k <= n)%nat -> Z.of_nat n < 2 ^ 32 ->
  (JsNumber.value (progressWidth j n) <= JsNumber.value (progressWidth k n))%Q.
Proof.
  intros Hj Hk Hn.
  destruct (Nat.eq_dec j k) as [->|Hne]; [apply Qle_refl|].
  destruct (progressWidth_spec j n ltac:(lia) Hn) as [mj [ej [Ej [Aj Bj]]]].
  destruct (progressWidth_spec k n ltac:(lia) Hn) as [mk [ek [Ek [Ak Bk]]]].
  rewrite Ej, Ek.
  pose proof (value_pos mj ej) as Pj. pose proof (value_pos mk ek) as Pk.
  set (a := JsNumber.value (S754_finite false mj ej)) in *.
  set (b := JsNumber.value (S754_finite false mk ek)) in *.
  assert (Nq : (1 <= inject_Z (Z.of_nat n))%Q) by (rewrite <- (Zle_Qle 1); lia).
  assert (Nq' : (inject_Z (Z.of_nat n) <= 4294967296)%Q).
  { change 4294967296%Q with (inject_Z (2 ^ 32)). rewrite <- Zle_Qle. lia. }
  assert (Jq : (1 <= inject_Z (Z.of_nat j))%Q) by (rewrite <- (Zle_Qle 1); lia).
  assert (JK : (inject_Z (Z.of_nat j) + 1 <= inject_Z (Z.of_nat k))%Q).
  { change 1%Q with (inject_Z 1). rewrite <- inject_Z_plus, <- Zle_Qle. lia. }
  assert (JN : (inject_Z (Z.of_nat j) <= inject_Z (Z.of_nat n))%Q)
    by (rewrite <- Zle_Qle; lia).
  destruct (Qlt_le_dec b a) as [Hba|]; [exfalso|assumption].
  assert (Hprod : (b * inject_Z (Z.of_nat n) <= a * inject_Z (Z.of_nat n))%Q).
  { clearbody a b. nra. }
  set (A := (a * inject_Z (Z.of_nat n))%Q) in *.
  set (B := (b * inject_Z (Z.of_nat n))%Q) in *.
  clearbody A B. unfold u in *. lra.
Qed.

(* ===================================================================== *)
(** * The result card *)
(* ===================================================================== *)

Lemma append_assoc (a b c : string) : ((a ++ b) ++ c = a ++ (b ++ c))%string.
Proof.
  induction a as [|x a IH]; [reflexivity|]. cbn [String.append]. rewrite IH. reflexivity.
Qed.

Lemma append_nil_r (s : string) : (s ++ "")%string = s.
Proof. induction s as [|c s IH]; [reflexivity|]. cbn [String.append]. rewrite IH. reflexivity. Qed.

Lemma split_aux_nonempty (sep : string) (s : string) : forall skip cur,
  JsString.split_aux sep skip cur s <> [].
Proof.
  induction s as [|c s IH]; intros skip cur; cbn [JsString.split_aux]; [discriminate|].
  destruct skip; [|apply IH].
  destruct (String.prefix sep (String c s)); [discriminate|apply IH].
Qed.

Lemma last_cons (l : list string) : forall x y, last (y :: l) x = last l y.
Proof.
  induction l as [|z l IH]; intros x y; [reflexivity|].
  change (last (y :: z :: l) x) with (last (z :: l) x). rewrite !IH. reflexivity.
Qed.

Lemma pop_cons (x : string) (l : list string) :
  l <> [] -> JsString.pop (x :: l) = JsString.pop l.
Proof.
  destruct l as [|y l]; [contradiction|]. intros _.
  unfold JsString.pop. rewrite last_cons. reflexivity.
Qed.

Lemma prefix_dot (c : ascii) (s : string) :
  String.prefix "." (String c s) = Ascii.eqb c ".".
Proof.
  cbn [String.prefix]. destruct (ascii_dec "." c) as [<-|Hne].
  - destruct s; reflexivity.
  - symmetry. apply Ascii.eqb_neq. congruence.
Qed.



(** A string among [a ++ b] is in [a] or in [b], for a string of one
    character. *)
Lemma includes_char_cons (c x : ascii) (s : string) :
  JsString.includes (String c EmptyString) (String x s)
  = Ascii.eqb c x || JsString.includes (String c EmptyString) s.
Proof.
  cbn [JsString.includes String.prefix].
  destruct (ascii_dec c x) as [<-|Hne].
  - rewrite Ascii.eqb_refl. destruct s; reflexivity.
  - apply Ascii.eqb_neq in Hne. rewrite Hne. reflexivity.
Qed.

Lemma includes_char_app (c : ascii) (a b : string) :
  JsString.includes (String c EmptyString) (a ++ b)
  = JsString.includes (String c EmptyString) a
    || JsString.includes (String c EmptyString) b.
Proof.
  induction a as [|x a IH].
  - cbn [String.append]. reflexivity.
  - cbn [String.append]. rewrite !includes_char_cons, IH. apply Bool.orb_assoc.
Qed.

Lemma attribute_safe_app (a b : string) :
  attribute_safe (a ++ b) = attribute_safe a && attribute_safe b.
Proof.
  unfold attribute_safe, quotation_mark, null_character, carriage_return.
  rewrite !includes_char_app.
  destruct (JsString.includes _ a), (JsString.includes _ a), (JsString.includes _ a),
    (JsString.includes _ a); cbn [negb orb andb]; try reflexivity;
    destruct (JsString.includes _ b); cbn [negb andb]; try reflexivity;
    destruct (JsString.includes _ b); cbn [negb andb]; try reflexivity;
    destruct (JsString.includes _ b); reflexivity.
Qed.

(** The stem the pattern of line 217 leaves is a prefix of the name, and
    the piece line 213 extracts is a suffix of it. *)
Lemma replace_ext_prefix (s : string) :
  exists t, s = (JsString.replace_ext s ++ t)%string.
Proof.
  induction s as [|c s [t IH]]; [exists EmptyString; reflexivity|].
  cbn [JsString.replace_ext].
  destruct (Ascii.eqb c "." && JsString.ext_tail s).
  - exists (String c s). reflexivity.
  - exists t. cbn [String.append]. congruence.
Qed.

Lemma split_last_suffix (s : string) : forall cur,
  exists pre,
    (cur ++ s)%string
    = (pre ++ JsString.to_string (JsString.pop (JsString.split_aux "." 0 cur s)))%string.
Proof.
  induction s as [|c s IH]; intros cur.
  - exists EmptyString. cbn. apply append_nil_r.
  - cbn [JsString.split_aux]. rewrite prefix_dot.
    destruct (Ascii.eqb c ".") eqn:Ec.
    + cbn [String.length Nat.sub]. rewrite pop_cons by apply split_aux_nonempty.
      destruct (IH EmptyString) as [pre Hpre]. cbn [String.append] in Hpre.
      exists (cur ++ String c pre)%string.
      rewrite append_assoc. cbn [String.append]. rewrite <- Hpre. reflexivity.
    + destruct (IH (cur ++ String c EmptyString)%string) as [pre Hpre].
      exists pre. rewrite <- Hpre, append_assoc. reflexivity.
Qed.

(** What is written into [data-filename] comes back unchanged when the
    name of the file does. *)
Lemma fileName_safe (file : File) (url : string) (size : Z) (blob : Blob) :
  attribute_safe (file_name file) = true ->
  attribute_safe (card_fileName (cardMarkup file url size blob)) = true.
Proof.
  intros Hsafe. unfold cardMarkup.
  destruct (size <? file_size file); cbn [card_fileName]; [|exact Hsafe].
  rewrite !attribute_safe_app.
  destruct (replace_ext_prefix (file_name file)) as [t Ht].
  destruct (split_last_suffix (file_name file) EmptyString) as [pre Hpre].
  cbn [String.append] in Hpre. fold (JsString.split "." (file_name file)) in Hpre.
  pose proof Hsafe as H1. rewrite Ht, attribute_safe_app in H1.
  apply andb_prop in H1. destruct H1 as [-> _].
  pose proof Hsafe as H2. rewrite Hpre, attribute_safe_app in H2.
  apply andb_prop in H2. destruct H2 as [_ H2].
  destruct (JsString.includes "webp" (blob_type blob)); [reflexivity|].
  rewrite H2. reflexivity.
Qed.

Lemma createResultCard_inert (env : Browser) (file : File) (url : string) (size : Z)
    (blob : Blob) :
  JsString.includes quotation_mark url = false ->
  JsString.includes "<" (file_name file) = false ->
  attribute_safe (file_name file) = true ->
  createResultCard env file url size blob
  = Returns (mkCardElement
               ["result-card"; "glass-card"; "p-6"; "transition"; "duration-300";
                "hover:scale-[1.03]"]%string
               (cardMarkup file url size blob)
               (Some (mkDownload (Some blob)
                                 (card_fileName (cardMarkup file url size blob))))).
Proof.
  intros Hurl Hname Hsafe. unfold createResultCard, downloadButton.
  assert (Hinert : markup_inert (cardMarkup file url size blob) = true).
  { unfold markup_inert. rewrite fileName_safe by assumption.
    unfold cardMarkup. destruct (size <? file_size file);
      cbn [card_preview card_name]; rewrite Hurl, Hname; reflexivity. }
  rewrite Hinert. f_equal. f_equal. f_equal. f_equal.
  unfold cardMarkup. destruct (size <? file_size file); reflexivity.
Qed.








(* ===================================================================== *)
(** * Progress of a batch *)
(* ===================================================================== *)

Lemma progress_sorted (total : nat) :
  Z.of_nat total < 2 ^ 32 ->
  forall len start, (1 <= start)%nat -> (start + len <= S total)%nat ->
  StronglySorted (fun a b => (JsNumber.value a <= JsNumber.value b)%Q)
    (map (fun k => progressWidth k total) (seq start len)).
Proof.
  intros Ht. induction len as [|len IH]; intros start Hs Hl; cbn [seq map].
  - constructor.
  - constructor; [apply IH; lia|].
    apply Forall_forall. intros w Hw. apply in_map_iff in Hw.
    destruct Hw as [k [<- Hk]]. apply in_seq in Hk.
    apply progressWidth_monotone; [lia|lia|assumption].
Qed.

Lemma progress_trace_processFiles (env : Browser) (files : list File) :
  progress_trace 0 (fst (processFiles env files))
  = map (fun k => (k, progressWidth k (List.length (filter supported files))))
        (seq 1 (List.length (settled_prefix env (filter supported files)))).
Proof.
  destruct (filter supported files) as [|f l] eqn:E.
  - destruct files as [|g rest]; [reflexivity|].
    rewrite processFiles_none_supported by (auto; discriminate). reflexivity.
  - rewrite processFiles_some_supported by (rewrite E; discriminate).
    rewrite E. cbn [fst app progress_trace]. apply processLoop_progress.
Qed.

(** C8: the widths given to the progress bar are, in order, those of
    [(k / total) * 100] for k = 1, 2, ... up to the number of files
    completed, each set after the k-th completion and before the next;
    each is within two roundings of [100 * k / total]; they never
    decrease; and when the batch runs to its end the last one is exactly
    100. *)
Theorem progress_after_each_file (env : Browser) (files : list File) :
  Z.of_nat (List.length (filter supported files)) < 2 ^ 32 ->
  let total := List.length (filter supported files) in
  let trace := progress_trace 0 (fst (processFiles env files)) in
  trace = map (fun k => (k, progressWidth k total))
              (seq 1 (List.length (settled_prefix env (filter supported files))))
  /\ (forall k w, In (k, w) trace ->
        (1 <= k <= total)%nat
        /\ w = progressWidth k total
        /\ (JsNumber.value w * inject_Z (Z.of_nat total) * ((1 - u) * (1 - u))
            <= 100 * inject_Z (Z.of_nat k))%Q
        /\ (100 * inject_Z (Z.of_nat k)
            <= JsNumber.value w * inject_Z (Z.of_nat total) * ((1 + u) * (1 + u)))%Q)
  /\ StronglySorted (fun a b => (JsNumber.value a <= JsNumber.value b)%Q) (map snd trace)
  /\ (snd (processFiles env files) = true -> total <> 0%nat ->
      last (map snd trace) S754_nan = JsNumber.lit_100
      /\ (JsNumber.value JsNumber.lit_100 == 100)%Q).
Proof.
  intros Ht. cbv zeta. rewrite progress_trace_processFiles.
  set (accepted := filter supported files) in *.
  set (total := List.length accepted) in *.
  pose proof (settled_prefix_length env accepted) as Hlen. fold total in Hlen.
  split; [reflexivity|]. split; [|split].
  - intros k w Hin. apply in_map_iff in Hin. destruct Hin as [k' [Hkw Hk]].
    inversion Hkw; subst k' w. apply in_seq in Hk.
    assert (Hk' : (1 <= k <= total)%nat) by lia.
    split; [assumption|]. split; [reflexivity|].
    destruct (progressWidth_spec k total Hk' Ht) as [m [e [-> [A B]]]].
    split; assumption.
  - rewrite map_map. cbn [snd]. apply progress_sorted; [assumption|lia|lia].
  - intros Hfin Hnz. split; [|reflexivity].
    assert (Hall : forallb (settles env) accepted = true).
    { destruct accepted as [|f l] eqn:E; [reflexivity|].
      unfold accepted in E.
      rewrite processFiles_some_supported in Hfin by (rewrite E; discriminate).
      cbn [snd] in Hfin. rewrite processLoop_finished in Hfin. rewrite E in Hfin.
      exact Hfin. }
    rewrite settled_prefix_all by assumption. fold total.
    rewrite map_map. cbn [snd].
    destruct total as [|n] eqn:En; [contradiction|].
    rewrite seq_S, map_app. cbn [map]. rewrite last_last.
    apply progressWidth_full.
    assert (2 ^ 32 < 2 ^ 53) by reflexivity. lia.
Qed.

Lemma progress_after_each_file_witness :
  map fst (progress_trace 0
             (fst (processFiles Sample.browser
                     [Sample.photo; Sample.notes; Sample.corrupt; Sample.chart])))
  = [1; 2; 3]%nat
  /\ last (map snd (progress_trace 0
                      (fst (processFiles Sample.browser
                              [Sample.photo; Sample.notes; Sample.corrupt; Sample.chart]))))
          S754_nan
     = JsNumber.lit_100.
Proof.
  destruct (progress_after_each_file Sample.browser
              [Sample.photo; Sample.notes; Sample.corrupt; Sample.chart]
              ltac:(vm_compute; reflexivity)) as [Htrace [_ [_ Hlast]]].
  split; [rewrite Htrace; reflexivity|].
  exact (proj1 (Hlast ltac:(vm_compute; reflexivity) ltac:(vm_compute; discriminate))).
Defined.

From Stdlib Require Import NArith.

(* ===================================================================== *)
(** * Splitting strings *)
(* ===================================================================== *)

Lemma prefix_head_differs (c0 x : ascii) (sep' s : string) :
  Ascii.eqb x c0 = false -> String.prefix (String c0 sep') (String x s) = false.
Proof.
  intros H. cbn [String.prefix]. destruct (ascii_dec c0 x) as [->|]; [|reflexivity].
  rewrite Ascii.eqb_refl in H. discriminate.
Qed.

Lemma prefix_append (s t : string) : String.prefix s (s ++ t) = true.
Proof.
  induction s as [|c s IH]; [destruct t; reflexivity|].
  cbn [String.append String.prefix]. destruct (ascii_dec c c); [assumption|contradiction].
Qed.

(** A stretch without the first character of the separator joins the piece
    being read. *)
Lemma split_aux_free (c0 : ascii) (sep' pre : string) : forall cur rest,
  DataUrl.free_of c0 pre = true ->
  JsString.split_aux (String c0 sep') 0 cur (pre ++ rest)
  = JsString.split_aux (String c0 sep') 0 (cur ++ pre) rest.
Proof.
  induction pre as [|x pre IH]; intros cur rest Hfree.
  - rewrite append_nil_r. reflexivity.
  - cbn [DataUrl.free_of] in Hfree. apply Bool.andb_true_iff in Hfree.
    destruct Hfree as [Hx Hpre]. apply Bool.negb_true_iff in Hx.
    cbn [String.append JsString.split_aux].
    rewrite prefix_head_differs by assumption.
    rewrite IH by assumption. f_equal.
    rewrite append_assoc. reflexivity.
Qed.

Lemma split_aux_skip (sep skipped : string) : forall cur rest,
  JsString.split_aux sep (String.length skipped) cur (skipped ++ rest)
  = JsString.split_aux sep 0 cur rest.
Proof.
  induction skipped as [|x skipped IH]; intros cur rest; [reflexivity|].
  cbn [String.length String.append JsString.split_aux]. apply IH.
Qed.

(** One separator, none of its first character around it: two pieces. *)
Lemma split_once (c0 : ascii) (sep' pre post : string) :
  DataUrl.free_of c0 pre = true -> DataUrl.free_of c0 post = true ->
  JsString.split (String c0 sep') (pre ++ String c0 sep' ++ post) = [pre; post].
Proof.
  intros Hpre Hpost. unfold JsString.split.
  rewrite split_aux_free by assumption. cbn [String.append JsString.split_aux].
  pose proof (prefix_append (String c0 sep') post) as Hp.
  cbn [String.append] in Hp. rewrite Hp.
  cbn [String.length Nat.sub]. rewrite Nat.sub_0_r, split_aux_skip.
  rewrite <- (append_nil_r post) at 1. rewrite split_aux_free by assumption.
  reflexivity.
Qed.

(** No separator: one piece. *)
Lemma split_aux_absent (sep s : string) : forall cur,
  JsString.includes sep s = false ->
  JsString.split_aux sep 0 cur s = [(cur ++ s)%string].
Proof.
  induction s as [|c s IH]; intros cur H.
  - cbn [JsString.split_aux]. rewrite append_nil_r. reflexivity.
  - cbn [JsString.includes] in H. apply Bool.orb_false_iff in H. destruct H as [Hp Hs].
    cbn [JsString.split_aux]. rewrite Hp, IH by assumption.
    rewrite append_assoc. reflexivity.
Qed.

(* ===================================================================== *)
(** * [atob] after [btoa] *)
(* ===================================================================== *)

Lemma string_ind3 (P : string -> Prop) :
  P EmptyString ->
  (forall a, P (String a EmptyString)) ->
  (forall a b, P (String a (String b EmptyString))) ->
  (forall a b c rest, P rest -> P (String a (String b (String c rest)))) ->
  forall s, P s.
Proof.
  intros H0 H1 H2 H3.
  assert (H : forall s, P s /\ (forall a, P (String a s))
                        /\ (forall a b, P (String a (String b s)))).
  { induction s as [|c s [IH0 [IH1 IH2]]]; [auto|].
    split; [apply IH1|]. split; [intros a; apply IH2|]. intros a b. apply H3, IH0. }
  intros s. apply H.
Qed.

Lemma btoa_parts (raw : string) :
  DataUrl.btoa raw
  = (DataUrl.chars (DataUrl.sextets_of raw) ++ DataUrl.padding raw)%string.
Proof.
  induction raw as [|a|a b|a b c rest IH] using string_ind3; try reflexivity.
  cbn [DataUrl.btoa DataUrl.sextets_of DataUrl.chars DataUrl.padding String.append].
  rewrite IH. reflexivity.
Qed.

(** What matters about the 64 characters of the alphabet. *)
Lemma alphabet_facts (v : N) :
  (v < 64)%N ->
  Base64.sextet (DataUrl.alphabet v) = Some v
  /\ Base64.is_space (DataUrl.alphabet v) = false
  /\ Ascii.eqb (DataUrl.alphabet v) "=" = false
  /\ Ascii.eqb (DataUrl.alphabet v) ";" = false.
Proof.
  intros Hv.
  assert (Hall : forallb
            (fun n => let a := DataUrl.alphabet (N.of_nat n) in
                      match Base64.sextet a with
                      | Some w => N.eqb w (N.of_nat n)
                      | None => false
                      end && negb (Base64.is_space a)
                      && negb (Ascii.eqb a "=") && negb (Ascii.eqb a ";"))
            (seq 0 64) = true) by (vm_compute; reflexivity).
  rewrite forallb_forall in Hall.
  specialize (Hall (N.to_nat v)). rewrite N2Nat.id in Hall. cbv zeta in Hall.
  assert (Hin : In (N.to_nat v) (seq 0 64)) by (apply in_seq; lia).
  specialize (Hall Hin).
  repeat (apply Bool.andb_true_iff in Hall; destruct Hall as [Hall ?]).
  destruct (Base64.sextet (DataUrl.alphabet v)) as [w|]; [|discriminate].
  apply N.eqb_eq in Hall. subst w.
  repeat match goal with H : negb _ = true |- _ => apply Bool.negb_true_iff in H end.
  auto.
Qed.

Lemma sextets_of_range (raw : string) :
  Forall (fun v => (v < 64)%N) (DataUrl.sextets_of raw).
Proof.
  induction raw as [|a|a b|a b c rest IH] using string_ind3;
    cbn [DataUrl.sextets_of]; cbv zeta.
  - constructor.
  - pose proof (N_ascii_bounded a).
    repeat constructor; try (apply N.mod_lt; discriminate).
    apply N.Div0.div_lt_upper_bound; lia.
  - pose proof (N_ascii_bounded a). pose proof (N_ascii_bounded b).
    repeat constructor; try (apply N.mod_lt; discriminate).
    apply N.Div0.div_lt_upper_bound; lia.
  - pose proof (N_ascii_bounded a). pose proof (N_ascii_bounded b).
    pose proof (N_ascii_bounded c).
    repeat (constructor; try (apply N.mod_lt; discriminate)); [|exact IH].
    apply N.Div0.div_lt_upper_bound; lia.
Qed.

Lemma chars_length (l : list N) : String.length (DataUrl.chars l) = List.length l.
Proof. induction l as [|v l IH]; [reflexivity|]. cbn. rewrite IH. reflexivity. Qed.

Lemma append_length (s t : string) :
  String.length (s ++ t) = (String.length s + String.length t)%nat.
Proof. induction s as [|c s IH]; [reflexivity|]. cbn. rewrite IH. reflexivity. Qed.

Lemma chars_free (l : list N) :
  Forall (fun v => (v < 64)%N) l ->
  DataUrl.free_of "=" (DataUrl.chars l) = true
  /\ DataUrl.free_of ";" (DataUrl.chars l) = true
  /\ Base64.strip_space (DataUrl.chars l) = DataUrl.chars l
  /\ Base64.sextets (DataUrl.chars l) = Some l.
Proof.
  induction 1 as [|v l Hv _ [IH1 [IH2 [IH3 IH4]]]]; [repeat split|].
  destruct (alphabet_facts v Hv) as [F1 [F2 [F3 F4]]].
  cbn [DataUrl.chars DataUrl.free_of Base64.strip_space Base64.sextets].
  rewrite F1, F2, F3, F4, IH1, IH2, IH3, IH4. repeat split.
Qed.

(** Length of the encoding: a multiple of four, whose unpadded part never
    leaves a single character over. *)
Lemma btoa_lengths (raw : string) :
  ((List.length (DataUrl.sextets_of raw) + String.length (DataUrl.padding raw)) mod 4 = 0
   /\ List.length (DataUrl.sextets_of raw) mod 4 <> 1
   /\ (DataUrl.padding raw = "" \/ DataUrl.padding raw = "=" \/ DataUrl.padding raw = "=="))%nat%string.
Proof.
  induction raw as [|a|a b|a b c rest [IH1 [IH2 IH3]]] using string_ind3;
    try (cbn; repeat split; auto; discriminate).
  cbn [DataUrl.sextets_of DataUrl.padding List.length]. cbv zeta. cbn [List.length].
  set (n := List.length (DataUrl.sextets_of rest)) in *.
  replace (S (S (S (S n))) + String.length (DataUrl.padding rest))%nat
    with ((n + String.length (DataUrl.padding rest)) + 1 * 4)%nat by lia.
  replace (S (S (S (S n)))) with (n + 1 * 4)%nat by lia.
  rewrite !Nat.Div0.mod_add. auto.
Qed.

Lemma substring_append_skip (a b : string) (m : nat) :
  substring (String.length a) m (a ++ b) = substring 0 m b.
Proof. induction a as [|c a IH]; [reflexivity|]. cbn. exact IH. Qed.

Lemma substring_append_take (a b : string) :
  substring 0 (String.length a) (a ++ b) = a.
Proof.
  induction a as [|c a IH]; [destruct b; reflexivity|]. cbn. rewrite IH. reflexivity.
Qed.

Lemma free_of_substring (x : ascii) (s : string) : forall i m,
  DataUrl.free_of x s = true -> DataUrl.free_of x (substring i m s) = true.
Proof.
  induction s as [|c s IH]; intros i m H.
  - destruct i, m; reflexivity.
  - cbn [DataUrl.free_of] in H. apply Bool.andb_true_iff in H. destruct H as [Hc Hs].
    destruct i as [|i]; [destruct m as [|m]|]; cbn [substring]; [reflexivity| |auto].
    cbn [DataUrl.free_of]. rewrite Hc. cbn [andb]. auto.
Qed.

(** Inside a string free of [x], a stretch that starts before its end
    starts with a character other than [x], whatever follows the string. *)
Lemma substring_head_free (x : ascii) (c : string) : forall i m p,
  (i < String.length c)%nat -> DataUrl.free_of x c = true ->
  exists y r, substring i (S m) (c ++ p) = String y r /\ Ascii.eqb y x = false.
Proof.
  induction c as [|z c IH]; intros i m p Hi Hfree; [cbn in Hi; lia|].
  cbn [DataUrl.free_of] in Hfree. apply Bool.andb_true_iff in Hfree.
  destruct Hfree as [Hz Hc]. apply Bool.negb_true_iff in Hz.
  destruct i as [|i]; cbn [String.append substring].
  - eauto.
  - apply IH; [cbn in Hi; lia|assumption].
Qed.

Lemma eqb_of_free (x : ascii) (s t : string) :
  DataUrl.free_of x s = true -> DataUrl.free_of x t = false -> String.eqb s t = false.
Proof.
  intros Hs Ht. destruct (String.eqb s t) eqn:E; [|reflexivity].
  apply String.eqb_eq in E. congruence.
Qed.

(** The padding comes off, and nothing else. *)
Lemma strip_padding_spec (c pad : string) :
  ((String.length c + String.length pad) mod 4 = 0)%nat ->
  DataUrl.free_of "=" c = true ->
  (pad = "" \/ pad = "=" \/ pad = "==")%string ->
  Base64.strip_padding (c ++ pad) = c.
Proof.
  intros Hlen Hfree Hpad. unfold Base64.strip_padding.
  rewrite append_length, Hlen. cbn [Nat.eqb].
  destruct Hpad as [->|[->| ->]]; cbn [String.length] in *.
  - rewrite append_nil_r, Nat.add_0_r.
    rewrite (eqb_of_free "=" _ "==") by (auto using free_of_substring).
    rewrite (eqb_of_free "=" _ "=") by (auto using free_of_substring).
    reflexivity.
  - assert (Hc : (1 <= String.length c)%nat).
    { destruct (String.length c); [cbn in Hlen; discriminate|lia]. }
    destruct (substring_head_free "=" c (String.length c + 1 - 2) 1 "=" ltac:(lia) Hfree)
      as [y [r [-> Hy]]].
    cbn [String.eqb]. rewrite Hy. cbn [andb].
    replace (String.length c + 1 - 1)%nat with (String.length c) by lia.
    rewrite substring_append_skip, substring_append_take. reflexivity.
  - replace (String.length c + 2 - 2)%nat with (String.length c) by lia.
    rewrite substring_append_skip, substring_append_take. reflexivity.
Qed.

Lemma div_by_parts (q r d : N) : (r < d)%N -> ((q * d + r) / d = q)%N.
Proof. intros H. symmetry. apply N.div_unique with r; [assumption|lia]. Qed.

Lemma mod_by_parts (q r d : N) : (r < d)%N -> ((q * d + r) mod d = r)%N.
Proof. intros H. symmetry. apply N.mod_unique with q; [assumption|lia]. Qed.

Lemma chr_of_ascii (a : ascii) : Base64.chr (N_of_ascii a) = a.
Proof.
  unfold Base64.chr. rewrite N.mod_small by apply N_ascii_bounded.
  apply ascii_N_embedding.
Qed.

(** The sextets of three bytes put back together. *)
Lemma regroup (w : N) :
  (w / 262144 * 262144 + (w / 4096) mod 64 * 4096 + (w / 64) mod 64 * 64 + w mod 64 = w)%N.
Proof.
  pose proof (N.div_mod w 64 ltac:(discriminate)) as H1.
  pose proof (N.div_mod (w / 64) 64 ltac:(discriminate)) as H2.
  pose proof (N.div_mod (w / 4096) 64 ltac:(discriminate)) as H3.
  assert (E2 : (w / 64 / 64 = w / 4096)%N) by (rewrite N.Div0.div_div; reflexivity).
  assert (E3 : (w / 4096 / 64 = w / 262144)%N) by (rewrite N.Div0.div_div; reflexivity).
  rewrite E2 in H2. rewrite E3 in H3. lia.
Qed.

Lemma regroup2 (w : N) :
  (w / 4096 * 4096 + (w / 64) mod 64 * 64 + w mod 64 = w)%N.
Proof.
  pose proof (N.div_mod w 64 ltac:(discriminate)) as H1.
  pose proof (N.div_mod (w / 64) 64 ltac:(discriminate)) as H2.
  assert (E2 : (w / 64 / 64 = w / 4096)%N) by (rewrite N.Div0.div_div; reflexivity).
  rewrite E2 in H2. lia.
Qed.

Lemma regroup1 (w : N) : (w / 64 * 64 + w mod 64 = w)%N.
Proof. pose proof (N.div_mod w 64 ltac:(discriminate)). lia. Qed.

Lemma bytes_of_sextets_of (raw : string) :
  Base64.bytes_of_sextets (DataUrl.sextets_of raw) = raw.
Proof.
  induction raw as [|a|a b|a b c rest IH] using string_ind3; [reflexivity| | |].
  - cbn [DataUrl.sextets_of Base64.bytes_of_sextets]. cbv zeta.
    rewrite regroup1.
    replace (N_of_ascii a * 16 / 16)%N with (N_of_ascii a) by (rewrite N.div_mul; [reflexivity|discriminate]).
    rewrite chr_of_ascii. reflexivity.
  - cbn [DataUrl.sextets_of Base64.bytes_of_sextets]. cbv zeta.
    rewrite regroup2.
    pose proof (N_ascii_bounded a) as Ha. pose proof (N_ascii_bounded b) as Hb.
    assert (H1 : ((N_of_ascii a * 1024 + N_of_ascii b * 4) / 1024 = N_of_ascii a)%N)
      by (apply div_by_parts; lia).
    assert (H2 : ((N_of_ascii a * 1024 + N_of_ascii b * 4) / 4
                  = N_of_ascii a * 256 + N_of_ascii b)%N).
    { replace (N_of_ascii a * 1024 + N_of_ascii b * 4)%N
        with ((N_of_ascii a * 256 + N_of_ascii b) * 4 + 0)%N by lia.
      apply div_by_parts. lia. }
    rewrite H1, H2. unfold Base64.chr at 2. rewrite mod_by_parts by assumption.
    rewrite chr_of_ascii, ascii_N_embedding. reflexivity.
  - cbn [DataUrl.sextets_of Base64.bytes_of_sextets]. cbv zeta.
    rewrite regroup, IH.
    pose proof (N_ascii_bounded a) as Ha. pose proof (N_ascii_bounded b) as Hb.
    pose proof (N_ascii_bounded c) as Hc.
    set (w := (N_of_ascii a * 65536 + N_of_ascii b * 256 + N_of_ascii c)%N).
    assert (H1 : (w / 65536 = N_of_ascii a)%N).
    { unfold w. rewrite <- N.add_assoc. apply div_by_parts. lia. }
    assert (H2 : (w / 256 = N_of_ascii a * 256 + N_of_ascii b)%N).
    { unfold w.
      replace (N_of_ascii a * 65536 + N_of_ascii b * 256 + N_of_ascii c)%N
        with ((N_of_ascii a * 256 + N_of_ascii b) * 256 + N_of_ascii c)%N by lia.
      apply div_by_parts. assumption. }
    assert (H3 : (w mod 256 = N_of_ascii c)%N).
    { unfold w.
      replace (N_of_ascii a * 65536 + N_of_ascii b * 256 + N_of_ascii c)%N
        with ((N_of_ascii a * 256 + N_of_ascii b) * 256 + N_of_ascii c)%N by lia.
      apply mod_by_parts. assumption. }
    rewrite H1, H2. unfold Base64.chr at 2 3. rewrite H3, mod_by_parts by assumption.
    rewrite chr_of_ascii, !ascii_N_embedding. reflexivity.
Qed.

(** The round trip: [atob(btoa(raw))] is [raw]. *)
Lemma decode_btoa (raw : string) : Base64.decode (DataUrl.btoa raw) = Some raw.
Proof.
  unfold Base64.decode. rewrite btoa_parts.
  pose proof (sextets_of_range raw) as Hrange.
  destruct (chars_free _ Hrange) as [Feq [_ [Fsp Fsx]]].
  destruct (btoa_lengths raw) as [L1 [L2 L3]].
  assert (Hsp : Base64.strip_space
                  (DataUrl.chars (DataUrl.sextets_of raw) ++ DataUrl.padding raw)
                = (DataUrl.chars (DataUrl.sextets_of raw) ++ DataUrl.padding raw)%string).
  { clear - Hrange L3. induction Hrange as [|v l Hv _ IH].
    - destruct L3 as [->|[->| ->]]; reflexivity.
    - destruct (alphabet_facts v Hv) as [_ [F2 _]].
      cbn [DataUrl.chars String.append Base64.strip_space]. rewrite F2, IH. reflexivity. }
  rewrite Hsp, strip_padding_spec; [| rewrite chars_length; assumption | assumption | assumption].
  rewrite chars_length.
  destruct (Nat.eqb_spec (List.length (DataUrl.sextets_of raw) mod 4) 1) as [E|_];
    [contradiction|].
  rewrite Fsx, bytes_of_sextets_of. reflexivity.
Qed.

Lemma bytes_of_raw (bytes : list Byte.byte) :
  map byte_of_ascii (list_ascii_of_string (DataUrl.raw_of_bytes bytes)) = bytes.
Proof.
  unfold DataUrl.raw_of_bytes. rewrite list_ascii_of_string_of_list_ascii, map_map.
  induction bytes as [|b l IH]; [reflexivity|].
  cbn [map]. rewrite byte_of_ascii_of_byte, IH. reflexivity.
Qed.

Lemma free_of_append (x : ascii) (s t : string) :
  DataUrl.free_of x (s ++ t) = DataUrl.free_of x s && DataUrl.free_of x t.
Proof.
  induction s as [|c s IH]; [reflexivity|].
  cbn [String.append DataUrl.free_of]. rewrite IH, Bool.andb_assoc. reflexivity.
Qed.

Lemma btoa_free_of_semicolon (raw : string) :
  DataUrl.free_of ";" (DataUrl.btoa raw) = true.
Proof.
  rewrite btoa_parts, free_of_append.
  destruct (chars_free _ (sextets_of_range raw)) as [_ [-> _]].
  destruct (btoa_lengths raw) as [_ [_ [->|[->| ->]]]]; reflexivity.
Qed.

Lemma dataUrlToBlob_make (type : string) (bytes : list Byte.byte) :
  DataUrl.free_of ";" type = true -> DataUrl.free_of ":" type = true ->
  dataUrlToBlob (DataUrl.make type bytes) = Some (new_Blob bytes (Some type)).
Proof.
  intros Hsemi Hcolon. unfold dataUrlToBlob, DataUrl.make.
  assert (Hparts : JsString.split ";base64," ("data:" ++ type ++ ";base64,"
                                              ++ DataUrl.btoa (DataUrl.raw_of_bytes bytes))
                   = [("data:" ++ type)%string; DataUrl.btoa (DataUrl.raw_of_bytes bytes)]).
  { rewrite <- (append_assoc "data:" type).
    apply (split_once ";" "base64," ("data:" ++ type)).
    - rewrite free_of_append, Hsemi. reflexivity.
    - apply btoa_free_of_semicolon. }
  rewrite Hparts. unfold JsString.at_index. cbn [nth_error JsString.to_string].
  assert (Htype : JsString.split ":" ("data:" ++ type) = ["data"%string; type]).
  { apply (split_once ":" "" "data" type); [reflexivity|assumption]. }
  rewrite Htype. cbn [nth_error].
  unfold Base64.atob. cbn [JsString.to_string]. rewrite decode_btoa.
  rewrite bytes_of_raw. reflexivity.
Qed.

(** X1: lines 169-179 recover from a base64 data URL exactly the bytes it
    encodes, and its media type in lower case. *)
Theorem data_url_round_trip (type : string) (bytes : list Byte.byte) :
  DataUrl.free_of ";" type = true -> DataUrl.free_of ":" type = true ->
  exists blob,
    dataUrlToBlob (DataUrl.make type bytes) = Some blob
    /\ blob_bytes blob = bytes
    /\ blob_size blob = Z.of_nat (List.length bytes)
    /\ blob_type blob = (if printable type then lowercase type else EmptyString).
Proof.
  intros Hsemi Hcolon. rewrite dataUrlToBlob_make by assumption.
  eexists. split; [reflexivity|].
  unfold new_Blob, blob_size. cbn [blob_bytes blob_type]. repeat split.
Qed.

Lemma data_url_round_trip_witness :
  exists blob,
    dataUrlToBlob "data:image/jpeg;base64,/9j/4A==" = Some blob
    /\ blob_bytes blob = [Byte.xff; Byte.xd8; Byte.xff; Byte.xe0].
Proof.
  destruct (data_url_round_trip "image/jpeg" [Byte.xff; Byte.xd8; Byte.xff; Byte.xe0]
              eq_refl eq_refl) as [blob [H1 [H2 _]]].
  exists blob. split; assumption.
Defined.

(** X2: a data URL without the marker [;base64,] makes line 172 throw:
    [parts[1]] is [undefined], and [atob(undefined)] is not valid base64. *)
Theorem data_url_without_marker (url : string) :
  JsString.includes ";base64," url = false -> dataUrlToBlob url = None.
Proof.
  intros H. unfold dataUrlToBlob, JsString.split.
  rewrite split_aux_absent by assumption. reflexivity.
Qed.

Lemma data_url_without_marker_witness :
  dataUrlToBlob "data:text/plain,hello" = None.
Proof. apply data_url_without_marker. reflexivity. Defined.

(* ===================================================================== *)
(** * The canvas, for every image *)
(* ===================================================================== *)

Lemma canvasSize_small (width height : Z) :
  width <= 1920 -> height <= 1920 -> canvasSize width height = (width, height).
Proof.
  intros Hw Hh. unfold canvasSize, MAX_DIMENSION.
  assert ((width >? 1920) = false) as -> by (rewrite Z.gtb_ltb; apply Z.ltb_ge; lia).
  assert ((height >? 1920) = false) as -> by (rewrite Z.gtb_ltb; apply Z.ltb_ge; lia).
  reflexivity.
Qed.

(** Both sides of the canvas of a large image, against exact scaling. *)
Lemma canvasSize_scaled (width height : Z) :
  1 <= width < 2 ^ 32 -> 1 <= height < 2 ^ 32 -> 1920 < Z.max width height ->
  let M := Z.max width height in
  let cw := fst (canvasSize width height) in
  let ch := snd (canvasSize width height) in
  width * 1920 / M - 1 <= cw <= width * 1920 / M
  /\ height * 1920 / M - 1 <= ch <= height * 1920 / M
  /\ ((width * 1920) mod M <> 0 -> cw = width * 1920 / M)
  /\ ((height * 1920) mod M <> 0 -> ch = height * 1920 / M).
Proof.
  intros Hw Hh Hbig. cbv zeta.
  assert (Hsize : canvasSize width height
                  = (JsNumber.to_unsigned_long
                       (JsNumber.mul (JsNumber.of_Z width)
                          (JsNumber.min
                             (JsNumber.div (JsNumber.of_Z 1920) (JsNumber.of_Z width))
                             (JsNumber.div (JsNumber.of_Z 1920) (JsNumber.of_Z height)))),
                     JsNumber.to_unsigned_long
                       (JsNumber.mul (JsNumber.of_Z height)
                          (JsNumber.min
                             (JsNumber.div (JsNumber.of_Z 1920) (JsNumber.of_Z width))
                             (JsNumber.div (JsNumber.of_Z 1920) (JsNumber.of_Z height)))))).
  { unfold canvasSize, MAX_DIMENSION.
    assert (((width >? 1920) || (height >? 1920)) = true) as ->; [|reflexivity].
    apply Bool.orb_true_iff. rewrite !Z.gtb_ltb, !Z.ltb_lt. lia. }
  rewrite Hsize. cbn [fst snd].
  destruct (ratio_spec width height Hw Hh) as [m [e [Er [Cr [Rr [L U]]]]]].
  unfold MAX_DIMENSION in Er. rewrite Er.
  set (M := Z.max width height) in *.
  destruct (scaled_side width M m e ltac:(unfold M; lia) ltac:(unfold M; lia) Cr Rr L U)
    as [Bw Ew].
  destruct (scaled_side height M m e ltac:(unfold M; lia) ltac:(unfold M; lia) Cr Rr L U)
    as [Bh Eh].
  cbv zeta in Bw, Ew, Bh, Eh. auto.
Qed.

Lemma scaled_le (s M : Z) : 1 <= s <= M -> 1920 < M -> s * 1920 / M <= Z.min s 1920.
Proof.
  intros Hs HM. apply Z.min_glb.
  - apply Z.div_le_upper_bound; [lia|]. nia.
  - apply Z.div_le_upper_bound; [lia|]. nia.
Qed.

Lemma canvasSize_nonneg (width height : Z) :
  0 <= width -> 0 <= height ->
  0 <= fst (canvasSize width height) /\ 0 <= snd (canvasSize width height).
Proof.
  intros Hw Hh. unfold canvasSize.
  destruct ((width >? MAX_DIMENSION) || (height >? MAX_DIMENSION)); cbn [fst snd];
    [|lia].
  unfold JsNumber.to_unsigned_long.
  split; match goal with |- 0 <= match ?x with _ => _ end =>
           destruct x; try lia; apply Z.mod_pos_bound; reflexivity end.
Qed.

(** X3: the canvas is never larger than the image, never larger than
    1920 x 1920, and sizing it again changes nothing. *)
Theorem canvas_never_grows (width height : Z) :
  1 <= width < 2 ^ 32 -> 1 <= height < 2 ^ 32 ->
  let cw := fst (canvasSize width height) in
  let ch := snd (canvasSize width height) in
  0 <= cw <= Z.min width 1920
  /\ 0 <= ch <= Z.min height 1920
  /\ canvasSize cw ch = (cw, ch).
Proof.
  intros Hw Hh. cbv zeta.
  assert (Hb : 0 <= fst (canvasSize width height) <= Z.min width 1920
               /\ 0 <= snd (canvasSize width height) <= Z.min height 1920).
  { destruct (canvasSize_nonneg width height ltac:(lia) ltac:(lia)) as [N1 N2].
    destruct (Z_le_gt_dec (Z.max width height) 1920) as [Hsmall|Hbig].
    - rewrite canvasSize_small by lia. cbn [fst snd]. lia.
    - destruct (canvasSize_scaled width height Hw Hh ltac:(lia)) as [[_ Bw] [[_ Bh] _]].
      pose proof (scaled_le width (Z.max width height) ltac:(lia) ltac:(lia)).
      pose proof (scaled_le height (Z.max width height) ltac:(lia) ltac:(lia)).
      lia. }
  destruct Hb as [Bw Bh]. split; [assumption|]. split; [assumption|].
  apply canvasSize_small; lia.
Qed.

Lemma canvas_never_grows_witness :
  fst (canvasSize 4000 3000) <= 1920 /\ snd (canvasSize 4000 3000) <= 1920
  /\ canvasSize (fst (canvasSize 4000 3000)) (snd (canvasSize 4000 3000))
     = canvasSize 4000 3000.
Proof.
  destruct (canvas_never_grows 4000 3000 ltac:(simpl; lia) ltac:(simpl; lia))
    as [H1 [H2 H3]].
  split; [lia|]. split; [lia|]. rewrite H3. vm_compute. reflexivity.
Defined.

(** X4: the canvas keeps the orientation of the image: the shorter side
    stays the shorter one, and a square stays a square. *)
Theorem canvas_keeps_orientation (width height : Z) :
  1 <= width < 2 ^ 32 -> 1 <= height < 2 ^ 32 ->
  (width <= height -> fst (canvasSize width height) <= snd (canvasSize width height))
  /\ (height <= width -> snd (canvasSize width height) <= fst (canvasSize width height)).
Proof.
  intros Hw Hh.
  destruct (Z_le_gt_dec (Z.max width height) 1920) as [Hsmall|Hbig].
  - rewrite canvasSize_small by lia. cbn [fst snd]. lia.
  - destruct (Z.eq_dec width height) as [->|Hne].
    + assert (fst (canvasSize height height) = snd (canvasSize height height)).
      { unfold canvasSize. destruct ((height >? MAX_DIMENSION) || (height >? MAX_DIMENSION));
          reflexivity. }
      lia.
    + destruct (canvasSize_scaled width height Hw Hh ltac:(lia)) as [Bw [Bh _]].
      cbv zeta in Bw, Bh.
      assert (Hfull : forall M, 0 < M -> M * 1920 / M = 1920)
        by (intros M HM; rewrite Z.mul_comm; apply Z.div_mul; lia).
      assert (Hless : forall s M, 1 <= s < M -> s * 1920 / M <= 1919).
      { intros s M Hs. assert (s * 1920 / M < 1920); [|lia].
        apply Z.div_lt_upper_bound; [lia|]. nia. }
      split; intros Hle.
      * rewrite Z.max_r in Bw, Bh by lia. rewrite Hfull in Bh by lia.
        specialize (Hless width height ltac:(lia)). lia.
      * rewrite Z.max_l in Bw, Bh by lia. rewrite Hfull in Bw by lia.
        specialize (Hless height width ltac:(lia)). lia.
Qed.

Lemma canvas_keeps_orientation_witness :
  fst (canvasSize 3000 4000) <= snd (canvasSize 3000 4000).
Proof.
  exact (proj1 (canvas_keeps_orientation 3000 4000 ltac:(simpl; lia) ltac:(simpl; lia))
               ltac:(lia)).
Defined.

(** A side more than 1920 times shorter than the other gets no pixel; a
    side less than 1920 times shorter keeps at least one. *)
Lemma canvas_side_zero (width height : Z) :
  1 <= width < 2 ^ 32 -> 1 <= height < 2 ^ 32 ->
  1920 * Z.min width height < Z.max width height ->
  fst (canvasSize width height) = 0 \/ snd (canvasSize width height) = 0.
Proof.
  intros Hw Hh Hthin.
  destruct (canvasSize_scaled width height Hw Hh ltac:(lia)) as [_ [_ [Ew Eh]]].
  cbv zeta in Ew, Eh.
  destruct (Z_le_gt_dec width height) as [Hle|Hgt].
  - left. rewrite Z.max_r, Z.min_l in * by lia.
    rewrite Ew.
    + apply Z.div_small. lia.
    + rewrite Z.mod_small by lia. lia.
  - right. rewrite Z.max_l, Z.min_r in * by lia.
    rewrite Eh.
    + apply Z.div_small. lia.
    + rewrite Z.mod_small by lia. lia.
Qed.

Lemma canvas_side_positive (width height : Z) :
  1 <= width < 2 ^ 32 -> 1 <= height < 2 ^ 32 ->
  (width <= 1920 /\ height <= 1920) \/ Z.max width height < 1920 * Z.min width height ->
  1 <= fst (canvasSize width height) /\ 1 <= snd (canvasSize width height).
Proof.
  intros Hw Hh [[Hsw Hsh]|Hratio].
  - rewrite canvasSize_small by assumption. cbn [fst snd]. lia.
  - destruct (Z_le_gt_dec (Z.max width height) 1920) as [Hsmall|Hbig].
    { rewrite canvasSize_small by lia. cbn [fst snd]. lia. }
    destruct (canvasSize_scaled width height Hw Hh ltac:(lia)) as [Bw [Bh [Ew Eh]]].
    cbv zeta in Bw, Bh, Ew, Eh.
    set (M := Z.max width height) in *.
    assert (Hside : forall s t, Z.min width height <= s ->
                      s * 1920 / M - 1 <= t ->
                      ((s * 1920) mod M <> 0 -> t = s * 1920 / M) -> 1 <= t).
    { intros s t Hs Ht Hex.
      assert (HK : 1 <= s * 1920 / M) by (apply Z.div_le_lower_bound; lia).
      destruct (Z.eq_dec ((s * 1920) mod M) 0) as [Hz|Hnz].
      - assert (2 <= s * 1920 / M); [|lia].
        pose proof (Z.div_mod (s * 1920) M ltac:(lia)) as Hdm. rewrite Hz in Hdm.
        destruct (Z_le_gt_dec 2 (s * 1920 / M)); [assumption|exfalso].
        assert (s * 1920 / M = 1) by lia. nia.
      - rewrite (Hex Hnz). assumption. }
    split; [apply (Hside width)|apply (Hside height)]; try lia; assumption.
Qed.

(* ===================================================================== *)
(** * How a call of [compressImage] ends *)
(* ===================================================================== *)

Lemma processFiles_finished (env : Browser) (files : list File) :
  snd (processFiles env files) = forallb (settles env) (filter supported files).
Proof.
  destruct (filter supported files) as [|f l] eqn:E.
  - destruct files as [|g rest]; [reflexivity|].
    rewrite processFiles_none_supported by (auto; discriminate). reflexivity.
  - rewrite processFiles_some_supported by (rewrite E; discriminate).
    rewrite E. cbn [snd]. apply processLoop_finished.
Qed.

(** X5: an image more than 1920 times longer than it is wide (or the
    reverse) leaves the promise of [compressImage] pending for ever,
    whatever the encoder, and a batch that contains it never completes. *)
Theorem thin_image_never_settles (env : Browser) (file : File) (url : string)
    (width height : Z) :
  supported file = true ->
  readAsDataURL env file = Some url -> loadImage env url = Some (width, height) ->
  1 <= width < 2 ^ 32 -> 1 <= height < 2 ^ 32 ->
  1920 * Z.min width height < Z.max width height ->
  snd (compressImage env file) = Pending
  /\ (forall files, In file files -> snd (processFiles env files) = false).
Proof.
  intros Hs Hread Hload Hw Hh Hthin.
  assert (Hpend : snd (compressImage env file) = Pending).
  { unfold compressImage. rewrite Hread, Hload.
    pose proof (canvas_side_zero width height Hw Hh Hthin) as Hzero.
    destruct (canvasSize width height) as [cw ch]. cbn [fst snd] in Hzero.
    apply supported_encodeSettings in Hs.
    destruct (encodeSettings (file_type file)) as [[m q]|]; [|contradiction].
    assert (Hurl : toDataURL env (mkCanvas cw ch url) m q = "data:,"%string).
    { unfold toDataURL. cbn [canvas_width canvas_height].
      destruct Hzero as [-> | ->]; [reflexivity|].
      rewrite Bool.orb_true_r. reflexivity. }
    rewrite Hurl. reflexivity. }
  split; [assumption|].
  intros files Hin. rewrite processFiles_finished.
  destruct (forallb (settles env) (filter supported files)) eqn:E; [|reflexivity].
  rewrite forallb_forall in E.
  specialize (E file ltac:(apply filter_In; auto)).
  unfold settles in E. rewrite Hpend in E. discriminate.
Qed.

Lemma thin_image_never_settles_witness :
  snd (compressImage Sample.browser Sample.strip) = Pending
  /\ snd (processFiles Sample.browser [Sample.photo; Sample.strip]) = false.
Proof.
  destruct (thin_image_never_settles Sample.browser Sample.strip "strip.jpg" 1921 1
              eq_refl eq_refl eq_refl ltac:(simpl; lia) ltac:(simpl; lia)
              ltac:(simpl; lia)) as [H1 H2].
  split; [exact H1|]. apply H2. right. left. reflexivity.
Defined.

(** X6: when the encoder answers with a base64 data URL and the image is
    less than 1920 times longer than wide (or fits in 1920 x 1920),
    [compressImage] resolves, with the smaller of the encoded and the
    original size; the bytes are the encoded ones when they are strictly
    fewer, the original ones otherwise. *)
Theorem conforming_encoder_resolves (env : Browser) (file : File) (url : string)
    (width height : Z) (type : string) (bytes : list Byte.byte) :
  supported file = true ->
  readAsDataURL env file = Some url -> loadImage env url = Some (width, height) ->
  1 <= width < 2 ^ 32 -> 1 <= height < 2 ^ 32 ->
  (width <= 1920 /\ height <= 1920) \/ Z.max width height < 1920 * Z.min width height ->
  DataUrl.free_of ";" type = true -> DataUrl.free_of ":" type = true ->
  (forall mimeType quality,
      encodeSettings (file_type file) = Some (mimeType, quality) ->
      encodeCanvas env
        (mkCanvas (fst (canvasSize width height)) (snd (canvasSize width height)) url)
        mimeType quality
      = DataUrl.make type bytes) ->
  exists r,
    snd (compressImage env file) = Resolved r
    /\ compressedSize r = Z.min (Z.of_nat (List.length bytes)) (file_size file)
    /\ (Z.of_nat (List.length bytes) < file_size file ->
        blob_bytes (compressedBlob r) = bytes
        /\ compressedDataUrl r = DataUrl.make type bytes)
    /\ (file_size file <= Z.of_nat (List.length bytes) ->
        compressedBlob r = file_blob file /\ compressedDataUrl r = url).
Proof.
  intros Hs Hread Hload Hw Hh Hshape Hsemi Hcolon Henc.
  unfold compressImage. rewrite Hread, Hload.
  pose proof (canvas_side_positive width height Hw Hh Hshape) as [Pw Ph].
  destruct (canvasSize width height) as [cw ch]. cbn [fst snd] in *.
  apply supported_encodeSettings in Hs.
  destruct (encodeSettings (file_type file)) as [[m q]|]; [|contradiction].
  assert (Hurl : toDataURL env (mkCanvas cw ch url) m q = DataUrl.make type bytes).
  { unfold toDataURL. cbn [canvas_width canvas_height].
    assert ((cw =? 0) = false) as -> by (apply Z.eqb_neq; lia).
    assert ((ch =? 0) = false) as -> by (apply Z.eqb_neq; lia).
    apply Henc. reflexivity. }
  rewrite Hurl, dataUrlToBlob_make by assumption.
  assert (Hsize : blob_size (new_Blob bytes (Some type)) = Z.of_nat (List.length bytes))
    by reflexivity.
  rewrite Hsize.
  destruct (Z.of_nat (List.length bytes) >=? file_size file) eqn:E;
    rewrite Z.geb_leb in E; [apply Z.leb_le in E|apply Z.leb_gt in E];
    eexists; (split; [reflexivity|]); cbn [compressedSize compressedBlob compressedDataUrl].
  - split; [lia|]. split; [lia|]. auto.
  - split; [lia|]. split; [|lia]. intros _. split; reflexivity.
Qed.

Lemma conforming_encoder_resolves_witness :
  exists r,
    snd (compressImage Sample.browser Sample.photo) = Resolved r
    /\ compressedSize r = 4.
Proof.
  destruct (conforming_encoder_resolves Sample.browser Sample.photo "photo.jpg" 640 480
              "image/jpeg" [Byte.xff; Byte.xd8; Byte.xff; Byte.xe0]
              eq_refl eq_refl eq_refl ltac:(simpl; lia) ltac:(simpl; lia)
              ltac:(left; lia) eq_refl eq_refl)
    as [r [H1 [H2 _]]].
  - intros m q H. vm_compute in H. inversion H; subst. reflexivity.
  - exists r. split; [exact H1|exact H2].
Defined.

(** X7: [compressImage] rejects in three situations only, tested in this
    order, each with its own message: the file cannot be read, the image
    cannot be decoded, the type is not supported. *)
Theorem rejections_of_compressImage (env : Browser) (file : File) :
  (snd (compressImage env file) = Rejected "Failed to read file."%string
   <-> readAsDataURL env file = None)
  /\ (snd (compressImage env file) = Rejected "Failed to load image."%string
      <-> exists url, readAsDataURL env file = Some url /\ loadImage env url = None)
  /\ (snd (compressImage env file) = Rejected "Unsupported file format."%string
      <-> exists url size, readAsDataURL env file = Some url
                           /\ loadImage env url = Some size
                           /\ supported file = false)
  /\ (forall message, snd (compressImage env file) = Rejected message ->
        message = "Failed to read file."%string
        \/ message = "Failed to load image."%string
        \/ message = "Unsupported file format."%string).
Proof.
  unfold compressImage.
  destruct (readAsDataURL env file) as [url|] eqn:Hread.
  - destruct (loadImage env url) as [[w h]|] eqn:Hload.
    + destruct (canvasSize w h) as [cw ch].
      destruct (encodeSettings (file_type file)) as [[m q]|] eqn:Hset.
      * assert (Hsup : supported file = true)
          by (apply supported_encodeSettings; rewrite Hset; discriminate).
        assert (Hnot : forall message,
                   snd (match dataUrlToBlob (toDataURL env (mkCanvas cw ch url) m q) with
                        | Some b =>
                            if blob_size b >=? file_size file
                            then ([ReadFile; DecodeImage; DrawImage cw ch; EncodeCanvas m q],
                                  Resolved (mkCompressed url (file_blob file) (file_size file)))
                            else ([ReadFile; DecodeImage; DrawImage cw ch; EncodeCanvas m q],
                                  Resolved (mkCompressed
                                              (toDataURL env (mkCanvas cw ch url) m q) b
                                              (blob_size b)))
                        | None => ([ReadFile; DecodeImage; DrawImage cw ch; EncodeCanvas m q],
                                   Pending)
                        end) <> Rejected message).
        { intros message. destruct (dataUrlToBlob _) as [b|];
            [destruct (blob_size b >=? file_size file)|]; discriminate. }
        split; [split; [intros H; elim (Hnot _ H)|discriminate]|].
        split; [split; [intros H; elim (Hnot _ H)
                       |intros [u [Hu Hl]]; inversion Hu; subst; congruence]|].
        split; [split; [intros H; elim (Hnot _ H)
                       |intros [u [sz [_ [_ Hf]]]]; congruence]|].
        intros message H. elim (Hnot _ H).
      * assert (Hsup : supported file = false) by (apply unsupported_encodeSettings; assumption).
        cbn [snd].
        split; [split; discriminate|].
        split; [split; [discriminate|intros [u [Hu Hl]]; inversion Hu; subst; congruence]|].
        split; [split; [intros _; eauto|reflexivity]|].
        intros message H. inversion H. auto.
    + cbn [snd].
      split; [split; discriminate|].
      split; [split; [intros _; eauto|reflexivity]|].
      split; [split; [discriminate
                     |intros [u [sz [Hu [Hl _]]]]; inversion Hu; subst; congruence]|].
      intros message H. inversion H. auto.
  - cbn [snd].
    split; [split; reflexivity|].
    split; [split; [discriminate|intros [u [Hu _]]; discriminate]|].
    split; [split; [discriminate|intros [u [sz [Hu _]]]; discriminate]|].
    intros message H. inversion H. auto.
Qed.

(* ===================================================================== *)
(** * What a batch leaves on the page *)
(* ===================================================================== *)

Section LoopEffects.

Variable env : Browser.
Variable total : nat.

Ltac first_file file rest c :=
  let n := fresh "n" in
  let card := fresh "card" in
  let message := fresh "message" in
  let E := fresh "E" in
  rewrite ?(settles_entry env file);
  destruct (entry_of env file) as [[n card|n message]|] eqn:E;
  [ rewrite (processLoop_card env total file rest c n card E)
  | rewrite (processLoop_failed env total file rest c n message E);
    pose proof (entry_of_failed env file n message E); subst n
  | rewrite (processLoop_pending env total file rest c E) ].

Lemma processLoop_cards files : forall c,
  cards_of (fst (processLoop env total files c))
  = flat_map (fun f => card_of_entry (entry_of env f)) (settled_prefix env files).
Proof.
  induction files as [|f rest IH]; intros c; [reflexivity|].
  cbn [settled_prefix].
  first_file f rest c; cbn [snd fst cards_of flat_map];
    [| |reflexivity]; rewrite IH, E; reflexivity.
Qed.

Lemma processLoop_notices files : forall c,
  notices (fst (processLoop env total files c))
  = (flat_map (fun f => notice_of_entry (entry_of env f)) (settled_prefix env files)
     ++ if forallb (settles env) files
        then [completion_notice (c + List.length files)] else [])%list.
Proof.
  induction files as [|f rest IH]; intros c.
  - cbn. rewrite Nat.add_0_r. reflexivity.
  - cbn [settled_prefix forallb].
    first_file f rest c; cbn [snd fst notices flat_map andb];
      [| |reflexivity]; rewrite IH, E; cbn [notice_of_entry app List.length];
      replace (S c + List.length rest)%nat with (c + S (List.length rest))%nat by lia;
      reflexivity.
Qed.

Lemma processLoop_logged files : forall c,
  logged (fst (processLoop env total files c))
  = flat_map (fun f => log_of_entry (entry_of env f)) (settled_prefix env files).
Proof.
  induction files as [|f rest IH]; intros c; [reflexivity|].
  cbn [settled_prefix].
  first_file f rest c; cbn [snd fst logged flat_map];
    [| |reflexivity]; rewrite IH, E; cbn [log_of_entry app];
    reflexivity.
Qed.

Lemma processLoop_no_clear files : forall c,
  existsb clears (fst (processLoop env total files c)) = false.
Proof.
  induction files as [|f rest IH]; intros c; [reflexivity|].
  first_file f rest c; cbn [fst existsb clears orb]; auto.
Qed.

Lemma processLoop_page files : forall c p,
  let p' := run_effects p (fst (processLoop env total files c)) in
  resultsSection_hidden p' = resultsSection_hidden p
  /\ fileCountSpan p' = fileCountSpan p
  /\ progressIndicator_hidden p'
     = (if forallb (settles env) files then true else progressIndicator_hidden p)
  /\ progressBar_width p'
     = match settled_prefix env files with
       | [] => progressBar_width p
       | _ => Some (progressWidth (c + List.length (settled_prefix env files)) total)
       end.
Proof.
  induction files as [|f rest IH]; intros c p; cbv zeta.
  - cbn. auto.
  - cbn [settled_prefix forallb].
    first_file f rest c; cbn [fst andb]; [| |cbn; auto].
    + change (run_effects p (?a :: ?b :: ?c :: ?l))
        with (run_effects (apply_effect (apply_effect (apply_effect p a) b) c) l).
      match goal with |- context [run_effects ?q (fst (processLoop _ _ _ _))] =>
        destruct (IH (S c) q) as [H1 [H2 [H3 H4]]] end.
      rewrite H1, H2, H3, H4. cbn [apply_effect resultsSection_hidden fileCountSpan
        progressIndicator_hidden progressBar_width List.length].
      repeat split. destruct (settled_prefix env rest).
      * cbn. rewrite Nat.add_1_r. reflexivity.
      * replace (c + S (List.length (f0 :: l)))%nat with (S c + List.length (f0 :: l))%nat by lia.
        reflexivity.
    + change (run_effects p (?a :: ?b :: ?c :: ?d :: ?l))
        with (run_effects (apply_effect (apply_effect (apply_effect (apply_effect p a) b) c) d) l).
      match goal with |- context [run_effects ?q (fst (processLoop _ _ _ _))] =>
        destruct (IH (S c) q) as [H1 [H2 [H3 H4]]] end.
      rewrite H1, H2, H3, H4. cbn [apply_effect resultsSection_hidden fileCountSpan
        progressIndicator_hidden progressBar_width List.length].
      repeat split. destruct (settled_prefix env rest).
      * cbn. rewrite Nat.add_1_r. reflexivity.
      * replace (c + S (List.length (f0 :: l)))%nat with (S c + List.length (f0 :: l))%nat by lia.
        reflexivity.
Qed.

End LoopEffects.

(** How the effects act on each part of the page. *)
Lemma run_toasts (effects : list Effect) : forall p,
  toastContainer (run_effects p effects) = (toastContainer p ++ notices effects)%list
  /\ console (run_effects p effects) = (console p ++ logged effects)%list.
Proof.
  induction effects as [|e rest IH]; intros p.
  - cbn. rewrite !app_nil_r. auto.
  - change (run_effects p (e :: rest)) with (run_effects (apply_effect p e) rest).
    destruct (IH (apply_effect p e)) as [-> ->].
    destruct e; cbn [apply_effect toastContainer console notices logged];
      rewrite <- ?app_assoc; auto.
Qed.

Lemma run_results (effects : list Effect) : forall p,
  existsb clears effects = false ->
  resultsContainer (run_effects p effects) = (resultsContainer p ++ cards_of effects)%list
  /\ mobileResultsCarousel (run_effects p effects)
     = (mobileResultsCarousel p ++ map mobileCard (cards_of effects))%list.
Proof.
  induction effects as [|e rest IH]; intros p Hno.
  - cbn. rewrite !app_nil_r. auto.
  - cbn [existsb] in Hno. apply Bool.orb_false_iff in Hno. destruct Hno as [He Hrest].
    change (run_effects p (e :: rest)) with (run_effects (apply_effect p e) rest).
    destruct (IH (apply_effect p e) Hrest) as [-> ->].
    destruct e; try discriminate;
      cbn [apply_effect resultsContainer mobileResultsCarousel cards_of map];
      rewrite <- ?app_assoc; auto.
Qed.

(** The timers of the toasts touch nothing but the toasts, and they only
    remove the oldest ones. *)
Lemma apply_effect_frame (p q : Page) (e : Effect) :
  same_but_toasts p q -> same_but_toasts (apply_effect p e) (apply_effect q e).
Proof.
  unfold same_but_toasts. intros [H1 [H2 [H3 [H4 [H5 [H6 H7]]]]]].
  destruct e; cbn [apply_effect resultsContainer mobileResultsCarousel
    resultsSection_hidden progressIndicator_hidden fileCountSpan progressBar_width console];
    rewrite ?H1, ?H2, ?H7; auto 10.
Qed.

Lemma run_events_frame (events : list PageEvent) : forall p q,
  same_but_toasts p q ->
  same_but_toasts (run_events p events) (run_effects q (calls events)).
Proof.
  induction events as [|ev rest IH]; intros p q H; [exact H|].
  destruct ev as [e|]; cbn [calls].
  - change (run_events p (Call e :: rest)) with (run_events (apply_effect p e) rest).
    change (run_effects q (e :: calls rest)) with (run_effects (apply_effect q e) (calls rest)).
    apply IH, apply_effect_frame, H.
  - change (run_events p (ToastTimeout :: rest))
      with (run_events (page_step p ToastTimeout) rest).
    apply IH. exact H.
Qed.

Lemma run_events_toasts (events : list PageEvent) : forall p,
  exists k,
    toastContainer (run_events p events)
    = skipn k (toastContainer p ++ notices (calls events)).
Proof.
  induction events as [|ev rest IH]; intros p.
  - exists 0%nat. cbn. rewrite app_nil_r. reflexivity.
  - destruct ev as [e|]; cbn [calls].
    + change (run_events p (Call e :: rest)) with (run_events (apply_effect p e) rest).
      destruct (IH (apply_effect p e)) as [k Hk]. exists k. rewrite Hk.
      destruct e; cbn [apply_effect toastContainer notices]; try reflexivity.
      rewrite <- app_assoc. reflexivity.
    + change (run_events p (ToastTimeout :: rest))
        with (run_events (page_step p ToastTimeout) rest).
      destruct (IH (page_step p ToastTimeout)) as [k Hk]. rewrite Hk.
      cbn [page_step toastContainer].
      destruct (toastContainer p) as [|t ts].
      * exists k. reflexivity.
      * exists (S k). reflexivity.
Qed.

Lemma same_but_toasts_refl (p : Page) : same_but_toasts p p.
Proof. unfold same_but_toasts. auto 10. Qed.

Lemma flat_map_length_split (env : Browser) (files : list File) :
  forallb (settles env) files = true ->
  (List.length (flat_map (fun f => card_of_entry (entry_of env f)) files)
   + List.length (flat_map (fun f => log_of_entry (entry_of env f)) files)
   = List.length files)%nat.
Proof.
  induction files as [|f rest IH]; [reflexivity|].
  cbn [forallb flat_map List.length]. intros H. apply andb_prop in H. destruct H as [Hf H].
  rewrite !length_app, <- (IH H).
  rewrite settles_entry in Hf.
  destruct (entry_of env f) as [[n card|n m]|]; [| |discriminate];
    cbn [card_of_entry log_of_entry List.length]; lia.
Qed.

(** The effects of a call, read part by part. *)
Lemma processFiles_cards (env : Browser) (files : list File) :
  cards_of (fst (processFiles env files))
  = flat_map (fun f => card_of_entry (entry_of env f))
             (settled_prefix env (filter supported files)).
Proof.
  destruct (filter supported files) as [|f l] eqn:E.
  - destruct files as [|g rest]; [reflexivity|].
    rewrite processFiles_none_supported by (auto; discriminate). reflexivity.
  - rewrite processFiles_some_supported by (rewrite E; discriminate).
    rewrite E. cbn [fst app cards_of]. apply processLoop_cards.
Qed.

Lemma processFiles_page (env : Browser) (files : list File) (p : Page) :
  resultsContainer (run_effects p (fst (processFiles env files)))
  = cards_of (fst (processFiles env files))
  /\ mobileResultsCarousel (run_effects p (fst (processFiles env files)))
     = map mobileCard (cards_of (fst (processFiles env files))).
Proof.
  destruct (filter supported files) as [|f l] eqn:E.
  - destruct files as [|g rest]; [cbn; auto|].
    rewrite processFiles_none_supported by (auto; discriminate). cbn. auto.
  - rewrite processFiles_some_supported by (rewrite E; discriminate).
    rewrite E. cbn [fst app cards_of].
    change (run_effects p (?a :: ?b :: ?c :: ?d :: ?e :: ?l))
      with (run_effects (apply_effect (apply_effect (apply_effect (apply_effect
              (apply_effect p a) b) c) d) e) l).
    match goal with |- context [run_effects ?q ?l] =>
      destruct (run_results l q (processLoop_no_clear env _ _ _)) as [-> ->] end.
    cbn. auto.
Qed.

Lemma processFiles_flags (env : Browser) (files : list File) (p : Page) :
  filter supported files <> [] ->
  let accepted := filter supported files in
  let p' := run_effects p (fst (processFiles env files)) in
  resultsSection_hidden p' = false
  /\ fileCountSpan p' = List.length accepted
  /\ progressIndicator_hidden p' = forallb (settles env) accepted
  /\ progressBar_width p'
     = match settled_prefix env accepted with
       | [] => progressBar_width p
       | _ => Some (progressWidth (List.length (settled_prefix env accepted))
                                  (List.length accepted))
       end.
Proof.
  intros Hsome. cbv zeta.
  rewrite processFiles_some_supported by assumption. cbn [fst app].
  change (run_effects p (?a :: ?b :: ?c :: ?d :: ?e :: ?l))
    with (run_effects (apply_effect (apply_effect (apply_effect (apply_effect
            (apply_effect p a) b) c) d) e) l).
  match goal with |- context [run_effects ?q (fst (processLoop ?en ?t ?fs ?c))] =>
    destruct (processLoop_page en t fs c q) as [H1 [H2 [H3 H4]]] end.
  rewrite H1, H2, H3, H4.
  cbn [apply_effect resultsSection_hidden fileCountSpan progressIndicator_hidden
       progressBar_width Nat.add].
  repeat split. destruct (forallb (settles env) (filter supported files)); reflexivity.
Qed.

(** X8: when every accepted file's promise settles, [showToast] is called
    once per failed file, in input order, and then once with the
    completion notice, whose count is the number of accepted files, failed
    ones included.  A file fails when its promise is rejected or when its
    card cannot be built; [console.error] receives the same failures; the
    cards are those of the other files, in input order, and cards and
    failures together are as many as the accepted files. *)
Theorem settled_batch_notices (env : Browser) (files : list File) :
  filter supported files <> [] ->
  forallb (settles env) (filter supported files) = true ->
  let accepted := filter supported files in
  let effects := fst (processFiles env files) in
  notices effects
  = (flat_map (fun f => notice_of_entry (entry_of env f)) accepted
     ++ [completion_notice (List.length accepted)])%list
  /\ logged effects = flat_map (fun f => log_of_entry (entry_of env f)) accepted
  /\ cards_of effects = flat_map (fun f => card_of_entry (entry_of env f)) accepted
  /\ (List.length (cards_of effects) + List.length (logged effects)
      = List.length accepted)%nat.
Proof.
  intros Hsome Hall. cbv zeta.
  assert (Hc : cards_of (fst (processFiles env files))
               = flat_map (fun f => card_of_entry (entry_of env f)) (filter supported files)).
  { rewrite processFiles_cards, settled_prefix_all by assumption. reflexivity. }
  assert (Hl : logged (fst (processFiles env files))
               = flat_map (fun f => log_of_entry (entry_of env f)) (filter supported files)).
  { rewrite processFiles_some_supported by assumption. cbn [fst app logged].
    rewrite processLoop_logged, settled_prefix_all by assumption. reflexivity. }
  split; [|split; [exact Hl|split; [exact Hc|]]].
  - rewrite processFiles_some_supported by assumption. cbn [fst app notices].
    rewrite processLoop_notices, Hall, settled_prefix_all by assumption. reflexivity.
  - rewrite Hc, Hl. apply flat_map_length_split, Hall.
Qed.

Lemma settled_batch_notices_witness :
  notices (fst (processFiles Sample.browser [Sample.photo; Sample.notes; Sample.corrupt;
                                            Sample.tiny]))
  = [(("Compression failed for " ++ file_name Sample.corrupt
       ++ ". Error: Failed to load image.")%string, error);
     completion_notice 3].
Proof.
  assert (Hsome : filter supported [Sample.photo; Sample.notes; Sample.corrupt; Sample.tiny]
                  <> []) by (intros K; vm_compute in K; discriminate K).
  destruct (settled_batch_notices Sample.browser
              [Sample.photo; Sample.notes; Sample.corrupt; Sample.tiny] Hsome eq_refl)
    as [H _].
  rewrite H. vm_compute. reflexivity.
Defined.

(** X9: when every accepted file's promise settles, the page after the
    call, whatever it held before and whichever toasts have left it in the
    meantime, shows the cards of this batch in the results container and
    their copies, none of which has a click listener, in the mobile
    carousel; the results section is shown, the progress indicator hidden,
    the file count is the number of accepted files, the progress bar is at
    100, the console holds the failures of this batch after the earlier
    lines, and the toasts still shown are the last ones of the earlier
    toasts followed by those of this batch. *)
Theorem page_after_settled_batch (env : Browser) (files : list File) (p : Page)
    (events : list PageEvent) :
  calls events = fst (processFiles env files) ->
  filter supported files <> [] ->
  forallb (settles env) (filter supported files) = true ->
  Z.of_nat (List.length (filter supported files)) < 2 ^ 53 ->
  let accepted := filter supported files in
  let cards := flat_map (fun f => card_of_entry (entry_of env f)) accepted in
  let p' := run_events p events in
  resultsContainer p' = cards
  /\ mobileResultsCarousel p' = map mobileCard cards
  /\ Forall (fun card => element_listener card = None) (mobileResultsCarousel p')
  /\ resultsSection_hidden p' = false
  /\ progressIndicator_hidden p' = true
  /\ fileCountSpan p' = List.length accepted
  /\ progressBar_width p' = Some JsNumber.lit_100
  /\ console p'
     = (console p ++ flat_map (fun f => log_of_entry (entry_of env f)) accepted)%list
  /\ exists k,
       toastContainer p'
       = skipn k (toastContainer p
                  ++ flat_map (fun f => notice_of_entry (entry_of env f)) accepted
                  ++ [completion_notice (List.length accepted)]).
Proof.
  intros Hcalls Hsome Hall Hlen. cbv zeta.
  destruct (run_events_frame events p p (same_but_toasts_refl p))
    as [-> [-> [-> [-> [-> [-> ->]]]]]].
  destruct (run_events_toasts events p) as [k Hk]. rewrite Hk, Hcalls.
  destruct (processFiles_page env files p) as [-> ->].
  destruct (processFiles_flags env files p Hsome) as [-> [-> [-> ->]]].
  destruct (run_toasts (fst (processFiles env files)) p) as [_ ->].
  rewrite processFiles_cards, settled_prefix_all, Hall by assumption.
  rewrite processFiles_some_supported by assumption. cbn [fst app notices logged].
  rewrite processLoop_notices, processLoop_logged, Hall, settled_prefix_all by assumption.
  split; [reflexivity|]. split; [reflexivity|]. split.
  { apply Forall_forall. intros card Hin. apply in_map_iff in Hin.
    destruct Hin as [d [<- _]]. reflexivity. }
  split; [reflexivity|]. split; [reflexivity|]. split; [reflexivity|]. split.
  { destruct (filter supported files) as [|f l] eqn:E; [contradiction|].
    rewrite progressWidth_full; [reflexivity|]. cbn [List.length] in *. lia. }
  split; [reflexivity|]. exists k. reflexivity.
Qed.

Lemma page_after_settled_batch_witness :
  let p' := run_events Sample.page_with_results
              (ToastTimeout
               :: map Call (fst (processFiles Sample.browser [Sample.chart; Sample.corrupt]))
               ++ [ToastTimeout]) in
  List.length (resultsContainer p') = 1%nat
  /\ progressIndicator_hidden p' = true
  /\ fileCountSpan p' = 2%nat
  /\ progressBar_width p' = Some JsNumber.lit_100.
Proof.
  assert (Hsome : filter supported [Sample.chart; Sample.corrupt] <> [])
    by (intros K; vm_compute in K; discriminate K).
  destruct (page_after_settled_batch Sample.browser [Sample.chart; Sample.corrupt]
              Sample.page_with_results
              (ToastTimeout
               :: map Call (fst (processFiles Sample.browser [Sample.chart; Sample.corrupt]))
               ++ [ToastTimeout])
              eq_refl Hsome eq_refl eq_refl)
    as [H1 [_ [_ [_ [H4 [H5 [H6 _]]]]]]].
  cbv zeta. rewrite H1, H4, H5, H6. repeat split.
Defined.

(** X10: whatever the result containers held, after a call, and
    whichever toasts have left the page in the meantime, the results
    container holds the cards this call appended and nothing else: the
    cards of the accepted files whose promise resolved and whose card could
    be built, in input order, up to the first file whose promise never
    settles.  The mobile carousel holds their copies, none of which has a
    click listener.  The console only grows; the toasts shown are the last
    ones of the earlier toasts followed by those of this call. *)
Theorem results_replaced_by_batch (env : Browser) (files : list File) (p : Page)
    (events : list PageEvent) :
  calls events = fst (processFiles env files) ->
  let effects := fst (processFiles env files) in
  let cards := flat_map (fun f => card_of_entry (entry_of env f))
                        (settled_prefix env (filter supported files)) in
  resultsContainer (run_events p events) = cards
  /\ mobileResultsCarousel (run_events p events) = map mobileCard cards
  /\ Forall (fun card => element_listener card = None)
            (mobileResultsCarousel (run_events p events))
  /\ console (run_events p events) = (console p ++ logged effects)%list
  /\ exists k,
       toastContainer (run_events p events)
       = skipn k (toastContainer p ++ notices effects).
Proof.
  intros Hcalls. cbv zeta.
  destruct (run_events_frame events p p (same_but_toasts_refl p))
    as [-> [-> [_ [_ [_ [_ ->]]]]]].
  destruct (run_events_toasts events p) as [k Hk]. rewrite Hk, Hcalls.
  destruct (processFiles_page env files p) as [-> ->].
  destruct (run_toasts (fst (processFiles env files)) p) as [_ ->].
  rewrite processFiles_cards.
  split; [reflexivity|]. split; [reflexivity|]. split.
  { apply Forall_forall. intros card Hin. apply in_map_iff in Hin.
    destruct Hin as [d [<- _]]. reflexivity. }
  split; [reflexivity|]. exists k. reflexivity.
Qed.

Lemma results_replaced_by_batch_witness :
  resultsContainer Sample.page_with_results = [Sample.old_card]
  /\ List.length
       (resultsContainer
          (run_events Sample.page_with_results
             (map Call (fst (processFiles Sample.browser [Sample.corrupt; Sample.chart]))
              ++ [ToastTimeout]))) = 1%nat
  /\ ~ In Sample.old_card
       (resultsContainer
          (run_events Sample.page_with_results
             (map Call (fst (processFiles Sample.browser [Sample.corrupt; Sample.chart]))
              ++ [ToastTimeout]))).
Proof.
  destruct (results_replaced_by_batch Sample.browser [Sample.corrupt; Sample.chart]
              Sample.page_with_results
              (map Call (fst (processFiles Sample.browser [Sample.corrupt; Sample.chart]))
               ++ [ToastTimeout]) eq_refl) as [H _].
  split; [reflexivity|]. rewrite H. split; [reflexivity|].
  vm_compute. intros [K|[]]. discriminate K.
Defined.

(** X11: when some accepted file's promise never settles, the call stops
    there for good: whichever toasts have left the page in the meantime,
    the results section stays shown and the progress indicator visible,
    [showToast] was called for the failures before the stalled file only,
    never with a completion notice, and the progress bar stays at the share
    of the files before it. *)
Theorem page_after_stalled_batch (env : Browser) (files : list File) (p : Page)
    (events : list PageEvent) :
  calls events = fst (processFiles env files) ->
  forallb (settles env) (filter supported files) = false ->
  let accepted := filter supported files in
  let before := settled_prefix env accepted in
  let effects := fst (processFiles env files) in
  let p' := run_events p events in
  snd (processFiles env files) = false
  /\ resultsSection_hidden p' = false
  /\ progressIndicator_hidden p' = false
  /\ (List.length before < List.length accepted)%nat
  /\ notices effects = flat_map (fun f => notice_of_entry (entry_of env f)) before
  /\ progressBar_width p'
     = match before with
       | [] => progressBar_width p
       | _ => Some (progressWidth (List.length before) (List.length accepted))
       end.
Proof.
  intros Hcalls Hstall. cbv zeta.
  assert (Hsome : filter supported files <> []).
  { intros E. rewrite E in Hstall. discriminate. }
  destruct (run_events_frame events p p (same_but_toasts_refl p))
    as [_ [_ [-> [-> [_ [-> _]]]]]].
  rewrite Hcalls.
  destruct (processFiles_flags env files p Hsome) as [-> [_ [-> ->]]].
  rewrite processFiles_finished, Hstall.
  rewrite processFiles_some_supported by assumption. cbn [fst app notices].
  rewrite processLoop_notices, Hstall, app_nil_r.
  repeat split.
  clear Hsome Hcalls. induction (filter supported files) as [|f l IH]; [discriminate|].
  cbn [forallb settled_prefix] in *. destruct (settles env f); cbn [List.length].
  - apply -> Nat.succ_lt_mono. apply IH. exact Hstall.
  - lia.
Qed.

Lemma page_after_stalled_batch_witness :
  let effects := fst (processFiles Sample.browser [Sample.corrupt; Sample.strip; Sample.photo]) in
  progressIndicator_hidden
    (run_events Sample.page_with_results (map Call effects ++ [ToastTimeout])) = false
  /\ notices effects
     = [(("Compression failed for " ++ file_name Sample.corrupt
          ++ ". Error: Failed to load image.")%string, error)].
Proof.
  destruct (page_after_stalled_batch Sample.browser
              [Sample.corrupt; Sample.strip; Sample.photo] Sample.page_with_results
              (map Call (fst (processFiles Sample.browser
                                [Sample.corrupt; Sample.strip; Sample.photo]))
               ++ [ToastTimeout]) eq_refl eq_refl)
    as [_ [_ [H3 [_ [H5 _]]]]].
  cbv zeta. rewrite H3, H5. split; reflexivity.
Defined.

(** X20: a file that was compressed but whose card markup holds no
    download button is treated as a failed compression: line 270 throws
    inside the [try], so the file gets no card, a failure notice with the
    message of the engine's [TypeError] and a line on the console; it still
    counts as completed, and a batch made of that file alone ends with "1
    images ready for download" and no card. *)
Theorem unbuildable_card_reported_as_failure (env : Browser) (file : File) (r : Compressed) :
  supported file = true ->
  snd (compressImage env file) = Resolved r ->
  downloadButton env (cardMarkup file (compressedDataUrl r) (compressedSize r)
                                 (compressedBlob r)) = None ->
  entry_of env file = Some (Failed (file_name file) (nullMessage env))
  /\ snd (processFiles env [file]) = true
  /\ cards_of (fst (processFiles env [file])) = []
  /\ logged (fst (processFiles env [file])) = [(file_name file, nullMessage env)]
  /\ notices (fst (processFiles env [file]))
     = [(("Compression failed for " ++ file_name file ++ ". Error: "
          ++ nullMessage env)%string, error);
        completion_notice 1].
Proof.
  intros Hs Hres Hnone.
  assert (Hentry : entry_of env file = Some (Failed (file_name file) (nullMessage env))).
  { unfold entry_of, createResultCard. rewrite Hres, Hnone. reflexivity. }
  split; [exact Hentry|].
  assert (Hacc : filter supported [file] = [file]) by (cbn; rewrite Hs; reflexivity).
  rewrite processFiles_some_supported by (rewrite Hacc; discriminate).
  rewrite Hacc. cbn [List.length fst snd app].
  rewrite (processLoop_failed env 1 file [] 0 _ _ Hentry).
  cbn. auto.
Qed.

Lemma unbuildable_card_reported_as_failure_witness :
  notices (fst (processFiles Sample.browser
                  [mkFile "<!--.jpg" "image/jpeg" (Sample.zeros 10)]))
  = [("Compression failed for <!--.jpg. Error: downloadButton is null"%string, error);
     completion_notice 1].
Proof.
  destruct (unbuildable_card_reported_as_failure Sample.browser
              (mkFile "<!--.jpg" "image/jpeg" (Sample.zeros 10))
              (mkCompressed "data:image/jpeg;base64,/9j/4A=="
                 (mkBlob "image/jpeg" [Byte.xff; Byte.xd8; Byte.xff; Byte.xe0]) 4)
              eq_refl eq_refl eq_refl) as [_ [_ [_ [_ H]]]].
  exact H.
Defined.

(* ===================================================================== *)
(** * The card of a compressed file *)
(* ===================================================================== *)

(** X12: for a file whose name has none of the characters the HTML
    parser treats specially, the card built from what [compressImage]
    resolved with agrees with what its download button saves.  Either it
    is labelled "0% Reduction (Used Original)", saves the original file
    under its original name and previews the original data URL; or it is
    labelled with a reduction, saves a blob strictly smaller than the
    original under a "_compressed" name, and previews the data URL that
    blob was decoded from.  Its copy for the mobile carousel has no click
    listener. *)
Theorem card_agrees_with_download (env : Browser) (file : File) (r : Compressed) :
  snd (compressImage env file) = Resolved r ->
  JsString.includes quotation_mark (compressedDataUrl r) = false ->
  JsString.includes "<" (file_name file) = false ->
  attribute_safe (file_name file) = true ->
  exists card download,
    createResultCard env file (compressedDataUrl r) (compressedSize r) (compressedBlob r)
    = Returns card
    /\ element_listener card = Some download
    /\ element_listener (mobileCard card) = None
    /\ ((card_reductionText (element_markup card) = "0% Reduction (Used Original)"%string
         /\ card_reductionClass (element_markup card) = "bg-yellow-100 text-yellow-700"%string
         /\ download_blob download = Some (file_blob file)
         /\ download_name download = file_name file
         /\ readAsDataURL env file = Some (card_preview (element_markup card)))
        \/
        (exists blob piece,
            download_blob download = Some blob
            /\ blob_size blob < file_size file
            /\ card_reductionText (element_markup card)
               = ("-" ++ JsNumber.toFixed1 (reduction (blob_size blob) (file_size file))
                  ++ "% Reduction")%string
            /\ card_reductionClass (element_markup card)
               = "bg-green-100 text-green-700"%string
            /\ download_name download
               = (JsString.replace_ext (file_name file) ++ "_compressed." ++ piece)%string
            /\ dataUrlToBlob (card_preview (element_markup card)) = Some blob)).
Proof.
  intros Hres Hurl Hlt Hsafe.
  rewrite (createResultCard_inert env file _ _ _ Hurl Hlt Hsafe).
  eexists. eexists. split; [reflexivity|]. split; [reflexivity|]. split; [reflexivity|].
  cbn [element_markup download_blob download_name].
  revert Hres. unfold compressImage.
  destruct (readAsDataURL env file) as [url|] eqn:Hread; [|discriminate].
  destruct (loadImage env url) as [[w h]|]; [|discriminate].
  destruct (canvasSize w h) as [cw ch].
  destruct (encodeSettings (file_type file)) as [[mimeType quality]|]; [|discriminate].
  destruct (dataUrlToBlob _) as [b|] eqn:Hb; [|discriminate].
  destruct (blob_size b >=? file_size file) eqn:Hcmp; cbn [snd]; intros H;
    inversion H; subst r; clear H;
    unfold cardMarkup; cbn [compressedSize compressedBlob compressedDataUrl].
  - left. rewrite Z.ltb_irrefl. cbn. auto.
  - right. rewrite Z.geb_leb in Hcmp. apply Z.leb_gt in Hcmp.
    apply Z.ltb_lt in Hcmp. rewrite Hcmp. apply Z.ltb_lt in Hcmp.
    cbn [card_reductionText card_reductionClass card_fileName card_preview].
    eexists. eexists. repeat split; try eassumption.
Qed.

Lemma card_agrees_with_download_witness :
  exists card download,
    createResultCard Sample.browser Sample.chart "data:image/webp;base64,/9j/4A==" 4
                     (mkBlob "image/webp" [Byte.xff; Byte.xd8; Byte.xff; Byte.xe0])
    = Returns card
    /\ element_listener card = Some download
    /\ download_name download = "chart_compressed.webp"%string.
Proof.
  destruct (card_agrees_with_download Sample.browser Sample.chart
              (mkCompressed "data:image/webp;base64,/9j/4A=="
                 (mkBlob "image/webp" [Byte.xff; Byte.xd8; Byte.xff; Byte.xe0]) 4)
              eq_refl eq_refl eq_refl eq_refl)
    as [card [download [H1 [H2 _]]]].
  exists card, download. split; [exact H1|]. split; [exact H2|].
  cbn [compressedDataUrl compressedSize compressedBlob] in H1.
  vm_compute in H1. inversion H1; subst card.
  inversion H2; subst download. reflexivity.
Defined.

Lemma split_dot_absent (s : string) :
  DataUrl.free_of "." s = true -> JsString.split "." s = [s].
Proof.
  intros Hfree. unfold JsString.split.
  assert (G : forall cur, JsString.split_aux "." 0 cur s = [(cur ++ s)%string]).
  { induction s as [|c s IH]; intros cur.
    - cbn. rewrite append_nil_r. reflexivity.
    - cbn [DataUrl.free_of] in Hfree. apply andb_prop in Hfree. destruct Hfree as [Hc Hs].
      cbn [JsString.split_aux String.prefix].
      destruct (ascii_dec "." c) as [<-|Hne]; [discriminate|].
      rewrite IH by assumption. rewrite append_assoc. reflexivity. }
  apply (G ""%string).
Qed.

Lemma replace_ext_absent (s : string) :
  DataUrl.free_of "." s = true -> JsString.replace_ext s = s.
Proof.
  induction s as [|c s IH]; [reflexivity|].
  cbn [DataUrl.free_of JsString.replace_ext]. intros H.
  apply andb_prop in H. destruct H as [Hc Hs].
  replace (Ascii.eqb c ".") with false.
  - cbn [andb]. rewrite IH by assumption. reflexivity.
  - symmetry. apply Ascii.eqb_neq. intros ->. discriminate.
Qed.

(** X13: a file whose name has no dot, and none of the characters the
    HTML parser treats specially, gets its whole name as extension: the
    smaller download of ["photo"] is saved as ["photo_compressed.photo"],
    unless the blob is WebP. *)
Theorem download_name_without_dot (env : Browser) (file : File) (url : string)
    (finalSize : Z) (b : Blob) :
  DataUrl.free_of "." (file_name file) = true ->
  finalSize < file_size file ->
  JsString.includes quotation_mark url = false ->
  JsString.includes "<" (file_name file) = false ->
  attribute_safe (file_name file) = true ->
  exists card download,
    createResultCard env file url finalSize b = Returns card
    /\ element_listener card = Some download
    /\ download_blob download = Some b
    /\ download_name download
       = if JsString.includes "webp" (blob_type b)
         then (file_name file ++ "_compressed.webp")%string
         else (file_name file ++ "_compressed." ++ file_name file)%string.
Proof.
  intros Hfree Hlt Hurl Hname Hsafe.
  rewrite (createResultCard_inert env file url finalSize b Hurl Hname Hsafe).
  eexists. eexists. split; [reflexivity|]. split; [reflexivity|].
  cbn [download_blob download_name]. split; [reflexivity|].
  unfold cardMarkup. apply Z.ltb_lt in Hlt. rewrite Hlt.
  rewrite split_dot_absent, replace_ext_absent by assumption.
  cbn [JsString.pop last JsString.to_string card_fileName].
  destruct (JsString.includes "webp" (blob_type b)); reflexivity.
Qed.

Lemma download_name_without_dot_witness :
  exists card download,
    createResultCard Sample.browser (mkFile "photo" "image/jpeg" (Sample.zeros 10))
                     "data:image/jpeg;base64,/9j/4A==" 4
                     (mkBlob "image/jpeg" [Byte.xff; Byte.xd8; Byte.xff; Byte.xe0])
    = Returns card
    /\ element_listener card = Some download
    /\ download_name download = "photo_compressed.photo"%string.
Proof.
  destruct (download_name_without_dot Sample.browser
              (mkFile "photo" "image/jpeg" (Sample.zeros 10))
              "data:image/jpeg;base64,/9j/4A==" 4
              (mkBlob "image/jpeg" [Byte.xff; Byte.xd8; Byte.xff; Byte.xe0])
              eq_refl ltac:(vm_compute; reflexivity) eq_refl eq_refl eq_refl)
    as [card [download [H1 [H2 [_ H4]]]]].
  exists card, download. split; [exact H1|]. split; [exact H2|]. exact H4.
Defined.

(** X14: the width written into a card's bar is a number between 0 and
    100, never NaN or negative, for every final size and every non-empty
    original: either the percentage kept or, when that exceeds 100, exactly
    100. *)
Theorem bar_width_bounds (file : File) (url : string) (finalSize : Z) (b : Blob) :
  0 <= finalSize < 2 ^ 53 -> 1 <= file_size file < 2 ^ 53 ->
  let w := card_barWidth (cardMarkup file url finalSize b) in
  (w = reductionPercentage finalSize (file_size file) \/ w = JsNumber.lit_100)
  /\ (w = S754_zero false \/ exists m e, w = S754_finite false m e)
  /\ (0 <= JsNumber.value w <= 100)%Q
  /\ (forall env card, createResultCard env file url finalSize b = Returns card ->
        card_barWidth (element_markup card) = w).
Proof.
  intros Hf Ho. cbv zeta.
  assert (Hbuilt : forall env card,
             createResultCard env file url finalSize b = Returns card ->
             card_barWidth (element_markup card)
             = card_barWidth (cardMarkup file url finalSize b)).
  { intros env card H. rewrite (createResultCard_markup _ _ _ _ _ _ H). reflexivity. }
  revert Hbuilt. generalize (fun env => createResultCard env file url finalSize b).
  intros build Hbuilt.
  cut ((card_barWidth (cardMarkup file url finalSize b)
        = reductionPercentage finalSize (file_size file)
        \/ card_barWidth (cardMarkup file url finalSize b) = JsNumber.lit_100)
       /\ (card_barWidth (cardMarkup file url finalSize b) = S754_zero false
           \/ exists m e, card_barWidth (cardMarkup file url finalSize b)
                          = S754_finite false m e)
       /\ (0 <= JsNumber.value (card_barWidth (cardMarkup file url finalSize b)) <= 100)%Q).
  { intros [A [B C]]. split; [exact A|]. split; [exact B|]. split; [exact C|].
    exact Hbuilt. }
  clear build Hbuilt.
  assert (Hw : card_barWidth (cardMarkup file url finalSize b)
               = JsNumber.min (reductionPercentage finalSize (file_size file))
                              JsNumber.lit_100).
  { unfold cardMarkup. destruct (finalSize <? file_size file); reflexivity. }
  rewrite Hw. clear Hw.
  destruct (Z.eq_dec finalSize 0) as [->|Hnz].
  - assert (Hz : reductionPercentage 0 (file_size file) = S754_zero false).
    { unfold reductionPercentage.
      destruct (of_Z_spec (file_size file) Ho) as [mo [eo [Eo _]]].
      rewrite Eo. reflexivity. }
    rewrite Hz. change (JsNumber.min (S754_zero false) JsNumber.lit_100) with (S754_zero false).
    split; [auto|]. split; [auto|]. cbn. split; [apply Qle_refl|discriminate].
  - destruct (reductionPercentage_spec finalSize (file_size file) ltac:(lia) Ho)
      as [m [e [E [C _]]]].
    rewrite E, lit_100_finite.
    destruct (min_spec m 7036874417766400 e (-46) C lit_100_canonical) as [[-> Hle]|[-> Hle]].
    + split; [auto|]. split; [right; eauto|].
      rewrite <- lit_100_finite, lit_100_value in Hle.
      split; [apply Qlt_le_weak, value_pos|exact Hle].
    + split; [auto|]. split; [right; eauto|].
      rewrite <- lit_100_finite, lit_100_value. split; discriminate.
Qed.

Lemma bar_width_bounds_witness :
  (0 <= JsNumber.value (card_barWidth (cardMarkup Sample.chart EmptyString 49
                                         (mkBlob "image/png" []))) <= 100)%Q.
Proof.
  apply (bar_width_bounds Sample.chart EmptyString 49 (mkBlob "image/png" []));
    vm_compute; split; congruence.
Defined.

Lemma Qfloor_unique (q : Q) (n : Z) :
  (inject_Z n <= q)%Q -> (q < inject_Z (n + 1))%Q -> Qfloor q = n.
Proof.
  intros Hlo Hhi.
  pose proof (Qfloor_le q) as H1. pose proof (Qlt_floor q) as H2.
  assert (A : (inject_Z (Qfloor q) < inject_Z (n + 1))%Q) by (eapply Qle_lt_trans; eassumption).
  assert (B : (inject_Z n < inject_Z (Qfloor q + 1))%Q) by (eapply Qle_lt_trans; eassumption).
  rewrite <- Zlt_Qlt in A, B. lia.
Qed.

(** The tenths of the exact reduction, rounded half up, in integers. *)
Lemma tenths_half_up_exact (f o : Z) :
  0 <= f -> 0 < o ->
  tenths_half_up (exact_reduction f o) = (2000 * (o - f) + o) / (2 * o).
Proof.
  intros Hf Ho. unfold tenths_half_up, exact_reduction.
  set (N := (2000 * (o - f) + o) / (2 * o)).
  assert (HN : 2 * o * N <= 2000 * (o - f) + o < 2 * o * (N + 1)).
  { pose proof (Z.div_mod (2000 * (o - f) + o) (2 * o) ltac:(lia)) as Hdm.
    pose proof (Z.mod_pos_bound (2000 * (o - f) + o) (2 * o) ltac:(lia)) as Hm.
    fold N in Hdm. lia. }
  destruct HN as [Hlo Hhi].
  rewrite Zle_Qle in Hlo. rewrite Zlt_Qlt in Hhi.
  rewrite !inject_Z_plus, !inject_Z_mult in Hlo, Hhi.
  unfold Z.sub in Hlo, Hhi. rewrite !inject_Z_plus, !inject_Z_opp in Hlo, Hhi.
  assert (Oq : (0 < inject_Z o)%Q) by (rewrite <- (Zlt_Qlt 0); lia).
  assert (Hq : (inject_Z f / inject_Z o * inject_Z o == inject_Z f)%Q).
  { field. intros E. rewrite E in Oq. discriminate. }
  set (q := (inject_Z f / inject_Z o)%Q) in *.
  set (O := inject_Z o) in *. set (F := inject_Z f) in *. set (Nq := inject_Z N) in *.
  assert (Hone : inject_Z (N + 1) == Nq + 1) by (rewrite inject_Z_plus; reflexivity).
  change (inject_Z 2000) with (2000 # 1) in *. change (inject_Z 2) with (2 # 1) in *.
  change (inject_Z 1) with (1 # 1) in *.
  apply Qfloor_unique.
  - fold Nq. clearbody q O F Nq. nra.
  - rewrite Hone. clearbody q O F Nq. nra.
Qed.

(** X15: unless the exact reduction lies exactly half way between two
    tenths, the text shown is the exact reduction rounded to one decimal:
    the double rounding of the three floating-point operations never
    moves the displayed digit. *)
Theorem displayed_reduction_exact_off_ties (f o : Z) :
  0 <= f < o -> o < 2 ^ 32 ->
  (2000 * (o - f)) mod (2 * o) <> o ->
  let n := tenths_half_up (exact_reduction f o) in
  JsNumber.tenths (reduction f o) = n
  /\ JsNumber.toFixed1 (reduction f o)
     = (JsString.of_Z (n / 10) ++ "." ++ JsString.of_Z (n mod 10))%string.
Proof.
  intros Hf Ho Htie. cbv zeta.
  destruct (displayed_tenths f o Hf Ho) as [Htext [Hrange Hnear]].
  assert (Hn : JsNumber.tenths (reduction f o) = tenths_half_up (exact_reduction f o)).
  { rewrite tenths_half_up_exact by lia.
    set (n := JsNumber.tenths (reduction f o)) in *. clearbody n.
    set (X := 2000 * (o - f)) in *.
    assert (HX : X = 1000 * (o - f) * 2) by (unfold X; lia).
    assert (Hlo : 2 * o * n <= X + o) by lia.
    assert (Hhi : X + o <= 2 * o * (n + 1)) by lia.
    assert (Hne : X + o <> 2 * o * (n + 1)).
    { intros E. apply Htie.
      replace X with (o + n * (2 * o)) by lia.
      rewrite Z.mod_add by lia. apply Z.mod_small. lia. }
    apply Z.div_unique with (r := X + o - 2 * o * n); lia. }
  split; [exact Hn|]. rewrite <- Hn. exact Htext.
Qed.

Lemma displayed_reduction_exact_off_ties_witness :
  JsNumber.toFixed1 (reduction 50 80) = "37.5"%string.
Proof.
  destruct (displayed_reduction_exact_off_ties 50 80) as [_ H];
    [lia|lia|vm_compute; discriminate|].
  rewrite H. vm_compute. reflexivity.
Defined.

(* ===================================================================== *)
(** * Class lists: the drop area, the FAQ cards, the message box *)
(* ===================================================================== *)

Lemma contains_app (t : string) (l1 l2 : list string) :
  ClassList.contains t (l1 ++ l2) = ClassList.contains t l1 || ClassList.contains t l2.
Proof. apply existsb_app. Qed.

Lemma contains_add1 (t s : string) (l : list string) :
  ClassList.contains t (ClassList.add1 l s) = String.eqb t s || ClassList.contains t l.
Proof.
  unfold ClassList.add1. destruct (ClassList.contains s l) eqn:E.
  - destruct (String.eqb_spec t s) as [->|]; [rewrite E|]; reflexivity.
  - rewrite contains_app. cbn. rewrite !orb_false_r. apply orb_comm.
Qed.

Lemma contains_remove1 (t s : string) (l : list string) :
  ClassList.contains t (ClassList.remove1 l s)
  = negb (String.eqb t s) && ClassList.contains t l.
Proof.
  unfold ClassList.remove1, ClassList.contains.
  induction l as [|c l IH]; [cbn; rewrite andb_false_r; reflexivity|].
  cbn [filter existsb].
  destruct (String.eqb_spec s c) as [->|Hne]; cbn [negb].
  - rewrite IH. destruct (String.eqb_spec t c); cbn; reflexivity.
  - cbn [existsb]. rewrite IH.
    destruct (String.eqb_spec t c) as [->|]; cbn.
    + destruct (String.eqb_spec c s) as [->|]; [contradiction|reflexivity].
    + reflexivity.
Qed.

Lemma contains_toggle (t s : string) (l : list string) :
  ClassList.contains t (ClassList.toggle s l)
  = if String.eqb t s then negb (ClassList.contains s l) else ClassList.contains t l.
Proof.
  unfold ClassList.toggle. destruct (ClassList.contains s l) eqn:E.
  - rewrite contains_remove1. destruct (String.eqb_spec t s); reflexivity.
  - rewrite contains_app. cbn. rewrite orb_false_r.
    destruct (String.eqb_spec t s) as [->|]; [rewrite E|rewrite orb_false_r]; reflexivity.
Qed.

Ltac class_lists :=
  cbn [ClassList.add ClassList.remove fold_left];
  repeat (rewrite contains_add1 || rewrite contains_remove1 || rewrite contains_toggle).

Ltac token t s :=
  destruct (String.eqb_spec t s) as [->|?];
  [cbn [String.eqb Ascii.eqb Bool.eqb orb andb negb]; rewrite ?andb_false_r; reflexivity|].

Lemma dropArea_listener_tokens (classes : list string) (e : DragEvent) (t : string) :
  ClassList.contains t (dropArea_listener classes e)
  = if String.eqb t "border-indigo-600/90" || String.eqb t "scale-[1.02]" then entering e
    else if String.eqb t "border-indigo-300/50" || String.eqb t "scale-[1.00]"
         then negb (entering e)
         else ClassList.contains t classes.
Proof.
  destruct e; unfold dropArea_listener; class_lists; cbn [entering negb];
    token t "border-indigo-600/90"%string; token t "scale-[1.02]"%string;
    token t "border-indigo-300/50"%string; token t "scale-[1.00]"%string;
    reflexivity.
Qed.

(** X16: after any sequence of drag events on the drop area, from any
    initial classes, the two highlight classes are present exactly when the
    last event was [dragenter] or [dragover], the two idle classes exactly
    when it was [dragleave] or [drop], and every other class is as it was
    at the start. *)
Theorem drop_area_highlight (classes : list string) (events : list DragEvent)
    (e : DragEvent) :
  let after := fold_left dropArea_listener (events ++ [e]) classes in
  ClassList.contains "border-indigo-600/90" after = entering e
  /\ ClassList.contains "scale-[1.02]" after = entering e
  /\ ClassList.contains "border-indigo-300/50" after = negb (entering e)
  /\ ClassList.contains "scale-[1.00]" after = negb (entering e)
  /\ forall t,
       ~ In t ["border-indigo-600/90"; "scale-[1.02]"; "border-indigo-300/50";
               "scale-[1.00]"]%string ->
       ClassList.contains t after = ClassList.contains t classes.
Proof.
  cbv zeta. rewrite fold_left_app. cbn [fold_left].
  rewrite !dropArea_listener_tokens. cbn [String.eqb Ascii.eqb Bool.eqb orb andb].
  repeat split. intros t Hout.
  assert (Hother : forall l ev,
            ClassList.contains t (dropArea_listener l ev) = ClassList.contains t l).
  { intros l ev. rewrite dropArea_listener_tokens.
    destruct (String.eqb_spec t "border-indigo-600/90") as [->|];
      [exfalso; apply Hout; cbn; auto|].
    destruct (String.eqb_spec t "scale-[1.02]") as [->|];
      [exfalso; apply Hout; cbn; auto|].
    destruct (String.eqb_spec t "border-indigo-300/50") as [->|];
      [exfalso; apply Hout; cbn; auto|].
    destruct (String.eqb_spec t "scale-[1.00]") as [->|];
      [exfalso; apply Hout; cbn; auto|].
    reflexivity. }
  rewrite Hother. clear e. revert classes.
  induction events as [|ev events IH]; intros classes; [reflexivity|].
  cbn [fold_left]. rewrite IH. apply Hother.
Qed.

(** X17: after one or more clicks on a FAQ card the icon is turned back
    to 0 degrees exactly when the answer is hidden; the answer is hidden
    after an odd number of clicks exactly when it was not at the start;
    no other class of the answer changes. *)
Theorem faq_icon_follows_answer (card : FaqCard) (n : nat) :
  let after := Nat.iter (S n) faq_click card in
  let hidden := ClassList.contains "hidden" (answer_classList after) in
  icon_transform after = (if hidden then "rotate(0deg)" else "rotate(180deg)")%string
  /\ hidden = xorb (ClassList.contains "hidden" (answer_classList card)) (Nat.even n)
  /\ forall t, t <> "hidden"%string ->
       ClassList.contains t (answer_classList after)
       = ClassList.contains t (answer_classList card).
Proof.
  cbv zeta. split; [reflexivity|].
  induction n as [|n IH].
  - cbn [Nat.iter nat_rect faq_click answer_classList Nat.even]. split.
    + rewrite contains_toggle. cbn. rewrite xorb_true_r. reflexivity.
    + intros t Ht. rewrite contains_toggle.
      destruct (String.eqb_spec t "hidden"); [contradiction|reflexivity].
  - destruct IH as [IH1 IH2].
    change (Nat.iter (S (S n)) faq_click card) with (faq_click (Nat.iter (S n) faq_click card)).
    cbn [faq_click answer_classList]. split.
    + rewrite contains_toggle. cbn [String.eqb Ascii.eqb Bool.eqb andb]. rewrite IH1.
      rewrite Nat.even_succ, <- Nat.negb_even.
      destruct (ClassList.contains "hidden" (answer_classList card)), (Nat.even n); reflexivity.
    + intros t Ht. rewrite contains_toggle.
      destruct (String.eqb_spec t "hidden"); [contradiction|]. apply IH2, Ht.
Qed.

(** X18: from any state of the message box, showing it and letting its
    timer run leaves it visible with the given title and body and its
    content slid into place; hiding it and letting that timer run leaves it
    transparent and closed to pointer events, with its content slid out and
    the title and body still in place. *)
Theorem message_box_show_then_hide (box : MessageBox) (title content : string) :
  let shown := fold_left box_step [ShowMessageBox title content; ShownTimer] box in
  let hidden := fold_left box_step [HideMessageBox; HiddenTimer] shown in
  box_visible shown = true
  /\ ClassList.contains "translate-y-4" (messageContent shown) = false
  /\ messageTitle shown = title /\ messageBody shown = content
  /\ box_hidden hidden = true
  /\ ClassList.contains "translate-y-4" (messageContent hidden) = true
  /\ messageTitle hidden = title /\ messageBody hidden = content.
Proof.
  cbv zeta. unfold box_visible, box_hidden.
  cbn [fold_left box_step messageBoxModal messageContent messageTitle messageBody].
  class_lists. cbn [String.eqb Ascii.eqb Bool.eqb orb andb negb].
  repeat split.
Qed.

Lemma box_text_kept (events : list BoxEvent) : forall box,
  Forall (fun e => match e with ShowMessageBox _ _ => False | _ => True end) events ->
  messageTitle (fold_left box_step events box) = messageTitle box
  /\ messageBody (fold_left box_step events box) = messageBody box.
Proof.
  induction events as [|e rest IH]; intros box Hno; [split; reflexivity|].
  inversion Hno as [|e' rest' He Hrest]; subst.
  cbn [fold_left]. destruct (IH (box_step box e) Hrest) as [-> ->].
  destruct e; try contradiction; split; reflexivity.
Qed.

(** X19: the timer of [hideMessageBox] hides whatever the message box
    shows when it fires: a message shown after the box was told to hide
    and before that timer ran is made transparent and closed to pointer
    events by it, with its own title and body in place. *)
Theorem message_box_hidden_by_pending_timer (box : MessageBox) (title content : string)
    (between : list BoxEvent) :
  let after := fold_left box_step
                 ([HideMessageBox; ShowMessageBox title content] ++ between ++ [HiddenTimer])
                 box in
  box_hidden after = true
  /\ (Forall (fun e => match e with ShowMessageBox _ _ => False | _ => True end) between ->
      messageTitle after = title /\ messageBody after = content).
Proof.
  cbv zeta. rewrite !fold_left_app. cbn [fold_left]. split.
  - unfold box_hidden. cbn [box_step messageBoxModal]. class_lists.
    cbn [String.eqb Ascii.eqb Bool.eqb orb andb negb]. reflexivity.
  - intros Hno.
    change (messageTitle (box_step ?b HiddenTimer)) with (messageTitle b).
    change (messageBody (box_step ?b HiddenTimer)) with (messageBody b).
    destruct (box_text_kept between
                (box_step (box_step box HideMessageBox) (ShowMessageBox title content)) Hno)
      as [-> ->].
    split; reflexivity.
Qed.
